(** * docusaurus-prerender-mermaid: the render pipeline and the markup transformer

    A shallow embedding of [src/renderer.js], [src/remark.js] and the parts of
    [src/index.js] and [src/store.js] they depend on.

    JavaScript strings are sequences of UTF-16 code units; they are modelled
    as lists of [N].  The regular expressions of the source are written out as
    the search functions they denote (the argument is given at each one). *)

From Stdlib Require Import Ascii String DecimalString.
From Stdlib Require Import List NArith Bool Lia Arith PeanoNat Permutation.
Import ListNotations.

(* ================================================================== *)
(** * JavaScript strings *)
(* ================================================================== *)

Module JS.

(** A UTF-16 code unit. *)
Definition char := N.

Definition jsstring := list char.

(** ASCII literals of the source. *)
Definition lit (s : string) : jsstring :=
  List.map N_of_ascii (list_ascii_of_string s).

(** [a === b] *)
Fixpoint eqb (a b : jsstring) : bool :=
  match a, b with
  | [], [] => true
  | x :: a', y :: b' => (x =? y)%N && eqb a' b'
  | _, _ => false
  end.

(** [WhiteSpace] and [LineTerminator] of ECMA-262: the characters removed by
    [String.prototype.trim] and matched by the class [\s]. *)
Definition isLineTerminator (c : char) : bool :=
  (c =? 0x0A)%N || (c =? 0x0D)%N || (c =? 0x2028)%N || (c =? 0x2029)%N.

Definition isWhiteSpace (c : char) : bool :=
  (c =? 0x09)%N || (c =? 0x0B)%N || (c =? 0x0C)%N || (c =? 0x20)%N
  || (c =? 0xA0)%N || (c =? 0x1680)%N
  || ((0x2000 <=? c)%N && (c <=? 0x200A)%N)
  || (c =? 0x202F)%N || (c =? 0x205F)%N || (c =? 0x3000)%N
  || (c =? 0xFEFF)%N
  || isLineTerminator c.

Fixpoint dropWhile (p : char -> bool) (s : jsstring) : jsstring :=
  match s with
  | [] => []
  | c :: t => if p c then dropWhile p t else s
  end.

Fixpoint takeWhile (p : char -> bool) (s : jsstring) : jsstring :=
  match s with
  | [] => []
  | c :: t => if p c then c :: takeWhile p t else []
  end.

Definition trimStart (s : jsstring) : jsstring := dropWhile isWhiteSpace s.

Definition trimEnd (s : jsstring) : jsstring :=
  rev (dropWhile isWhiteSpace (rev s)).

(** [s.trim()] *)
Definition trim (s : jsstring) : jsstring := trimEnd (trimStart s).

(** [s.startsWith(p)] *)
Fixpoint startsWith (p s : jsstring) : bool :=
  match p, s with
  | [], _ => true
  | _ :: _, [] => false
  | a :: p', b :: s' => (a =? b)%N && startsWith p' s'
  end.

(** Splits [s] around the leftmost occurrence of [p]: the text before it and
    the text after it.  [None] when [p] does not occur. *)
Fixpoint splitFirst (p s : jsstring) : option (jsstring * jsstring) :=
  if startsWith p s then Some ([], skipn (length p) s)
  else
    match s with
    | [] => None
    | c :: t =>
        match splitFirst p t with
        | Some (a, b) => Some (c :: a, b)
        | None => None
        end
    end.

(** [s.includes(p)] *)
Definition includes (p s : jsstring) : bool :=
  match splitFirst p s with Some _ => true | None => false end.

(** [s.substring(0, n)] *)
Definition substring0 (n : nat) (s : jsstring) : jsstring := firstn n s.

(** [xs.join(sep)] *)
Fixpoint join (sep : jsstring) (xs : list jsstring) : jsstring :=
  match xs with
  | [] => []
  | [x] => x
  | x :: rest => x ++ sep ++ join sep rest
  end.

(** A string that may be [null] or [undefined]: [x || d]. *)
Definition orElse (x : option jsstring) (d : jsstring) : jsstring :=
  match x with
  | Some ((_ :: _) as s) => s
  | _ => d
  end.

(** A string or [null] used as a condition. *)
Definition truthy (x : option jsstring) : bool :=
  match x with
  | Some (_ :: _) => true
  | _ => false
  end.

End JS.

Import JS.

Arguments lit s%_string.

(* ================================================================== *)
(** * [crypto.createHash('md5').update(str).digest('hex')] *)
(* ================================================================== *)

(** Node encodes the string argument of [update] as UTF-8 and [digest('hex')]
    prints the 16 bytes of the MD5 digest (RFC 1321) as 32 lower-case
    hexadecimal digits. *)

Module Crypto.

Local Open Scope N_scope.

Definition byte := N.

(** UTF-8 encoding of a code point. *)
Definition utf8_cp (cp : N) : list byte :=
  if cp <? 0x80 then [cp]
  else if cp <? 0x800 then
    [N.lor 0xC0 (N.shiftr cp 6); N.lor 0x80 (N.land cp 0x3F)]
  else if cp <? 0x10000 then
    [N.lor 0xE0 (N.shiftr cp 12);
     N.lor 0x80 (N.land (N.shiftr cp 6) 0x3F);
     N.lor 0x80 (N.land cp 0x3F)]
  else
    [N.lor 0xF0 (N.shiftr cp 18);
     N.lor 0x80 (N.land (N.shiftr cp 12) 0x3F);
     N.lor 0x80 (N.land (N.shiftr cp 6) 0x3F);
     N.lor 0x80 (N.land cp 0x3F)].

Definition isHighSurrogate (c : N) : bool := (0xD800 <=? c) && (c <? 0xDC00).
Definition isLowSurrogate (c : N) : bool := (0xDC00 <=? c) && (c <? 0xE000).

(** UTF-16 to UTF-8: a surrogate pair is one code point, an unpaired
    surrogate is replaced by U+FFFD. *)
Fixpoint utf8 (s : jsstring) : list byte :=
  match s with
  | [] => []
  | c :: t =>
      if isHighSurrogate c then
        match t with
        | lo :: t' =>
            if isLowSurrogate lo then
              utf8_cp (0x10000 + N.shiftl (c - 0xD800) 10 + (lo - 0xDC00))
                ++ utf8 t'
            else utf8_cp 0xFFFD ++ utf8 t
        | [] => utf8_cp 0xFFFD
        end
      else if isLowSurrogate c then utf8_cp 0xFFFD ++ utf8 t
      else utf8_cp c ++ utf8 t
  end.

Definition w32 (x : N) : N := N.land x 0xFFFFFFFF.
Definition add32 (x y : N) : N := w32 (x + y).
Definition not32 (x : N) : N := N.lxor (w32 x) 0xFFFFFFFF.
Definition rotl32 (x c : N) : N :=
  w32 (N.lor (N.shiftl x c) (N.shiftr (w32 x) (32 - c))).

Definition shifts : list N :=
  [7; 12; 17; 22; 7; 12; 17; 22; 7; 12; 17; 22; 7; 12; 17; 22;
   5; 9; 14; 20; 5; 9; 14; 20; 5; 9; 14; 20; 5; 9; 14; 20;
   4; 11; 16; 23; 4; 11; 16; 23; 4; 11; 16; 23; 4; 11; 16; 23;
   6; 10; 15; 21; 6; 10; 15; 21; 6; 10; 15; 21; 6; 10; 15; 21].

(** [K i = floor (2^32 * abs (sin (i + 1)))] *)
Definition K : list N :=
  [0xd76aa478; 0xe8c7b756; 0x242070db; 0xc1bdceee;
   0xf57c0faf; 0x4787c62a; 0xa8304613; 0xfd469501;
   0x698098d8; 0x8b44f7af; 0xffff5bb1; 0x895cd7be;
   0x6b901122; 0xfd987193; 0xa679438e; 0x49b40821;
   0xf61e2562; 0xc040b340; 0x265e5a51; 0xe9b6c7aa;
   0xd62f105d; 0x02441453; 0xd8a1e681; 0xe7d3fbc8;
   0x21e1cde6; 0xc33707d6; 0xf4d50d87; 0x455a14ed;
   0xa9e3e905; 0xfcefa3f8; 0x676f02d9; 0x8d2a4c8a;
   0xfffa3942; 0x8771f681; 0x6d9d6122; 0xfde5380c;
   0xa4beea44; 0x4bdecfa9; 0xf6bb4b60; 0xbebfbc70;
   0x289b7ec6; 0xeaa127fa; 0xd4ef3085; 0x04881d05;
   0xd9d4d039; 0xe6db99e5; 0x1fa27cf8; 0xc4ac5665;
   0xf4292244; 0x432aff97; 0xab9423a7; 0xfc93a039;
   0x655b59c3; 0x8f0ccc92; 0xffeff47d; 0x85845dd1;
   0x6fa87e4f; 0xfe2ce6e0; 0xa3014314; 0x4e0811a1;
   0xf7537e82; 0xbd3af235; 0x2ad7d2bb; 0xeb86d391].

(** Little-endian bytes of a number, [n] of them. *)
Fixpoint le_bytes (n : nat) (x : N) : list byte :=
  match n with
  | O => []
  | S n' => N.land x 0xFF :: le_bytes n' (N.shiftr x 8)
  end.

Fixpoint le_word (bs : list byte) : N :=
  match bs with
  | [] => 0
  | b :: t => b + 256 * le_word t
  end.

(** The message, a 1 bit, zeros up to 56 modulo 64, and the bit length as 64
    bits, least significant byte first. *)
Definition pad (msg : list byte) : list byte :=
  let len := N.of_nat (List.length msg) in
  let zeros := N.to_nat ((119 - len mod 64) mod 64) in
  msg ++ [0x80] ++ repeat 0 zeros ++ le_bytes 8 (N.land (8 * len) 0xFFFFFFFFFFFFFFFF).

(** [n] consecutive blocks of [k] elements. *)
Fixpoint blocks {A} (k n : nat) (xs : list A) : list (list A) :=
  match n with
  | O => []
  | S n' => firstn k xs :: blocks k n' (skipn k xs)
  end.

Definition words (chunk : list byte) : list N :=
  List.map le_word (blocks 4 16 chunk).

Record state := mkState { sa : N; sb : N; sc : N; sd : N }.

Definition init : state :=
  mkState 0x67452301 0xefcdab89 0x98badcfe 0x10325476.

Definition round (M : list N) (st : state) (i : nat) : state :=
  let '(mkState A B C D) := st in
  let i' := N.of_nat i in
  let '(F, g) :=
    if i' <? 16 then (N.lor (N.land B C) (N.land (not32 B) D), i')
    else if i' <? 32 then
      (N.lor (N.land D B) (N.land (not32 D) C), (5 * i' + 1) mod 16)
    else if i' <? 48 then (N.lxor B (N.lxor C D), (3 * i' + 5) mod 16)
    else (N.lxor C (N.lor B (not32 D)), (7 * i') mod 16) in
  let F' := add32 (add32 (add32 F A) (nth i K 0)) (nth (N.to_nat g) M 0) in
  mkState D (add32 B (rotl32 F' (nth i shifts 0))) B C.

Definition compress (st : state) (chunk : list byte) : state :=
  let r := fold_left (round (words chunk)) (seq 0 64) st in
  mkState (add32 (sa st) (sa r)) (add32 (sb st) (sb r))
          (add32 (sc st) (sc r)) (add32 (sd st) (sd r)).

Definition md5 (msg : list byte) : list byte :=
  let p := pad msg in
  let st := fold_left compress (blocks 64 (List.length p / 64) p) init in
  le_bytes 4 (sa st) ++ le_bytes 4 (sb st)
    ++ le_bytes 4 (sc st) ++ le_bytes 4 (sd st).

Definition hexdigit (n : N) : char :=
  if n <? 10 then 48 + n else 87 + n.

Definition hexbyte (b : byte) : jsstring :=
  [hexdigit (N.shiftr b 4 mod 16); hexdigit (b mod 16)].

Definition hex (bs : list byte) : jsstring := flat_map hexbyte bs.

(** [crypto.createHash('md5').update(str).digest('hex')] *)
Definition md5_hex (str : jsstring) : jsstring := hex (md5 (utf8 str)).

End Crypto.

(* ================================================================== *)
(** * The regular expressions of [renderer.js] and [remark.js] *)
(* ================================================================== *)

(** Both files declare the same patterns.  None of them carries the [u] or
    [s] flag: [.] is any code unit but a line terminator, [[\s\S]] is any code
    unit. *)

Module Patterns.

Definition dashes : jsstring := lit "---".
Definition fence : jsstring := lit "```".
Definition fenceMermaid : jsstring := lit "```mermaid".

(** [s.match(/---([\s\S]*?)---/)]: the text before the match, the capture and
    the text after the match.

    The leftmost attempt that can succeed starts at the leftmost ["---"]; the
    lazy star then stops at the first ["---"] that begins at least three
    units later.  When no such closing delimiter exists, no later start can
    succeed either, since its closing delimiter would have closed the first
    attempt too. *)
Definition metadataBlockRegex_exec (s : jsstring)
  : option (jsstring * jsstring * jsstring) :=
  match splitFirst dashes s with
  | None => None
  | Some (pre, rest) =>
      match splitFirst dashes rest with
      | None => None
      | Some (cap, post) => Some (pre, cap, post)
      end
  end.

(** [metadataBlockMatch ? metadataBlockMatch[1] : ''] *)
Definition metadataContent_of (s : jsstring) : jsstring :=
  match metadataBlockRegex_exec s with
  | Some (_, cap, _) => cap
  | None => []
  end.

(** [s.replace(metadataBlockRegex, '')]: the pattern is not global, only the
    first match is removed. *)
Definition metadataBlockRegex_remove (s : jsstring) : jsstring :=
  match metadataBlockRegex_exec s with
  | Some (pre, _, post) => pre ++ post
  | None => s
  end.

(** Capture 1 of [s.match(re)] for the patterns made of a key (["id:"],
    ["alt:"], ["caption:"], ["width:"], ["descriptionId:"]), then [\s*], then
    a group capturing a greedy run of [.].  The match starts at the leftmost
    occurrence of the key and never fails there: [\s*] takes every white
    space unit, line terminators included, and the group takes the rest of
    that line, possibly nothing. *)
Definition keyRegex_exec (key s : jsstring) : option jsstring :=
  match splitFirst key s with
  | None => None
  | Some (_, rest) =>
      Some (takeWhile (fun c => negb (isLineTerminator c))
                      (dropWhile isWhiteSpace rest))
  end.

Definition idRegex_exec := keyRegex_exec (lit "id:").
Definition altRegex_exec := keyRegex_exec (lit "alt:").
Definition captionRegex_exec := keyRegex_exec (lit "caption:").
Definition widthRegex_exec := keyRegex_exec (lit "width:").
Definition descriptionIdRegex_exec := keyRegex_exec (lit "descriptionId:").

(** [s.match(/key\s*value/)] as a truth value: some occurrence of [key] is
    followed by white space and then by [value].  [value] starts with a unit
    that is not white space, so the greedy [\s*] cannot give any back. *)
Fixpoint keyValueRegex_test (key value s : jsstring) : bool :=
  (startsWith key s
   && startsWith value (dropWhile isWhiteSpace (skipn (List.length key) s)))
  || match s with
     | [] => false
     | _ :: t => keyValueRegex_test key value t
     end.

(** [/prerender:\s*false/] *)
Definition prerenderRegex_test : jsstring -> bool :=
  keyValueRegex_test (lit "prerender:") (lit "false").

(** [/draft:\s*true/] *)
Definition draftRegex_test : jsstring -> bool :=
  keyValueRegex_test (lit "draft:") (lit "true").

Definition notSlash (c : char) : bool := negb (c =? 47)%N.

(** [s.match(/i18n\/([^\/]+)\//)], capture 1: at the leftmost ["i18n/"] that
    is followed by a non-empty run without slash and then a slash. *)
Fixpoint localeRegex_exec (s : jsstring) : option jsstring :=
  let rest := skipn 5 s in
  let seg := takeWhile notSlash rest in
  if startsWith (lit "i18n/") s
     && negb (Nat.eqb (List.length seg) 0)
     && startsWith (lit "/") (skipn (List.length seg) rest)
  then Some seg
  else match s with
       | [] => None
       | _ :: t => localeRegex_exec t
       end.

(** [content.match(/```mermaid([\s\S]*?)```/g) || []]: the successive
    non-overlapping matches, each from an opening ["```mermaid"] to the first
    ["```"] after it. *)
Fixpoint mermaidBlocks_from (fuel : nat) (s : jsstring) : list jsstring :=
  match fuel with
  | O => []
  | S fuel' =>
      match splitFirst fenceMermaid s with
      | None => []
      | Some (_, rest) =>
          match splitFirst fence rest with
          | None => []
          | Some (inner, post) =>
              (fenceMermaid ++ inner ++ fence) :: mermaidBlocks_from fuel' post
          end
      end
  end.

Definition mermaidBlocks (content : jsstring) : list jsstring :=
  mermaidBlocks_from (List.length content) content.

(** [s.replace(/```mermaid|```/g, '')]: scanning left to right, a position
    where ["```mermaid"] starts loses those ten units, otherwise one where
    ["```"] starts loses those three.  [skip] counts the units of the current
    match still to be dropped. *)
Fixpoint removeFences_aux (skip : nat) (s : jsstring) : jsstring :=
  match s with
  | [] => []
  | c :: t =>
      match skip with
      | S k => removeFences_aux k t
      | O =>
          if startsWith fenceMermaid s then removeFences_aux 9 t
          else if startsWith fence s then removeFences_aux 2 t
          else c :: removeFences_aux 0 t
      end
  end.

Definition removeFences (s : jsstring) : jsstring := removeFences_aux 0 s.

End Patterns.

(* ================================================================== *)
(** * [renderer.js]: scanning and planning *)
(* ================================================================== *)

Module Renderer.

Import Patterns.

(** [createHash(str)] *)
Definition createHash (str : jsstring) : jsstring :=
  substring0 10 (Crypto.md5_hex str).

(** The [options] argument of [renderAllMermaidDiagrams]. *)
Record Options := mkOptions {
  siteDir : jsstring;
  contentPaths : list jsstring;
  outputDir : jsstring;
  themeConfigPath : option jsstring;
  defaultLocale : jsstring;
  outputFormat : jsstring;
  concurrency : nat;
  mmdcArgs : list jsstring;
  tempDir : jsstring;
  themeName : jsstring;
  outputSuffix : jsstring
}.

(** One entry of [diagramTasks]. *)
Record Task := mkTask {
  id : jsstring;
  locale : jsstring;
  filename : jsstring;
  mermaidCode : jsstring;
  outputPath : jsstring
}.

(** A content file found by [globby]: [path.relative(siteDir, file)] and the
    text read from it. *)
Record DocFile := mkDocFile {
  relativePath : jsstring;
  content : jsstring
}.

(** The identity of a block (the [let id] statement): [idMatch] is the result
    of [metadataContent.match(idRegex)] reduced to its capture, [None] when
    there is no match. *)
Definition derive (mermaidCode : jsstring) (idMatch : option jsstring)
  : jsstring :=
  match idMatch with
  | Some ((_ :: _) as capture) => trim capture
  | _ => createHash mermaidCode
  end.

(** [`${id}-${locale}${outputSuffix}.${outputFormat}`] *)
Definition filenameOf (id locale outputSuffix outputFormat : jsstring)
  : jsstring :=
  id ++ lit "-" ++ locale ++ outputSuffix ++ lit "." ++ outputFormat.

(** The body of a block: fences removed, then the first metadata header,
    then trimmed. *)
Definition mermaidCodeOf (block : jsstring) : jsstring :=
  trim (metadataBlockRegex_remove (removeFences block)).

(** The identity of a block. *)
Definition idOf (block : jsstring) : jsstring :=
  derive (mermaidCodeOf block) (idRegex_exec (metadataContent_of block)).

(** What the loop body takes from a block: the text of its header, empty
    when it has none, and its body. *)
Definition extract (block : jsstring) : jsstring * jsstring :=
  (metadataContent_of block, mermaidCodeOf block).

Section Planning.

(** Node's [path.join]. *)
Variable path_join : jsstring -> jsstring -> jsstring.

Variable options : Options.

(** The body of the inner loop: the task queued for one block, none when the
    header says [prerender: false]. *)
Definition taskOfBlock (locale : jsstring) (block : jsstring) : option Task :=
  let metadataContent := metadataContent_of block in
  if prerenderRegex_test metadataContent then None
  else
    let idMatch := idRegex_exec metadataContent in
    let mermaidCode := mermaidCodeOf block in
    let id := derive mermaidCode idMatch in
    let filename :=
      filenameOf id locale (outputSuffix options) (outputFormat options) in
    let outputPath := path_join (outputDir options) filename in
    Some (mkTask id locale filename mermaidCode outputPath).

(** [localeMatch ? localeMatch[1] : defaultLocale] *)
Definition localeOf (relativePath : jsstring) : jsstring :=
  match localeRegex_exec relativePath with
  | Some l => l
  | None => defaultLocale options
  end.

(** The tasks pushed while one file is scanned. *)
Definition tasksOfFile (file : DocFile) : list Task :=
  if draftRegex_test (content file) then []
  else
    let locale := localeOf (relativePath file) in
    flat_map (fun block =>
                match taskOfBlock locale block with
                | Some t => [t]
                | None => []
                end)
             (mermaidBlocks (content file)).

(** [diagramTasks] after the scanning loop. *)
Definition diagramTasks (docFiles : list DocFile) : list Task :=
  flat_map tasksOfFile docFiles.

End Planning.

(** ** The [Map] keyed by file name

    A JavaScript [Map] iterates in the order in which its keys were first
    inserted; setting a key that is present replaces the value in place. *)

Definition JsMap (V : Type) := list (jsstring * V).

Fixpoint map_set {V} (k : jsstring) (v : V) (m : JsMap V) : JsMap V :=
  match m with
  | [] => [(k, v)]
  | (k', v') :: rest =>
      if JS.eqb k' k then (k, v) :: rest else (k', v') :: map_set k v rest
  end.

(** [new Map(entries)] *)
Definition map_of_entries {V} (entries : list (jsstring * V)) : JsMap V :=
  fold_left (fun m e => map_set (fst e) (snd e) m) entries [].

(** [Array.from(m.values())] *)
Definition map_values {V} (m : JsMap V) : list V := List.map snd m.

(** [uniqueTasks] *)
Definition uniqueTasks (diagramTasks : list Task) : list Task :=
  map_values (map_of_entries (List.map (fun t => (filename t, t)) diagramTasks)).

(** The planner: scanning followed by deduplication. *)
Definition plan (path_join : jsstring -> jsstring -> jsstring)
    (options : Options) (docFiles : list DocFile) : list Task :=
  uniqueTasks (diagramTasks path_join options docFiles).

End Renderer.

(* ================================================================== *)
(** * The host: file system, renderer process and console *)
(* ================================================================== *)

(** [fs/promises], [child_process.exec] and [console] are provided by Node.
    They are modelled by an in-memory file system with injected faults and a
    renderer stub, and every call is recorded in a trace. *)

Module Host.

(** A thrown value: [message], and the [stdout] and [stderr] properties that
    [exec] attaches to its errors. *)
Record Error := mkError {
  message : jsstring;
  stdout : option jsstring;
  stderr : option jsstring
}.

Definition fsError (code path : jsstring) : Error :=
  mkError (code ++ lit ": " ++ path) None None.

(** An argument of [console.log] or [console.error]. *)
Inductive Printable :=
| PStr (s : jsstring)
| PErr (e : Error).

Inductive Event :=
| ConsoleLog (args : list Printable)
| ConsoleError (args : list Printable)
| FsAccess (path : jsstring) (ok : bool)
| FsWriteFile (path data : jsstring) (ok : bool)
| ExecAsync (command : jsstring) (ok : bool)
| FsUnlink (path : jsstring) (ok : bool).

(** Paths and the contents of the files they name. *)
Definition World := jsstring -> option jsstring.

Definition emptyWorld : World := fun _ => None.

Definition putFile (p data : jsstring) (w : World) : World :=
  fun q => if JS.eqb q p then Some data else w q.

Definition removeFile (p : jsstring) (w : World) : World :=
  fun q => if JS.eqb q p then None else w q.

(** What the tests would stub: the renderer, from diagram source to image or
    to the error of a non-zero exit, and the paths on which writing or
    deleting fails. *)
Record Stub := mkStub {
  mmdc : jsstring -> Error + jsstring;
  writeFile_fault : jsstring -> option Error;
  unlink_fault : jsstring -> option Error
}.

(** The mutable state of one call of [renderAllMermaidDiagrams]: the world,
    the two counters and what has been observed so far. *)
Record State := mkSt {
  world : World;
  renderedCount : nat;
  skippedCount : nat;
  trace : list Event
}.

Inductive Completion (A : Type) :=
| Normal (a : A)
| Throw (e : Error).
Arguments Normal {A} a.
Arguments Throw {A} e.

(** Computations that read and update the state and may throw. *)
Definition M (A : Type) := State -> Completion A * State.

Definition ret {A} (a : A) : M A := fun s => (Normal a, s).

Definition bind {A B} (m : M A) (k : A -> M B) : M B :=
  fun s =>
    match m s with
    | (Normal a, s') => k a s'
    | (Throw e, s') => (Throw e, s')
    end.

Definition throw {A} (e : Error) : M A := fun s => (Throw e, s).

(** [try { m } catch (e) { h e }] *)
Definition try_catch {A} (m : M A) (h : Error -> M A) : M A :=
  fun s =>
    match m s with
    | (Normal a, s') => (Normal a, s')
    | (Throw e, s') => h e s'
    end.

(** [try { m } finally { f }]: [f] runs however [m] completes; the completion
    of [m] is kept unless [f] throws. *)
Definition try_finally {A} (m : M A) (f : M unit) : M A :=
  fun s =>
    let (r, s') := m s in
    match f s' with
    | (Normal _, s'') => (r, s'')
    | (Throw e, s'') => (Throw e, s'')
    end.

Definition emit (e : Event) : M unit :=
  fun s => (Normal tt,
            mkSt (world s) (renderedCount s) (skippedCount s) (trace s ++ [e])).

Definition setWorld (w : World) : M unit :=
  fun s => (Normal tt, mkSt w (renderedCount s) (skippedCount s) (trace s)).

Definition getWorld : M World := fun s => (Normal (world s), s).

(** [renderedCount++] *)
Definition incr_renderedCount : M unit :=
  fun s => (Normal tt,
            mkSt (world s) (S (renderedCount s)) (skippedCount s) (trace s)).

(** [skippedCount++] *)
Definition incr_skippedCount : M unit :=
  fun s => (Normal tt,
            mkSt (world s) (renderedCount s) (S (skippedCount s)) (trace s)).

Declare Scope host_scope.
Delimit Scope host_scope with host.
Notation "x <- m ;; k" := (bind m (fun x => k))
  (at level 61, m at next level, right associativity) : host_scope.
Notation "m ;; k" := (bind m (fun _ => k))
  (at level 61, right associativity) : host_scope.
Local Open Scope host_scope.

Section Operations.

Variable stub : Stub.

(** [await fs.access(path)] *)
Definition fs_access (path : jsstring) : M unit :=
  w <- getWorld ;;
  match w path with
  | Some _ => emit (FsAccess path true)
  | None => emit (FsAccess path false) ;; throw (fsError (lit "ENOENT") path)
  end.

(** [await fs.writeFile(path, data)] *)
Definition fs_writeFile (path data : jsstring) : M unit :=
  match writeFile_fault stub path with
  | Some e => emit (FsWriteFile path data false) ;; throw e
  | None =>
      w <- getWorld ;;
      setWorld (putFile path data w) ;;
      emit (FsWriteFile path data true)
  end.

(** [await fs.unlink(path)] *)
Definition fs_unlink (path : jsstring) : M unit :=
  match unlink_fault stub path with
  | Some e => emit (FsUnlink path false) ;; throw e
  | None =>
      w <- getWorld ;;
      match w path with
      | None => emit (FsUnlink path false) ;; throw (fsError (lit "ENOENT") path)
      | Some _ =>
          setWorld (removeFile path w) ;;
          emit (FsUnlink path true)
      end
  end.

(** [await execAsync(command)] for an [mmdc] command line: the renderer reads
    the file named after [-i] and, when it succeeds, writes the file named
    after [-o].  The two paths are passed next to the command line instead of
    being parsed back out of it. *)
Definition execAsync (command input output : jsstring) : M unit :=
  w <- getWorld ;;
  match w input with
  | None =>
      emit (ExecAsync command false) ;;
      throw (mkError (lit "Command failed: " ++ command) (Some []) (Some []))
  | Some source =>
      match mmdc stub source with
      | inl e => emit (ExecAsync command false) ;; throw e
      | inr image =>
          setWorld (putFile output image w) ;;
          emit (ExecAsync command true)
      end
  end.

End Operations.

End Host.

(* ================================================================== *)
(** * [renderer.js]: the render pool *)
(* ================================================================== *)

Module Execute.

Import Renderer Host.
Local Open Scope host_scope.

(** A JavaScript value, as far as results of the plugin's functions go; the
    objects are those whose properties are numbers. *)
Inductive JsValue :=
| JsUndefined
| JsNumber (n : nat)
| JsString (s : jsstring)
| JsObject (props : list (jsstring * nat)).

(** [`${n}`] for a non-negative integer. *)
Definition decimal (n : nat) : jsstring :=
  lit (DecimalString.NilZero.string_of_uint (Nat.to_uint n)).

Definition ESC : jsstring := [27%N].

(** [log(message)] *)
Definition log (message : jsstring) : M unit :=
  emit (ConsoleLog [PStr (lit "[Mermaid-Static] " ++ message)]).

(** [success(message)] *)
Definition success (message : jsstring) : M unit :=
  emit (ConsoleLog
          [PStr (ESC ++ lit "[32m[Mermaid-Static] " ++ message
                     ++ ESC ++ lit "[0m")]).

(** [error(message, err)] *)
Definition error (message : jsstring) (err : option Error) : M unit :=
  emit (ConsoleError
          [PStr (ESC ++ lit "[31m[Mermaid-Static] ERROR: " ++ message
                     ++ ESC ++ lit "[0m");
           match err with
           | Some e =>
               match Host.message e with
               | [] => PErr e
               | _ :: _ => PStr (Host.message e)
               end
           | None => PStr []
           end]).

(** [if (out) console.error(out)] *)
Definition console_error_if (out : option jsstring) : M unit :=
  match out with
  | Some ((_ :: _) as text) => emit (ConsoleError [PStr text])
  | _ => ret tt
  end.

Section Pool.

Variable path_join : jsstring -> jsstring -> jsstring.
Variable options : Options.
Variable stub : Stub.

(** [themeConfigPath ? `-c "${themeConfigPath}"` : ''] *)
Definition themeConfigFile : jsstring :=
  match themeConfigPath options with
  | Some ((_ :: _) as p) => lit "-c " ++ [34%N] ++ p ++ [34%N]
  | _ => []
  end.

(** [`-t ${themeName}`] *)
Definition themeNameConfig : jsstring := lit "-t " ++ themeName options.

Definition tempInputFileOf (task : Task) : jsstring :=
  path_join (tempDir options) (lit "temp_" ++ filename task ++ lit ".mmd").

(** The command line given to [execAsync]. *)
Definition commandOf (task : Task) : jsstring :=
  lit "npx mmdc -i " ++ [34%N] ++ tempInputFileOf task ++ [34%N]
    ++ lit " -o " ++ [34%N] ++ outputPath task ++ [34%N]
    ++ lit " " ++ themeConfigFile
    ++ lit " " ++ themeNameConfig
    ++ lit " " ++ join (lit " ") (mmdcArgs options).

(** The function given to [limit] for one task.  The first [try] returns
    from the function when the output exists; [cached] carries that. *)
Definition runTask (task : Task) : M unit :=
  let tempInputFile := tempInputFileOf task in
  cached <-
    try_catch
      (fs_access (outputPath task) ;;
       success (lit "Skipping cached: " ++ filename task) ;;
       incr_skippedCount ;;
       ret true)
      (fun _ =>
         log (lit "Temp file not found, creating: " ++ tempInputFile) ;;
         ret false) ;;
  if cached : bool then ret tt
  else
    fs_writeFile stub tempInputFile (mermaidCode task) ;;
    try_finally
      (try_catch
         (log (lit "Rendering new: " ++ filename task) ;;
          execAsync stub (commandOf task) tempInputFile (outputPath task) ;;
          success (lit "Finished rendering: " ++ filename task) ;;
          incr_renderedCount)
         (fun err =>
            error (lit "Failed to render " ++ filename task) (Some err) ;;
            console_error_if (stdout err) ;;
            console_error_if (stderr err)))
      (try_catch
         (fs_unlink stub tempInputFile)
         (fun unlinkErr =>
            error (lit "Failed to delete temp file: " ++ tempInputFile)
                  (Some unlinkErr))).

(** The promise of one task, settled: [None] when fulfilled, the reason when
    rejected. *)
Definition settle (m : M unit) : M (option Error) :=
  fun s =>
    match m s with
    | (Normal _, s') => (Normal None, s')
    | (Throw e, s') => (Normal (Some e), s')
    end.

(** The pool drains: every task given to [limit] is run, whatever the others
    did.  Tasks are taken in admission order and each one runs to its end
    before the next starts, the schedule of a pool of size one.  Module
    [Interleaved] below has the pool under every schedule. *)
Fixpoint runPool (tasks : list Task) : M (list (option Error)) :=
  match tasks with
  | [] => ret []
  | task :: rest =>
      r <- settle (runTask task) ;;
      rs <- runPool rest ;;
      ret (r :: rs)
  end.

(** [await Promise.all(renderPromises)] *)
Fixpoint promise_all (settled : list (option Error)) : M unit :=
  match settled with
  | [] => ret tt
  | Some e :: _ => throw e
  | None :: rest => promise_all rest
  end.

(** From [const renderPromises = []] to the end of
    [renderAllMermaidDiagrams]: the spec's [execute].  The function has no
    [return] statement, its promise is fulfilled with [undefined]. *)
Definition execute (uniqueTasks : list Task) : M JsValue :=
  settled <- runPool uniqueTasks ;;
  promise_all settled ;;
  success (lit "--- Mermaid Theme Build Finished ('" ++ themeName options
               ++ lit "') ---") ;;
  s <- (fun s => (Normal s, s)) ;;
  success (lit "Rendered: " ++ decimal (renderedCount s) ++ lit " new") ;;
  success (lit "Skipped:  " ++ decimal (skippedCount s) ++ lit " cached") ;;
  log (lit "------------------------------------") ;;
  ret JsUndefined.

(** [renderAllMermaidDiagrams(options)], given the content files that
    [globby] and [fs.readFile] deliver.  The creation of the output directory
    and the console output of the scanning phase are left out. *)
Definition renderAllMermaidDiagrams (docFiles : list DocFile) : M JsValue :=
  execute (plan path_join options docFiles).

End Pool.

(** The state in which a call starts. *)
Definition initial (w : World) : State := mkSt w 0 0 [].

End Execute.

(* ================================================================== *)
(** * [renderer.js]: the render pool, task by task and [await] by [await] *)
(* ================================================================== *)

(** The function given to [limit] is asynchronous: it yields at each of its
    four [await]s, and what the tasks do to the host is interleaved in the
    order in which their awaited operations complete.  [p-limit] decides
    which tasks have been started; that only restricts the orders: a task
    that has not been started stands before its first [await] like one that
    has.  [await Promise.all(renderPromises)] resumes the caller when every
    task is fulfilled, or as soon as one is rejected, whatever the others
    are doing then.

    A schedule is the list of the tasks, by position, in the order in which
    their awaited operations complete.  An awaited operation and the code
    that follows it up to the next [await] are one step: what the
    operation does to the files is taken to happen when it completes.
    [options.concurrency] is not interpreted: every order is a schedule,
    also those that a pool of that size would not produce, so that what
    holds for every schedule holds for the pool of any size. *)

Module Interleaved.

Import Renderer Host Execute.
Local Open Scope host_scope.

(** The [await] at which a task stands. *)
Inductive Phase :=
| Access
| Write
| Exec
| Unlink.

Inductive Status :=
| Pending (phase : Phase)
| Fulfilled
| Rejected (reason : Error).

Definition Thread := (Task * Status)%type.

Section Pool.

Variable path_join : jsstring -> jsstring -> jsstring.
Variable options : Options.
Variable stub : Stub.

(** One step of the function given to [limit]: the operation awaited at
    [phase] completes and the task runs on to its next [await], or to its
    end. *)
Definition stepTask (task : Task) (phase : Phase) : M Status :=
  let tempInputFile := tempInputFileOf path_join options task in
  match phase with
  | Access =>
      try_catch
        (fs_access (outputPath task) ;;
         success (lit "Skipping cached: " ++ filename task) ;;
         incr_skippedCount ;;
         ret Fulfilled)
        (fun _ =>
           log (lit "Temp file not found, creating: " ++ tempInputFile) ;;
           ret (Pending Write))
  | Write =>
      try_catch
        (fs_writeFile stub tempInputFile (mermaidCode task) ;;
         log (lit "Rendering new: " ++ filename task) ;;
         ret (Pending Exec))
        (fun e => ret (Rejected e))
  | Exec =>
      try_catch
        (execAsync stub (commandOf path_join options task) tempInputFile
                   (outputPath task) ;;
         success (lit "Finished rendering: " ++ filename task) ;;
         incr_renderedCount)
        (fun err =>
           error (lit "Failed to render " ++ filename task) (Some err) ;;
           console_error_if (stdout err) ;;
           console_error_if (stderr err)) ;;
      ret (Pending Unlink)
  | Unlink =>
      try_catch
        (fs_unlink stub tempInputFile)
        (fun unlinkErr =>
           error (lit "Failed to delete temp file: " ++ tempInputFile)
                 (Some unlinkErr)) ;;
      ret Fulfilled
  end.

Fixpoint replaceAt (i : nat) (thread : Thread) (threads : list Thread)
  : list Thread :=
  match threads, i with
  | [], _ => []
  | _ :: rest, O => thread :: rest
  | t :: rest, S i' => t :: replaceAt i' thread rest
  end.

(** [renderPromises] when the loop over [uniqueTasks] ends: no task has
    completed an operation yet. *)
Definition start (uniqueTasks : list Task) : list Thread :=
  List.map (fun task => (task, Pending Access)) uniqueTasks.

(** The pool under a schedule, up to the moment at which [Promise.all]
    settles if it does: the reason of the first rejection, if any, and the
    tasks as they stand then.  A position that names no task, or a task
    that has ended, is passed over. *)
Fixpoint interleave (schedule : list nat) (threads : list Thread)
  : M (option Error * list Thread) :=
  match schedule with
  | [] => ret (None, threads)
  | i :: rest =>
      match nth_error threads i with
      | Some (task, Pending phase) =>
          status <- stepTask task phase ;;
          match status with
          | Rejected reason =>
              ret (Some reason, replaceAt i (task, status) threads)
          | _ => interleave rest (replaceAt i (task, status) threads)
          end
      | _ => interleave rest threads
      end
  end.

(** The tasks that were left behind by a rejected [Promise.all] go on
    under a schedule; nobody looks at their promises any more. *)
Fixpoint background (schedule : list nat) (threads : list Thread)
  : M (list Thread) :=
  match schedule with
  | [] => ret threads
  | i :: rest =>
      match nth_error threads i with
      | Some (task, Pending phase) =>
          status <- stepTask task phase ;;
          background rest (replaceAt i (task, status) threads)
      | _ => background rest threads
      end
  end.

(** Every task has four operations to await at most: after this schedule
    none is pending. *)
Definition completion (n : nat) : list nat :=
  flat_map (fun i => [i; i; i; i]) (seq 0 n).

(** From [const renderPromises = []] to the end of
    [renderAllMermaidDiagrams] under a schedule, which is followed as far
    as it goes; the tasks that it leaves pending then complete one after
    the other.  The result is the reason of the rejection, if any, and the
    tasks as they stand when the promise of the function settles. *)
Definition runPass (schedule : list nat) (uniqueTasks : list Task)
  : M (option Error * list Thread) :=
  settled <- interleave (schedule ++ completion (List.length uniqueTasks))
                        (start uniqueTasks) ;;
  match fst settled with
  | Some _ => ret settled
  | None =>
      success (lit "--- Mermaid Theme Build Finished ('" ++ themeName options
                   ++ lit "') ---") ;;
      s <- (fun s => (Normal s, s)) ;;
      success (lit "Rendered: " ++ decimal (renderedCount s) ++ lit " new") ;;
      success (lit "Skipped:  " ++ decimal (skippedCount s) ++ lit " cached") ;;
      log (lit "------------------------------------") ;;
      ret settled
  end.

(** The promise of that part of the function. *)
Definition execute (schedule : list nat) (uniqueTasks : list Task)
  : M JsValue :=
  settled <- runPass schedule uniqueTasks ;;
  match fst settled with
  | Some reason => throw reason
  | None => ret JsUndefined
  end.

(** [renderAllMermaidDiagrams(options)] under a schedule, given the content
    files that [globby] and [fs.readFile] deliver. *)
Definition renderAllMermaidDiagrams (schedule : list nat)
    (docFiles : list DocFile) : M JsValue :=
  execute schedule (plan path_join options docFiles).

End Pool.

End Interleaved.

(* ================================================================== *)
(** * [store.js] and [remark.js]: the markup transformer *)
(* ================================================================== *)

Module Store.

Record OutputSuffixes := mkSuffixes {
  light : jsstring;
  dark : jsstring
}.

(** [globalStore.options] *)
Record StoreOptions := mkStore {
  publicDir : jsstring;
  defaultLocale : jsstring;
  outputFormat : jsstring;
  outputSuffixes : OutputSuffixes;
  renderDualThemes : bool;
  defaultThemeSuffix : option jsstring
}.

(** The fallbacks of [store.js]. *)
Definition fallbacks : StoreOptions :=
  mkStore (lit "/img/diagrams") (lit "en") (lit "svg")
          (mkSuffixes (lit "-light") (lit "-dark")) true None.

End Store.

Module Remark.

Import Patterns Store.

(** [createHash(str)] of [remark.js] *)
Definition createHash (str : jsstring) : jsstring :=
  substring0 10 (Crypto.md5_hex str).

(** [m && m[1] ? m[1].trim() : null] *)
Definition field (m : option jsstring) : option jsstring :=
  match m with
  | Some ((_ :: _) as capture) => Some (trim capture)
  | _ => None
  end.

(** What the transformer reads from the header of a code block. *)
Record Metadata := mkMetadata {
  prerenderFalse : bool;
  md_id : option jsstring;
  md_alt : option jsstring;
  md_caption : option jsstring;
  md_descriptionId : option jsstring;
  md_width : option jsstring
}.

Definition metadataOf (metadataContent : jsstring) : Metadata :=
  mkMetadata (prerenderRegex_test metadataContent)
             (field (idRegex_exec metadataContent))
             (field (altRegex_exec metadataContent))
             (field (captionRegex_exec metadataContent))
             (field (descriptionIdRegex_exec metadataContent))
             (field (widthRegex_exec metadataContent)).

Definition emptyMetadata : Metadata :=
  mkMetadata false None None None None None.

(** [value.replace(metadataBlockRegex, '').trim()] *)
Definition mermaidCodeOf (value : jsstring) : jsstring :=
  trim (metadataBlockRegex_remove value).

(** Header and body of a code block: the spec's [extract]. *)
Definition extract (value : jsstring) : Metadata * jsstring :=
  (metadataOf (metadataContent_of value), mermaidCodeOf value).

(** The [let id] statement. *)
Definition idOf (value : jsstring) : jsstring :=
  match idRegex_exec (metadataContent_of value) with
  | Some ((_ :: _) as capture) => trim capture
  | _ => createHash (mermaidCodeOf value)
  end.

(** A node of the syntax tree, as far as the transformer builds or reads
    one: a code block, a text, an [mdxJsxFlowElement]. *)
Definition Attribute := (jsstring * jsstring)%type.

#[local] Set Warnings "-register-all".

Inductive Node :=
| Code (lang value : jsstring)
| Text (value : jsstring)
| Jsx (name : jsstring) (attributes : list Attribute) (children : list Node).

(** [`${x}`] for a value that may be [null] *)
Definition template (x : option jsstring) : jsstring :=
  match x with
  | Some s => s
  | None => lit "null"
  end.

(** [publicDir.replace(/\/$/, '')]: one trailing slash is removed. *)
Definition stripTrailingSlash (s : jsstring) : jsstring :=
  match rev s with
  | c :: r => if (c =? 47)%N then rev r else s
  | [] => s
  end.

Section Transformer.

Variable store : StoreOptions.

(** [process.env.NODE_ENV === 'production'] *)
Variable production : bool.

Definition localeOf (filePath : jsstring) : jsstring :=
  match localeRegex_exec filePath with
  | Some l => l
  | None => defaultLocale store
  end.

(** [`${id}-${locale}${suffix}.${outputFormat}`] *)
Definition filenameOf (id locale suffix : jsstring) : jsstring :=
  id ++ lit "-" ++ locale ++ suffix ++ lit "." ++ outputFormat store.

Definition srcOf (filename : jsstring) : jsstring :=
  stripTrailingSlash (publicDir store) ++ lit "/" ++ filename.

Definition imgNode (width : option jsstring) (className : option jsstring)
    (src : jsstring) : Node :=
  Jsx (lit "img")
      ([(lit "width", orElse width (lit "auto"))]
         ++ match className with
            | Some c => [(lit "className", c)]
            | None => []
            end
         ++ [(lit "src", src); (lit "alt", [])])
      [].

Definition childrenNodes (md : Metadata) (id mermaidCode filePath : jsstring)
  : list Node :=
  if production then
    let locale := localeOf filePath in
    if renderDualThemes store then
      [imgNode (md_width md) (Some (lit "mermaid-light"))
               (srcOf (filenameOf id locale (light (outputSuffixes store))));
       imgNode (md_width md) (Some (lit "mermaid-dark"))
               (srcOf (filenameOf id locale (dark (outputSuffixes store))))]
    else
      [imgNode (md_width md) None
               (srcOf (filenameOf id locale
                                  (template (defaultThemeSuffix store))))]
  else [Code (lit "mermaid") mermaidCode].

Definition figureNode (md : Metadata) (id mermaidCode filePath : jsstring)
  : Node :=
  let caption := md_caption md in
  Jsx (lit "figure")
      ([(lit "id", id);
        (lit "className", lit "static-mermaid-figure");
        (lit "role", lit "img");
        (lit "aria-label",
         match md_alt md with
         | Some alt => alt
         | None => lit "Mermaid diagram"
         end)]
         ++ (if truthy caption
             then [(lit "aria-labelledby", id ++ lit "-caption")] else [])
         ++ match md_descriptionId md with
            | Some d => [(lit "aria-describedby", d)]
            | None => []
            end)
      (childrenNodes md id mermaidCode filePath
         ++ (if truthy caption
             then [Jsx (lit "figcaption")
                       [(lit "id", id ++ lit "-caption")]
                       [Text (template caption)]]
             else [])).

(** The visitor on one [code] node of the file at [filePath]: the node by
    which it is replaced, or the node itself with its value updated. *)
Definition visitCode (filePath : jsstring) (lang value : jsstring) : Node :=
  if negb (JS.eqb lang (lit "mermaid")) then Code lang value
  else
    let metadataContent := metadataContent_of value in
    if prerenderRegex_test metadataContent
    then Code lang (mermaidCodeOf value)
    else
      figureNode (metadataOf metadataContent) (idOf value)
                 (mermaidCodeOf value) filePath.

End Transformer.

End Remark.

(* ================================================================== *)
(** * [index.js]: the options handed to the two collaborators *)
(* ================================================================== *)

Module Index.

Import Store.

(** [mergedOptions] *)
Record PluginOptions := mkPluginOptions {
  contentPaths : list jsstring;
  outputDir : jsstring;
  configFile : jsstring;
  outputFormat : jsstring;
  concurrency : nat;
  mmdcArgs : list jsstring;
  outputSuffixes : OutputSuffixes
}.

(** [defaults], on a host with [cpus] processors. *)
Definition defaults (cpus : nat) : PluginOptions :=
  mkPluginOptions [lit "docs"; lit "blog"] (lit "img/diagrams")
                  (lit "mermaid.config.json") (lit "svg")
                  (match cpus with O => 4 | _ => cpus end)
                  [lit "-b"; lit "transparent"]
                  (mkSuffixes (lit "-light") (lit "-dark")).

(** What the plugin reads from [context]. *)
Record Context := mkContext {
  siteDir : jsstring;
  baseUrl : jsstring;
  i18n_defaultLocale : jsstring;
  (** [colorMode.disableSwitch === true] *)
  colorMode_disableSwitch : bool;
  colorMode_defaultMode : option jsstring;
  mermaid_theme_light : option jsstring;
  mermaid_theme_dark : option jsstring
}.

Definition defaultMode (ctx : Context) : jsstring :=
  orElse (colorMode_defaultMode ctx) (lit "light").

Definition lightTheme (ctx : Context) : jsstring :=
  orElse (mermaid_theme_light ctx) (lit "neutral").

Definition darkTheme (ctx : Context) : jsstring :=
  orElse (mermaid_theme_dark ctx) (lit "dark").

Definition isDefaultDark (ctx : Context) : bool :=
  JS.eqb (defaultMode ctx) (lit "dark").

(** An entry of [themesToRender]. *)
Record Theme := mkTheme {
  themeName : jsstring;
  outputSuffix : jsstring
}.

Definition defaultThemeSuffix (merged : PluginOptions) (ctx : Context)
  : option jsstring :=
  if colorMode_disableSwitch ctx then
    Some (if isDefaultDark ctx then dark (outputSuffixes merged)
          else light (outputSuffixes merged))
  else None.

Definition themesToRender (merged : PluginOptions) (ctx : Context)
  : list Theme :=
  if colorMode_disableSwitch ctx then
    [mkTheme (if isDefaultDark ctx then darkTheme ctx else lightTheme ctx)
             (if isDefaultDark ctx then dark (outputSuffixes merged)
              else light (outputSuffixes merged))]
  else
    [mkTheme (lightTheme ctx) (light (outputSuffixes merged));
     mkTheme (darkTheme ctx) (dark (outputSuffixes merged))].

Section Resolution.

Variable path_join : jsstring -> jsstring -> jsstring.
Variable merged : PluginOptions.
Variable ctx : Context.

(** The argument of [globalStore.set]; it overwrites every fallback. *)
Definition storeOptions : StoreOptions :=
  mkStore (path_join (baseUrl ctx) (outputDir merged))
          (i18n_defaultLocale ctx)
          (outputFormat merged)
          (outputSuffixes merged)
          (negb (colorMode_disableSwitch ctx))
          (defaultThemeSuffix merged ctx).

(** The options of one call of [renderAllMermaidDiagrams]. *)
Definition renderOptions (themeConfigPath : option jsstring)
    (pluginTempDir : jsstring) (theme : Theme) : Renderer.Options :=
  Renderer.mkOptions
    (siteDir ctx)
    (contentPaths merged)
    (path_join (path_join (siteDir ctx) (lit "static")) (outputDir merged))
    themeConfigPath
    (i18n_defaultLocale ctx)
    (outputFormat merged)
    (concurrency merged)
    (mmdcArgs merged)
    pluginTempDir
    (themeName theme)
    (outputSuffix theme).

End Resolution.

End Index.

(* ================================================================== *)
(** * [index.js]: the plugin's [loadContent] and [getClientModules] *)
(* ================================================================== *)

Module Plugin.

Import Host Execute.
Local Open Scope host_scope.

(** The process: the host and [process.env.MERMAID_STATIC_RENDERED], [true]
    when it is the string ['true']. *)
Record Process := mkProcess {
  host : State;
  MERMAID_STATIC_RENDERED : bool
}.

Section LoadContent.

Variable path_join : jsstring -> jsstring -> jsstring.
Variable stub : Stub.

(** [process.env.NODE_ENV === 'production'] *)
Variable production : bool.

Variable merged : Index.PluginOptions.
Variable ctx : Index.Context.

(** [siteConfig.themeConfig?.mermaid?.config] when it is an object: what
    [JSON.stringify] makes of it, a text or the error that it throws. *)
Variable mmdcConfigObject : option (Error + jsstring).

Variable pluginTempDir : jsstring.

(** What [globby] and [fs.readFile] deliver to a pass. *)
Variable docFiles : list Renderer.DocFile.

(** [getClientModules()], [dirname] being [__dirname]. *)
Definition getClientModules (dirname : jsstring) : list jsstring :=
  if Index.colorMode_disableSwitch ctx then []
  else [path_join dirname (lit "mermaid-styles.css")].

Definition absoluteConfigFile : jsstring :=
  path_join (Index.siteDir ctx) (Index.configFile merged).

(** The path of the temporary configuration written for [configJson]. *)
Definition tempConfigPath (configJson : jsstring) : jsstring :=
  path_join pluginTempDir
            (lit "mermaid-temp-config-" ++ Crypto.md5_hex configJson
               ++ lit ".json").

(** The first [try] of [loadContent]: [themeConfigPath] and
    [didCreateTempConfig] after it. *)
Definition resolveThemeConfig : M (option jsstring * bool) :=
  try_catch
    (fs_access absoluteConfigFile ;;
     ret (Some absoluteConfigFile, false))
    (fun _ =>
       match mmdcConfigObject with
       | Some stringified =>
           try_catch
             (configJson <- match stringified with
                            | inl e => throw e
                            | inr json => ret json
                            end ;;
              fs_writeFile stub (tempConfigPath configJson) configJson ;;
              ret (Some (tempConfigPath configJson), true))
             (fun err =>
                emit (ConsoleError
                        [PStr (lit "[Mermaid-Static] Failed to write temporary mermaid config.");
                         PErr err]) ;;
                ret (None, false))
       | None => ret (None, false)
       end).

(** One call of [renderAllMermaidDiagrams]: its counters are its own. *)
Definition pass (options : Renderer.Options) : M unit :=
  fun s =>
    let (r, s') :=
      renderAllMermaidDiagrams path_join options stub docFiles
                               (mkSt (world s) 0 0 (trace s)) in
    (match r with
     | Normal _ => Normal tt
     | Throw e => Throw e
     end,
     mkSt (world s') (renderedCount s) (skippedCount s) (trace s')).

(** The loop over [themesToRender]. *)
Fixpoint renderThemes (themeConfigPath : option jsstring)
    (themes : list Index.Theme) : M unit :=
  match themes with
  | [] => ret tt
  | theme :: rest =>
      emit (ConsoleLog
              [PStr (lit "[Mermaid-Static] Rendering theme ('"
                       ++ Index.themeName theme ++ lit "')...")]) ;;
      pass (Index.renderOptions path_join merged ctx themeConfigPath
                                pluginTempDir theme) ;;
      renderThemes themeConfigPath rest
  end.

(** The [finally] block.  In Node, [console.warn] is [console.error]. *)
Definition removeTempConfig (themeConfigPath : option jsstring)
    (didCreateTempConfig : bool) : M unit :=
  match didCreateTempConfig, themeConfigPath with
  | true, Some ((_ :: _) as p) =>
      try_catch
        (fs_unlink stub p)
        (fun unlinkErr =>
           emit (ConsoleError
                   [PStr (lit "[Mermaid-Static] Failed to delete temp config file: "
                            ++ p);
                    PErr unlinkErr]))
  | _, _ => ret tt
  end.

(** [loadContent] from the resolution of the configuration to the end of
    the [try] statement around the passes. *)
Definition renderAll : M unit :=
  resolved <- resolveThemeConfig ;;
  try_finally
    (renderThemes (fst resolved) (Index.themesToRender merged ctx))
    (removeTempConfig (fst resolved) (snd resolved)).

(** [loadContent()] *)
Definition loadContent (p : Process) : Completion unit * Process :=
  if negb production then
    (Normal tt,
     mkProcess
       (snd (emit (ConsoleLog
                     [PStr (lit "[Mermaid-Static] Development mode detected, skipping diagram rendering.")])
                  (host p)))
       (MERMAID_STATIC_RENDERED p))
  else if MERMAID_STATIC_RENDERED p then
    (Normal tt,
     mkProcess
       (snd (emit (ConsoleLog
                     [PStr (lit "[Mermaid-Static] Diagrams for all locales already rendered, skipping.")])
                  (host p)))
       (MERMAID_STATIC_RENDERED p))
  else
    match renderAll (host p) with
    | (Normal _, s) => (Normal tt, mkProcess s true)
    | (Throw e, s) => (Throw e, mkProcess s (MERMAID_STATIC_RENDERED p))
    end.

End LoadContent.

End Plugin.

(* ================================================================== *)
(** * [index.js]: [loadContent] over the interleaved pool *)
(* ================================================================== *)

(** [loadContent] awaits one pass after the other.  When a pass is
    rejected, the [finally] block runs while tasks of that pass may still
    be pending: they go on while [await fs.unlink(themeConfigPath)] waits,
    before the deletion and after it.  When the block has nothing to await,
    [loadContent] is rejected at once. *)

Module InterleavedPlugin.

Import Host Execute Plugin.
Local Open Scope host_scope.

(** What a rejected pass leaves: the reason, and the tasks as they stand,
    with the options of their pass. *)
Record Unsettled := mkUnsettled {
  reason : Error;
  passOptions : Renderer.Options;
  threads : list Interleaved.Thread
}.

Section LoadContent.

Variable path_join : jsstring -> jsstring -> jsstring.
Variable stub : Stub.

(** [process.env.NODE_ENV === 'production'] *)
Variable production : bool.

Variable merged : Index.PluginOptions.
Variable ctx : Index.Context.
Variable mmdcConfigObject : option (Error + jsstring).
Variable pluginTempDir : jsstring.
Variable docFiles : list Renderer.DocFile.

(** The schedules of the passes, in the order of the passes, and those of
    the tasks left pending by a rejected pass, while the deletion of the
    temporary configuration is awaited and once it is done. *)
Variable schedules : list (list nat).
Variable during : list nat.
Variable afterwards : list nat.

(** [let renderedCount = 0; let skippedCount = 0;]: the counters of a call
    of [renderAllMermaidDiagrams] are its own. *)
Definition ownCounters {A : Type} (m : M A) : M A :=
  fun s =>
    let (r, s') := m (mkSt (world s) 0 0 (trace s)) in
    (r, mkSt (world s') (renderedCount s) (skippedCount s) (trace s')).

(** One call of [renderAllMermaidDiagrams], up to the moment at which its
    promise settles. *)
Definition pass (options : Renderer.Options) (schedule : list nat)
  : M (option Error * list Interleaved.Thread) :=
  ownCounters
    (Interleaved.runPass path_join options stub schedule
                         (Renderer.plan path_join options docFiles)).

(** The loop over [themesToRender]: it ends at the first pass that is
    rejected. *)
Fixpoint renderThemes (themeConfigPath : option jsstring)
    (themes : list Index.Theme) (schedules : list (list nat))
  : M (option Unsettled) :=
  match themes with
  | [] => ret None
  | theme :: rest =>
      let options := Index.renderOptions path_join merged ctx themeConfigPath
                                         pluginTempDir theme in
      emit (ConsoleLog
              [PStr (lit "[Mermaid-Static] Rendering theme ('"
                       ++ Index.themeName theme ++ lit "')...")]) ;;
      settled <- pass options (hd [] schedules) ;;
      match fst settled with
      | Some e => ret (Some (mkUnsettled e options (snd settled)))
      | None => renderThemes themeConfigPath rest (tl schedules)
      end
  end.

(** The pending tasks of a rejected pass go on. *)
Definition goOn (schedule : list nat) (unsettled : Unsettled) : M Unsettled :=
  threads' <- ownCounters
                (Interleaved.background path_join (passOptions unsettled) stub
                                        schedule (threads unsettled)) ;;
  ret (mkUnsettled (reason unsettled) (passOptions unsettled) threads').

(** [loadContent] from the resolution of the configuration to the end of
    the [try] statement around the passes. *)
Definition renderAll : M unit :=
  resolved <- resolveThemeConfig path_join stub merged ctx mmdcConfigObject
                                 pluginTempDir ;;
  outcome <- renderThemes (fst resolved) (Index.themesToRender merged ctx)
                          schedules ;;
  match outcome with
  | None => removeTempConfig stub (fst resolved) (snd resolved)
  | Some unsettled =>
      match snd resolved, fst resolved with
      | true, Some (_ :: _) =>
          unsettled' <- goOn during unsettled ;;
          removeTempConfig stub (fst resolved) (snd resolved) ;;
          goOn afterwards unsettled' ;;
          throw (reason unsettled)
      | _, _ => throw (reason unsettled)
      end
  end.

(** [loadContent()] *)
Definition loadContent (p : Process) : Completion unit * Process :=
  if negb production then
    (Normal tt,
     mkProcess
       (snd (emit (ConsoleLog
                     [PStr (lit "[Mermaid-Static] Development mode detected, skipping diagram rendering.")])
                  (host p)))
       (MERMAID_STATIC_RENDERED p))
  else if MERMAID_STATIC_RENDERED p then
    (Normal tt,
     mkProcess
       (snd (emit (ConsoleLog
                     [PStr (lit "[Mermaid-Static] Diagrams for all locales already rendered, skipping.")])
                  (host p)))
       (MERMAID_STATIC_RENDERED p))
  else
    match renderAll (host p) with
    | (Normal _, s) => (Normal tt, mkProcess s true)
    | (Throw e, s) => (Throw e, mkProcess s (MERMAID_STATIC_RENDERED p))
    end.

End LoadContent.

End InterleavedPlugin.

(* ================================================================== *)
(** * [remark.js]: the traversal of the tree and the replacement *)
(* ================================================================== *)

(** [visit(tree, 'code', visitor)] of [unist-util-visit] calls the visitor
    on every node of type [code], in depth-first order, parents before
    children, with the index of the node among the children of its parent
    and with that parent.  The transformer keeps the parent of each node to
    replace and changes its [children] after the traversal; a parent is
    referred to here by the indices that lead to it from the root.  A node
    with children is a [Jsx], whatever its type, which its [name] holds. *)

Module Transform.

Import Patterns Store Remark.

Definition Path := list nat.

(** An entry of [tasks]. *)
Record Replacement := mkReplacement {
  parent : Path;
  index : nat;
  newNode : Node
}.

Section Transformer.

Variable store : StoreOptions.
Variable production : bool.

(** [file.path] *)
Variable filePath : jsstring.

(** The visitor on a [code] node: the node after the call, whose [value] it
    may have updated, and the node that is to replace it, if any. *)
Definition visitor (lang value : jsstring) : Node * option Node :=
  if negb (JS.eqb lang (lit "mermaid")) then (Code lang value, None)
  else
    let metadataContent := metadataContent_of value in
    if prerenderRegex_test metadataContent
    then (Code lang (mermaidCodeOf value), None)
    else
      (Code lang value,
       Some (figureNode store production (metadataOf metadataContent)
                        (idOf value) (mermaidCodeOf value) filePath)).

(** The children of a parent at [here], from the index [i] on: the visitor
    is called on a [code] node, [visit] descends into a node with
    children. *)
Fixpoint visitChildren (visit : Path -> Node -> Node * list Replacement)
    (here : Path) (i : nat) (children : list Node)
  : list Node * list Replacement :=
  match children with
  | [] => ([], [])
  | c :: rest =>
      let (c', pushed) :=
        match c with
        | Code lang value =>
            let (node', newNode) := visitor lang value in
            (node',
             match newNode with
             | Some n => [mkReplacement here i n]
             | None => []
             end)
        | Text _ => (c, [])
        | Jsx _ _ _ => visit (here ++ [i]) c
        end in
      let (rest', pushed') := visitChildren visit here (S i) rest in
      (c' :: rest', pushed ++ pushed')
  end.

(** The traversal below the node at [here]: the tree after it and the tasks
    pushed, in order. *)
Fixpoint visit (here : Path) (tree : Node) {struct tree}
  : Node * list Replacement :=
  match tree with
  | Jsx name attributes children =>
      let (children', pushed) := visitChildren visit here 0 children in
      (Jsx name attributes children', pushed)
  | _ => (tree, [])
  end.

(** [children.splice(index, 1, newNode)] *)
Definition splice (index : nat) (newNode : Node) (children : list Node)
  : list Node :=
  firstn index children ++ newNode :: skipn (S index) children.

Fixpoint updateAt (i : nat) (f : Node -> Node) (children : list Node)
  : list Node :=
  match children, i with
  | [], _ => []
  | c :: rest, O => f c :: rest
  | c :: rest, S i' => c :: updateAt i' f rest
  end.

(** [task.parent.children.splice(task.index, 1, task.newNode)] in the tree
    in which the parent lies at [path]. *)
Fixpoint replace (path : Path) (index : nat) (newNode : Node) (tree : Node)
  : Node :=
  match tree with
  | Jsx name attributes children =>
      match path with
      | [] => Jsx name attributes (splice index newNode children)
      | i :: path' =>
          Jsx name attributes
              (updateAt i (replace path' index newNode) children)
      end
  | _ => tree
  end.

(** The transformer [(tree, file) => ...]: the tree after the call.  A
    [code] node that is the root is visited without parent; when the
    visitor pushes a task for it, the loop throws a [TypeError], which is
    [None]. *)
Definition transformer (tree : Node) : option Node :=
  match tree with
  | Code lang value =>
      match visitor lang value with
      | (node', None) => Some node'
      | (_, Some _) => None
      end
  | Text _ => Some tree
  | Jsx _ _ _ =>
      let (tree', tasks) := visit [] tree in
      Some (fold_left
              (fun t task => replace (parent task) (index task) (newNode task) t)
              (rev tasks) tree')
  end.

End Transformer.

End Transform.

(* ================================================================== *)
(** * Vocabulary of the properties *)
(* ================================================================== *)

Module Vocabulary.

(** A string that does not begin with white space. *)
Definition noLeadingSpace (s : jsstring) : Prop :=
  match s with
  | [] => True
  | c :: _ => isWhiteSpace c = false
  end.

(** The text shape that the patterns of a key and a value accept. *)
Definition keyThenValue (key value s : jsstring) : Prop :=
  exists a w b,
    s = a ++ key ++ w ++ value ++ b
    /\ Forall (fun c => isWhiteSpace c = true) w.

(** A line feed, and the text made of the given lines. *)
Definition nl : jsstring := [10%N].

Definition unlines (ls : list string) : jsstring :=
  join nl (List.map lit ls).

(** A lower-case hexadecimal digit. *)
Definition isHexDigit (c : char) : bool :=
  ((48 <=? c)%N && (c <=? 57)%N) || ((97 <=? c)%N && (c <=? 102)%N).


(** The header of a block gives no identity. *)
Definition noExplicitId (block : jsstring) : Prop :=
  Patterns.idRegex_exec (Patterns.metadataContent_of block) = None
  \/ Patterns.idRegex_exec (Patterns.metadataContent_of block) = Some [].

(** Sample inputs: a [path.join] for paths that need no normalisation, and
    the options of a pass with the empty suffix. *)
Definition joinWithSlash (a b : jsstring) : jsstring := a ++ lit "/" ++ b.

Definition sampleOptions : Renderer.Options :=
  Renderer.mkOptions (lit "/site") [lit "docs"] (lit "/site/static/img/diagrams")
                     None (lit "en") (lit "svg") 2 [lit "-b"; lit "transparent"]
                     (lit "/tmp/docusaurus-plugin-mermaid-static")
                     (lit "neutral") [].

(** The source text of a fenced code block with the info string [mermaid]
    and the content [value]: what the scanner's pattern meets in the file
    where the markdown parser reports a [code] node with that value. *)
Definition fencedBlock (value : jsstring) : jsstring :=
  Patterns.fenceMermaid ++ nl ++ value ++ nl ++ Patterns.fence.

(** The value of the first attribute called [name]. *)
Fixpoint attribute (name : jsstring) (attrs : list Remark.Attribute)
  : list jsstring :=
  match attrs with
  | [] => []
  | (n, v) :: rest => if JS.eqb n name then [v] else attribute name rest
  end.

(** The [src] of the images directly under a node. *)
Definition imageSources (node : Remark.Node) : list jsstring :=
  match node with
  | Remark.Jsx _ _ children =>
      flat_map (fun child =>
                  match child with
                  | Remark.Jsx name attrs _ =>
                      if JS.eqb name (lit "img")
                      then attribute (lit "src") attrs else []
                  | _ => []
                  end)
               children
  | _ => []
  end.

(** A site with the colour mode switch disabled, the light theme being the
    default one: a single pass with the suffix [-light]. *)
Definition sampleContext : Index.Context :=
  Index.mkContext (lit "/site") (lit "/base") (lit "en") true None None None.

(** The distinct elements of a list in the order of their first
    occurrences, for an equality test [eqb]. *)
Fixpoint distinct {A} (eqb : A -> A -> bool) (l : list A) : list A :=
  match l with
  | [] => []
  | x :: rest => x :: filter (fun y => negb (eqb x y)) (distinct eqb rest)
  end.

(** The value that the last entry with key [k] gives. *)
Fixpoint lastEntry {V} (k : jsstring) (entries : list (jsstring * V))
  : option V :=
  match entries with
  | [] => None
  | (k', v) :: rest =>
      match lastEntry k rest with
      | Some v' => Some v'
      | None => if JS.eqb k' k then Some v else None
      end
  end.

(** [m.get(k)] *)
Fixpoint map_get {V} (k : jsstring) (m : Renderer.JsMap V) : option V :=
  match m with
  | [] => None
  | (k', v) :: rest => if JS.eqb k' k then Some v else map_get k rest
  end.

(** Identity, locale and theme variant of a task of a pass. *)
Definition Triple := (jsstring * jsstring * jsstring)%type.

Definition tripleOf (options : Renderer.Options) (t : Renderer.Task) : Triple :=
  (Renderer.id t, Renderer.locale t, Renderer.themeName options).

Definition tripleEqb (a b : Triple) : bool :=
  JS.eqb (fst (fst a)) (fst (fst b))
  && JS.eqb (snd (fst a)) (snd (fst b))
  && JS.eqb (snd a) (snd b).

(** Console output apart, what a run did to the host. *)
Definition isConsole (e : Host.Event) : bool :=
  match e with
  | Host.ConsoleLog _ | Host.ConsoleError _ => true
  | _ => false
  end.

Definition hostCalls (evs : list Host.Event) : list Host.Event :=
  filter (fun e => negb (isConsole e)) evs.

(** The state after further events, and with another world. *)
Definition addEvents (evs : list Host.Event) (s : Host.State) : Host.State :=
  Host.mkSt (Host.world s) (Host.renderedCount s) (Host.skippedCount s)
            (Host.trace s ++ evs).

Definition withWorld (w : Host.World) (s : Host.State) : Host.State :=
  Host.mkSt w (Host.renderedCount s) (Host.skippedCount s) (Host.trace s).

(** The renderer stub succeeds on the source of a task. *)
Definition rendersOk (stub : Host.Stub) (t : Renderer.Task) : bool :=
  match Host.mmdc stub (Renderer.mermaidCode t) with
  | inr _ => true
  | inl _ => false
  end.

Definition unlinkOk (stub : Host.Stub) (path : jsstring) : bool :=
  match Host.unlink_fault stub path with
  | None => true
  | Some _ => false
  end.

(** What a console line of [console_error_if] adds. *)
Definition consoleOut (out : option jsstring) : list Host.Event :=
  match out with
  | Some ((_ :: _) as text) => [Host.ConsoleError [Host.PStr text]]
  | _ => []
  end.

Section PoolVocabulary.

Variable path_join : jsstring -> jsstring -> jsstring.
Variable options : Renderer.Options.
Variable stub : Host.Stub.

(** The world after a task that was not cached and wrote its temporary
    file. *)
Definition worldAfter (task : Renderer.Task) (w : Host.World) : Host.World :=
  let tmp := Execute.tempInputFileOf path_join options task in
  let w1 := Host.putFile tmp (Renderer.mermaidCode task) w in
  let w2 := match Host.mmdc stub (Renderer.mermaidCode task) with
            | inr image => Host.putFile (Renderer.outputPath task) image w1
            | inl _ => w1
            end in
  if unlinkOk stub tmp then Host.removeFile tmp w2 else w2.

(** The host calls of such a task, in order. *)
Definition renderingCalls (task : Renderer.Task) : list Host.Event :=
  [Host.FsAccess (Renderer.outputPath task) false;
   Host.FsWriteFile (Execute.tempInputFileOf path_join options task)
                    (Renderer.mermaidCode task) true;
   Host.ExecAsync (Execute.commandOf path_join options task)
                  (rendersOk stub task);
   Host.FsUnlink (Execute.tempInputFileOf path_join options task)
                 (unlinkOk stub (Execute.tempInputFileOf path_join options task))].


(** The lines that end a pass. *)
Definition summaryLines (s : Host.State) : list Host.Event :=
  [Host.ConsoleLog
     [Host.PStr (Execute.ESC ++ lit "[32m[Mermaid-Static] "
                   ++ (lit "--- Mermaid Theme Build Finished ('"
                         ++ Renderer.themeName options ++ lit "') ---")
                   ++ Execute.ESC ++ lit "[0m")];
   Host.ConsoleLog
     [Host.PStr (Execute.ESC ++ lit "[32m[Mermaid-Static] "
                   ++ (lit "Rendered: "
                         ++ Execute.decimal (Host.renderedCount s)
                         ++ lit " new")
                   ++ Execute.ESC ++ lit "[0m")];
   Host.ConsoleLog
     [Host.PStr (Execute.ESC ++ lit "[32m[Mermaid-Static] "
                   ++ (lit "Skipped:  "
                         ++ Execute.decimal (Host.skippedCount s)
                         ++ lit " cached")
                   ++ Execute.ESC ++ lit "[0m")];
   Host.ConsoleLog
     [Host.PStr (lit "[Mermaid-Static] "
                   ++ lit "------------------------------------")]].

End PoolVocabulary.



(** Sample inputs of the pool: a renderer stub that rejects one source and
    accepts every other, on a host where deleting the temporary file of
    [a-en.svg] fails and no directory [temp_team] exists under the temporary
    directory; a file with two blocks, the second of which the stub
    rejects. *)
Definition sampleBadSource : jsstring := unlines ["graph TD"; "  A-->"]%string.

Definition sampleStub : Host.Stub :=
  Host.mkStub
    (fun source =>
       if JS.eqb source sampleBadSource
       then inl (Host.mkError (lit "Command failed: npx mmdc") (Some [])
                              (Some (lit "Parse error on line 2")))
       else inr (lit "<svg/>"))
    (fun path =>
       if startsWith (lit "/tmp/docusaurus-plugin-mermaid-static/temp_team/")
                     path
       then Some (Host.fsError (lit "ENOENT") path) else None)
    (fun path =>
       if JS.eqb path
                 (lit "/tmp/docusaurus-plugin-mermaid-static/temp_a-en.svg.mmd")
       then Some (Host.fsError (lit "EPERM") path) else None).

Definition sampleBlock (i body : string) : jsstring :=
  unlines ["```mermaid"; "---"; i; "---"; "graph TD"; body; "```"]%string.

Definition sampleTasks : list Renderer.Task :=
  Renderer.plan joinWithSlash sampleOptions
    [Renderer.mkDocFile (lit "docs/intro.md")
       (sampleBlock "id: a" "  A-->B" ++ nl ++ sampleBlock "id: b" "  A-->")].

Definition sampleSlashTask : list Renderer.Task :=
  Renderer.plan joinWithSlash sampleOptions
    [Renderer.mkDocFile (lit "docs/intro.md")
                        (sampleBlock "id: team/flow" "  A-->B")].

Definition sampleGoodTasks : list Renderer.Task :=
  Renderer.plan joinWithSlash sampleOptions
    [Renderer.mkDocFile (lit "docs/intro.md")
       (sampleBlock "id: c" "  A-->B" ++ nl ++ sampleBlock "id: d" "  B-->C")].

(** [l] is a path segment that follows some [i18n/] in [p]: not empty,
    without slash and followed by one. *)
Definition hasLocaleSegment (p l : jsstring) : Prop :=
  l <> []
  /\ Forall (fun c => c <> 47%N) l
  /\ exists a b, p = a ++ lit "i18n/" ++ l ++ lit "/" ++ b.

(** A value read from a header: not empty, on one line, without white space
    at either end. *)
Definition cleanValue (v : jsstring) : Prop :=
  v <> []
  /\ trim v = v
  /\ Forall (fun c => isLineTerminator c = false) v.

(** [a] ends [b]. *)
Definition endsWith (a b : jsstring) : Prop := exists p, b = p ++ a.

(** The host calls that tell how a task ended: its output was found, the
    renderer succeeded, the renderer failed, its temporary file could not be
    written. *)
Definition isCacheHit (e : Host.Event) : bool :=
  match e with Host.FsAccess _ true => true | _ => false end.

Definition isRenderOk (e : Host.Event) : bool :=
  match e with Host.ExecAsync _ true => true | _ => false end.

Definition isRenderFail (e : Host.Event) : bool :=
  match e with Host.ExecAsync _ false => true | _ => false end.

Definition isWriteFail (e : Host.Event) : bool :=
  match e with Host.FsWriteFile _ _ false => true | _ => false end.

Definition count (p : Host.Event -> bool) (evs : list Host.Event) : nat :=
  List.length (filter p evs).

(** The reasons of the rejected promises, in order. *)
Definition rejections (settled : list (option Host.Error)) : list Host.Error :=
  flat_map (fun r => match r with Some e => [e] | None => [] end) settled.

(** The state in which the passes of [loadContent] start after a temporary
    configuration was written at [tempPath]. *)
Definition afterTempConfig (configFile tempPath configJson : jsstring)
    (s : Host.State) : Host.State :=
  addEvents [Host.FsWriteFile tempPath configJson true]
            (withWorld (Host.putFile tempPath configJson (Host.world s))
                       (addEvents [Host.FsAccess configFile false] s)).

(** The completion of [loadContent] and the process after it, given how the
    passes completed. *)
Definition afterPasses (p : Plugin.Process)
    (passes : Host.Completion unit * Host.State)
  : Host.Completion unit * Plugin.Process :=
  match passes with
  | (Host.Normal _, s) => (Host.Normal tt, Plugin.mkProcess s true)
  | (Host.Throw e, s) =>
      (Host.Throw e, Plugin.mkProcess s (Plugin.MERMAID_STATIC_RENDERED p))
  end.

(** Attributes and children of an element, and its children that are
    elements called [name]. *)
Definition attributesOf (node : Remark.Node) : list Remark.Attribute :=
  match node with
  | Remark.Jsx _ attrs _ => attrs
  | _ => []
  end.

Definition childrenOf (node : Remark.Node) : list Remark.Node :=
  match node with
  | Remark.Jsx _ _ children => children
  | _ => []
  end.

Definition isElement (name : jsstring) (node : Remark.Node) : bool :=
  match node with
  | Remark.Jsx n _ _ => JS.eqb n name
  | _ => false
  end.

Definition childrenNamed (name : jsstring) (node : Remark.Node)
  : list Remark.Node :=
  filter (isElement name) (childrenOf node).

(** A tree in which every [code] node is replaced by what the visitor makes
    of it, all else being kept. *)
Fixpoint replaceAll (store : Store.StoreOptions) (production : bool)
    (filePath : jsstring) (tree : Remark.Node) : Remark.Node :=
  match tree with
  | Remark.Code lang value =>
      Remark.visitCode store production filePath lang value
  | Remark.Text _ => tree
  | Remark.Jsx name attributes children =>
      Remark.Jsx name attributes
                 (List.map (replaceAll store production filePath) children)
  end.

(** A task whose parent lies below the child at [prefix]. *)
Definition addPrefix (prefix : Transform.Path) (r : Transform.Replacement)
  : Transform.Replacement :=
  Transform.mkReplacement (prefix ++ Transform.parent r) (Transform.index r)
                          (Transform.newNode r).

(** The tasks carried out from the last to the first. *)
Definition applyTasks (tasks : list Transform.Replacement)
    (tree : Remark.Node) : Remark.Node :=
  fold_right
    (fun task t =>
       Transform.replace (Transform.parent task) (Transform.index task)
                         (Transform.newNode task) t)
    tree tasks.

(** What the traversal makes of one child of a parent at [here], and the
    tasks it pushes. *)
Definition visitChild (store : Store.StoreOptions) (production : bool)
    (filePath : jsstring) (here : Transform.Path) (i : nat) (c : Remark.Node)
  : Remark.Node * list Transform.Replacement :=
  match c with
  | Remark.Code lang value =>
      (fst (Transform.visitor store production filePath lang value),
       match snd (Transform.visitor store production filePath lang value) with
       | Some n => [Transform.mkReplacement here i n]
       | None => []
       end)
  | Remark.Text _ => (c, [])
  | Remark.Jsx _ _ _ =>
      Transform.visit store production filePath (here ++ [i]) c
  end.

(** What one step of a task does, told from the world in which it is
    taken: the status of the task after it, the world after it, its host
    calls and what it adds to the two counters. *)
Record Effect := mkEffect {
  next : Interleaved.Status;
  after : Host.World;
  calls : list Host.Event;
  rendered : nat;
  skipped : nat
}.

Section StepVocabulary.

Variable path_join : jsstring -> jsstring -> jsstring.
Variable options : Renderer.Options.
Variable stub : Host.Stub.

Definition effectOf (task : Renderer.Task) (phase : Interleaved.Phase)
    (w : Host.World) : Effect :=
  let tmp := Execute.tempInputFileOf path_join options task in
  let out := Renderer.outputPath task in
  match phase with
  | Interleaved.Access =>
      match w out with
      | Some _ =>
          mkEffect Interleaved.Fulfilled w [Host.FsAccess out true] 0 1
      | None =>
          mkEffect (Interleaved.Pending Interleaved.Write) w
                   [Host.FsAccess out false] 0 0
      end
  | Interleaved.Write =>
      match Host.writeFile_fault stub tmp with
      | Some e =>
          mkEffect (Interleaved.Rejected e) w
                   [Host.FsWriteFile tmp (Renderer.mermaidCode task) false] 0 0
      | None =>
          mkEffect (Interleaved.Pending Interleaved.Exec)
                   (Host.putFile tmp (Renderer.mermaidCode task) w)
                   [Host.FsWriteFile tmp (Renderer.mermaidCode task) true] 0 0
      end
  | Interleaved.Exec =>
      match match w tmp with
            | Some source => Host.mmdc stub source
            | None => inl (Host.mkError [] None None)
            end with
      | inr image =>
          mkEffect (Interleaved.Pending Interleaved.Unlink)
                   (Host.putFile out image w)
                   [Host.ExecAsync (Execute.commandOf path_join options task)
                                   true] 1 0
      | inl _ =>
          mkEffect (Interleaved.Pending Interleaved.Unlink) w
                   [Host.ExecAsync (Execute.commandOf path_join options task)
                                   false] 0 0
      end
  | Interleaved.Unlink =>
      match Host.unlink_fault stub tmp, w tmp with
      | None, Some _ =>
          mkEffect Interleaved.Fulfilled (Host.removeFile tmp w)
                   [Host.FsUnlink tmp true] 0 0
      | _, _ =>
          mkEffect Interleaved.Fulfilled w [Host.FsUnlink tmp false] 0 0
      end
  end.

(** The state after a step of [task] whose events are [evs]. *)
Definition stepped (task : Renderer.Task) (phase : Interleaved.Phase)
    (evs : list Host.Event) (s : Host.State) : Host.State :=
  Host.mkSt (after (effectOf task phase (Host.world s)))
            (Host.renderedCount s
             + rendered (effectOf task phase (Host.world s)))
            (Host.skippedCount s
             + skipped (effectOf task phase (Host.world s)))
            (Host.trace s ++ evs).

End StepVocabulary.

(** A task that has not been rejected. *)
Definition notRejected (thread : Interleaved.Thread) : Prop :=
  match snd thread with
  | Interleaved.Rejected _ => False
  | _ => True
  end.

Definition isFulfilled (thread : Interleaved.Thread) : Prop :=
  snd thread = Interleaved.Fulfilled.

(** A task whose end is decided, or that only has its temporary file left
    to delete: it has had its share of the four counts. *)
Definition accounted (thread : Interleaved.Thread) : nat :=
  match snd thread with
  | Interleaved.Pending Interleaved.Unlink
  | Interleaved.Fulfilled
  | Interleaved.Rejected _ => 1
  | _ => 0
  end.

(** A task whose temporary file may be there: written and not yet
    deleted. *)
Definition holdsTemporary (thread : Interleaved.Thread) : Prop :=
  snd thread = Interleaved.Pending Interleaved.Exec
  \/ snd thread = Interleaved.Pending Interleaved.Unlink.

(** A task that went past the look at its output and found none. *)
Definition pastAccess (thread : Interleaved.Thread) : Prop :=
  match snd thread with
  | Interleaved.Pending Interleaved.Access | Interleaved.Fulfilled => False
  | _ => True
  end.

Definition sum (l : list nat) : nat := fold_right Nat.add 0 l.

(** The number of awaited operations that a task may still have before
    it. *)
Definition rank (status : Interleaved.Status) : nat :=
  match status with
  | Interleaved.Pending Interleaved.Access => 4
  | Interleaved.Pending Interleaved.Write => 3
  | Interleaved.Pending Interleaved.Exec => 2
  | Interleaved.Pending Interleaved.Unlink => 1
  | _ => 0
  end.

Definition rejected (thread : Interleaved.Thread) : nat :=
  match snd thread with
  | Interleaved.Rejected _ => 1
  | _ => 0
  end.

Section ReachingVocabulary.

Variable path_join : jsstring -> jsstring -> jsstring.
Variable options : Renderer.Options.
Variable stub : Host.Stub.





(** The accounts of a pass so far: the counters count the events, the
    tasks that had their end or have only a deletion left are those counted
    by the four kinds of events, and a rejected task is one whose temporary
    file could not be written. *)
Definition counted (threads : list Interleaved.Thread) (s : Host.State)
  : Prop :=
  Host.renderedCount s = count isRenderOk (Host.trace s)
  /\ Host.skippedCount s = count isCacheHit (Host.trace s)
  /\ count isRenderOk (Host.trace s) + count isCacheHit (Host.trace s)
     + count isRenderFail (Host.trace s) + count isWriteFail (Host.trace s)
     = sum (List.map accounted threads)
  /\ count isWriteFail (Host.trace s) = sum (List.map rejected threads)
  /\ (forall t e,
        In (t, Interleaved.Rejected e) threads ->
        Host.writeFile_fault stub (Execute.tempInputFileOf path_join options t)
        = Some e).


(** Every temporary file that exists belongs to a task that wrote it and
    has not deleted it yet. *)
Definition temporariesHeld (tasks : list Renderer.Task)
    (threads : list Interleaved.Thread) (s : Host.State) : Prop :=
  List.map fst threads = tasks
  /\ forall t,
       In t tasks ->
       Host.world s (Execute.tempInputFileOf path_join options t) <> None ->
       exists thread,
         In thread threads
         /\ Execute.tempInputFileOf path_join options (fst thread)
            = Execute.tempInputFileOf path_join options t
         /\ holdsTemporary thread.

End ReachingVocabulary.

Section KeepingVocabulary.

Variable path_join : jsstring -> jsstring -> jsstring.
Variable options : Renderer.Options.

(** A path that is no temporary file and no output of the tasks. *)
Definition untouched (q : jsstring) (threads : list Interleaved.Thread)
  : Prop :=
  forall thread,
    In thread threads ->
    q <> Execute.tempInputFileOf path_join options (fst thread)
    /\ q <> Renderer.outputPath (fst thread).

(** Such a path keeps what it names, [v], while the tasks take their
    steps, and the trace [before] grows. *)
Definition keeping (q : jsstring) (v : option jsstring)
    (before : list Host.Event) (threads : list Interleaved.Thread)
    (s : Host.State) : Prop :=
  untouched q threads
  /\ Host.world s q = v
  /\ exists evs, Host.trace s = before ++ evs.

End KeepingVocabulary.

Section CachedVocabulary.

Variable path_join : jsstring -> jsstring -> jsstring.
Variable options : Renderer.Options.

(** A task that has not gone past the look at its output. *)
Definition atOutput (thread : Interleaved.Thread) : Prop :=
  snd thread = Interleaved.Pending Interleaved.Access
  \/ snd thread = Interleaved.Fulfilled.

(** The host call of a task that found its output. *)
Definition found (thread : Interleaved.Thread) : list Host.Event :=
  match snd thread with
  | Interleaved.Fulfilled =>
      [Host.FsAccess (Renderer.outputPath (fst thread)) true]
  | _ => []
  end.

(** A pass over tasks whose outputs exist in [w], so far: the world is
    [w], no task has gone past the look at its output, and the tasks that
    have looked are counted as skipped. *)
Definition skipping (w : Host.World) (threads : list Interleaved.Thread)
    (s : Host.State) : Prop :=
  Host.world s = w
  /\ (forall thread,
        In thread threads ->
        w (Renderer.outputPath (fst thread)) <> None /\ atOutput thread)
  /\ Host.renderedCount s = 0
  /\ Host.skippedCount s = sum (List.map accounted threads)
  /\ Permutation (hostCalls (Host.trace s)) (flat_map found threads).

(** The file [q] holds [data] and is no temporary file of the tasks; the
    tasks whose output it is do not go past the look at it. *)
Definition preserving (q data : jsstring)
    (threads : list Interleaved.Thread) (s : Host.State) : Prop :=
  Host.world s q = Some data
  /\ forall thread,
       In thread threads ->
       q <> Execute.tempInputFileOf path_join options (fst thread)
       /\ (Renderer.outputPath (fst thread) = q -> atOutput thread).

End CachedVocabulary.

Section PopulatingVocabulary.

Variable path_join : jsstring -> jsstring -> jsstring.
Variable options : Renderer.Options.

(** The files of a task in a pass in which nothing fails: its temporary
    file holds its diagram while the renderer runs, and its output exists
    once the renderer has run or the output was found. *)
Definition populated (w : Host.World) (thread : Interleaved.Thread) : Prop :=
  match snd thread with
  | Interleaved.Pending Interleaved.Exec =>
      w (Execute.tempInputFileOf path_join options (fst thread))
      = Some (Renderer.mermaidCode (fst thread))
  | Interleaved.Pending Interleaved.Unlink
  | Interleaved.Fulfilled => w (Renderer.outputPath (fst thread)) <> None
  | Interleaved.Rejected _ => False
  | _ => True
  end.

Definition populating (tasks : list Renderer.Task)
    (threads : list Interleaved.Thread) (s : Host.State) : Prop :=
  List.map fst threads = tasks
  /\ forall thread, In thread threads -> populated (Host.world s) thread.

End PopulatingVocabulary.

End Vocabulary.

Import Vocabulary.

(* ================================================================== *)
(** * Facts about strings *)
(* ================================================================== *)

Section StringFacts.

Lemma eqb_eq (a b : jsstring) : JS.eqb a b = true <-> a = b.
Proof.
  revert b. induction a as [|x a IH]; intros [|y b]; simpl;
    try (split; [discriminate|discriminate]); [tauto|].
  rewrite andb_true_iff, N.eqb_eq, IH. split.
  - intros [-> ->]. reflexivity.
  - intros H. injection H as -> ->. now split.
Qed.

Lemma eqb_refl (s : jsstring) : JS.eqb s s = true.
Proof. now apply eqb_eq. Qed.

Lemma eqb_neq (a b : jsstring) : JS.eqb a b = false <-> a <> b.
Proof.
  rewrite <- eqb_eq. destruct (JS.eqb a b); split; congruence.
Qed.

Lemma startsWith_app (p s : jsstring) : startsWith p (p ++ s) = true.
Proof.
  induction p as [|a p IH]; simpl; [reflexivity|].
  now rewrite N.eqb_refl, IH.
Qed.

Lemma startsWith_inv (p s : jsstring) :
  startsWith p s = true -> s = p ++ skipn (List.length p) s.
Proof.
  revert s. induction p as [|a p IH]; intros s H; simpl in *; [reflexivity|].
  destruct s as [|b s]; [discriminate|].
  apply andb_true_iff in H. destruct H as [Hab H].
  apply N.eqb_eq in Hab. subst b. simpl. f_equal. now apply IH.
Qed.

Lemma startsWith_iff (p s : jsstring) :
  startsWith p s = true <-> exists r, s = p ++ r.
Proof.
  split.
  - intros H. eexists. now apply startsWith_inv.
  - intros [r ->]. apply startsWith_app.
Qed.

Lemma startsWith_prefix (p q s : jsstring) :
  startsWith (p ++ q) s = true -> startsWith p s = true.
Proof.
  intros H. apply startsWith_iff in H. destruct H as [r ->].
  rewrite <- app_assoc. apply startsWith_app.
Qed.

(** [splitFirst] cuts around an occurrence of the pattern. *)
Lemma splitFirst_some (p s a b : jsstring) :
  splitFirst p s = Some (a, b) -> s = a ++ p ++ b.
Proof.
  revert a b. induction s as [|c t IH]; intros a b H.
  - simpl in H. destruct (startsWith p []) eqn:E; [|discriminate].
    inversion H; subst. simpl. now apply startsWith_inv.
  - simpl in H. destruct (startsWith p (c :: t)) eqn:E.
    + inversion H; subst. simpl. now apply startsWith_inv.
    + destruct (splitFirst p t) as [[a' b']|] eqn:E'; [|discriminate].
      inversion H; subst. simpl. f_equal. now apply IH.
Qed.

(** It finds the pattern whenever the pattern occurs. *)
Lemma splitFirst_none (p s : jsstring) :
  splitFirst p s = None -> forall a b, s <> a ++ p ++ b.
Proof.
  induction s as [|c t IH]; intros H a b Hs.
  - simpl in H. destruct (startsWith p []) eqn:E; [discriminate|].
    destruct a; simpl in Hs.
    + rewrite Hs, startsWith_app in E. discriminate.
    + discriminate.
  - simpl in H. destruct (startsWith p (c :: t)) eqn:E; [discriminate|].
    destruct (splitFirst p t) as [[a' b']|] eqn:E'; [discriminate|].
    destruct a as [|a0 a]; simpl in Hs.
    + rewrite Hs, startsWith_app in E. discriminate.
    + inversion Hs; subst. now apply (IH eq_refl a b).
Qed.

Lemma takeWhile_dropWhile (p : char -> bool) (s : jsstring) :
  s = takeWhile p s ++ dropWhile p s.
Proof.
  induction s as [|c t IH]; simpl; [reflexivity|].
  destruct (p c); simpl; [now f_equal|reflexivity].
Qed.

Lemma takeWhile_Forall (p : char -> bool) (s : jsstring) :
  Forall (fun c => p c = true) (takeWhile p s).
Proof.
  induction s as [|c t IH]; simpl; [constructor|].
  destruct (p c) eqn:E; constructor; assumption.
Qed.

Lemma dropWhile_app_Forall (p : char -> bool) (w s : jsstring) :
  Forall (fun c => p c = true) w -> dropWhile p (w ++ s) = dropWhile p s.
Proof.
  induction 1 as [|c w Hc _ IH]; simpl; [reflexivity|]. now rewrite Hc.
Qed.

Lemma dropWhile_length (p : char -> bool) (s : jsstring) :
  List.length (dropWhile p s) <= List.length s.
Proof.
  induction s as [|c t IH]; simpl; [lia|]. destruct (p c); simpl; lia.
Qed.

Lemma dropWhile_noLeading (s : jsstring) : noLeadingSpace (trimStart s).
Proof.
  unfold trimStart. induction s as [|c t IH]; simpl; [exact I|].
  destruct (isWhiteSpace c) eqn:E; simpl; assumption.
Qed.

Lemma trimStart_fixed (s : jsstring) : noLeadingSpace s -> trimStart s = s.
Proof.
  unfold trimStart. destruct s as [|c t]; simpl; [reflexivity|].
  now intros ->.
Qed.

Lemma dropWhile_snoc (p : char -> bool) (l : jsstring) (c : char) :
  dropWhile p (l ++ [c]) =
  match dropWhile p l with
  | [] => if p c then [] else [c]
  | u => u ++ [c]
  end.
Proof.
  induction l as [|a l IH]; simpl; [reflexivity|].
  destruct (p a); [exact IH|reflexivity].
Qed.

Lemma trimEnd_cons (c : char) (t : jsstring) :
  trimEnd (c :: t) =
  match trimEnd t with
  | [] => if isWhiteSpace c then [] else [c]
  | u => c :: u
  end.
Proof.
  unfold trimEnd. simpl. rewrite dropWhile_snoc.
  destruct (dropWhile isWhiteSpace (rev t)) as [|a u] eqn:E; simpl.
  - destruct (isWhiteSpace c); reflexivity.
  - rewrite rev_app_distr. simpl.
    destruct (rev u ++ [a]) eqn:E'; [|reflexivity].
    now destruct (rev u).
Qed.

Lemma trimEnd_length (s : jsstring) : List.length (trimEnd s) <= List.length s.
Proof.
  unfold trimEnd. rewrite length_rev.
  etransitivity; [apply dropWhile_length|]. now rewrite length_rev.
Qed.

Lemma trim_length (s : jsstring) : List.length (trim s) <= List.length s.
Proof.
  unfold trim. etransitivity; [apply trimEnd_length|]. apply dropWhile_length.
Qed.

Lemma trimEnd_noLeading (s : jsstring) :
  noLeadingSpace s -> noLeadingSpace (trimEnd s).
Proof.
  destruct s as [|c t]; [intros _; exact I|]. simpl. intros Hc.
  rewrite trimEnd_cons. destruct (trimEnd t); simpl; [|assumption].
  now rewrite Hc.
Qed.

(** Trimming on the two sides commutes. *)
Lemma trimStart_trimEnd (s : jsstring) :
  trimEnd (trimStart s) = trimStart (trimEnd s).
Proof.
  induction s as [|c t IH]; [reflexivity|].
  destruct (isWhiteSpace c) eqn:E.
  - unfold trimStart at 1. simpl. rewrite E. fold (trimStart t). rewrite IH.
    rewrite trimEnd_cons. destruct (trimEnd t) as [|a u] eqn:Et.
    + now rewrite E.
    + unfold trimStart. simpl. now rewrite E.
  - rewrite (trimStart_fixed (c :: t)) by exact E.
    symmetry. apply trimStart_fixed. apply trimEnd_noLeading. exact E.
Qed.

Lemma trimStart_idem (s : jsstring) : trimStart (trimStart s) = trimStart s.
Proof. apply trimStart_fixed, dropWhile_noLeading. Qed.

Lemma trimEnd_idem (s : jsstring) : trimEnd (trimEnd s) = trimEnd s.
Proof.
  unfold trimEnd. rewrite rev_involutive. f_equal.
  apply (trimStart_idem (rev s)).
Qed.

(** [trim] is idempotent. *)
Lemma trim_idem (s : jsstring) : trim (trim s) = trim s.
Proof.
  unfold trim. rewrite <- trimStart_trimEnd, trimStart_idem.
  apply trimEnd_idem.
Qed.

Lemma trim_noLeading (s : jsstring) : noLeadingSpace (trim s).
Proof. apply trimEnd_noLeading, dropWhile_noLeading. Qed.

(** A string that begins with a unit that is no white space keeps it. *)
Lemma trim_nonempty (c : char) (t : jsstring) :
  isWhiteSpace c = false -> trim (c :: t) <> [].
Proof.
  intros Hc. unfold trim. rewrite (trimStart_fixed (c :: t)) by exact Hc.
  rewrite trimEnd_cons. destruct (trimEnd t); [now rewrite Hc|discriminate].
Qed.

Lemma trimStart_ws_cons (c : char) (s : jsstring) :
  isWhiteSpace c = true -> trimStart (c :: s) = trimStart s.
Proof. intros H. unfold trimStart. simpl. now rewrite H. Qed.

Lemma trimEnd_ws_snoc (c : char) (s : jsstring) :
  isWhiteSpace c = true -> trimEnd (s ++ [c]) = trimEnd s.
Proof.
  intros H. unfold trimEnd. rewrite rev_app_distr. simpl. now rewrite H.
Qed.

(** White space around a string does not survive trimming. *)
Lemma trim_padded (c d : char) (s : jsstring) :
  isWhiteSpace c = true -> isWhiteSpace d = true ->
  trim (c :: s ++ [d]) = trim s.
Proof.
  intros Hc Hd. unfold trim. rewrite trimStart_ws_cons by exact Hc.
  rewrite !trimStart_trimEnd. now rewrite trimEnd_ws_snoc.
Qed.

End StringFacts.

(* ================================================================== *)
(** * Facts about the patterns *)
(* ================================================================== *)

Section PatternFacts.

Import Patterns.

(** A match of the header pattern is two delimiters around the capture. *)
Lemma metadataBlockRegex_exec_some (s pre cap post : jsstring) :
  metadataBlockRegex_exec s = Some (pre, cap, post) ->
  s = pre ++ dashes ++ cap ++ dashes ++ post.
Proof.
  unfold metadataBlockRegex_exec. intros H.
  destruct (splitFirst dashes s) as [[a rest]|] eqn:E1; [|discriminate].
  destruct (splitFirst dashes rest) as [[c b]|] eqn:E2; [|discriminate].
  inversion H; subst.
  apply splitFirst_some in E1, E2. now subst.
Qed.

(** The occurrence found by [splitFirst] is the leftmost one. *)
Lemma splitFirst_leftmost (p s a b : jsstring) :
  splitFirst p s = Some (a, b) ->
  forall a' b', s = a' ++ p ++ b' -> List.length a <= List.length a'.
Proof.
  revert a b. induction s as [|c t IH]; intros a b H a' b' Hs.
  - simpl in H. destruct (startsWith p []); [|discriminate].
    inversion H; subst. simpl. lia.
  - simpl in H. destruct (startsWith p (c :: t)) eqn:E.
    + inversion H; subst. simpl. lia.
    + destruct (splitFirst p t) as [[a0 b0]|] eqn:E'; [|discriminate].
      inversion H; subst. clear H.
      destruct a' as [|x a'].
      * simpl in Hs. rewrite Hs, startsWith_app in E. discriminate.
      * simpl in Hs. inversion Hs; subst. simpl.
        specialize (IH a0 b eq_refl a' b' eq_refl). lia.
Qed.

(** Without a match there are no two delimiters, one after the other. *)
Lemma metadataBlockRegex_exec_none (s : jsstring) :
  metadataBlockRegex_exec s = None ->
  forall pre cap post, s <> pre ++ dashes ++ cap ++ dashes ++ post.
Proof.
  unfold metadataBlockRegex_exec. intros H pre cap post Hs.
  destruct (splitFirst dashes s) as [[a rest]|] eqn:E1.
  - destruct (splitFirst dashes rest) as [[c b]|] eqn:E2; [discriminate|].
    pose proof (splitFirst_leftmost _ _ _ _ E1 pre (cap ++ dashes ++ post) Hs) as Hle.
    apply splitFirst_some in E1.
    assert (Hr : rest = skipn (List.length a + 3) s).
    { rewrite E1 at 1. rewrite (app_assoc a dashes rest).
      rewrite skipn_app.
      replace (List.length a + 3 - List.length (a ++ dashes)) with 0
        by (rewrite length_app; simpl; lia).
      rewrite skipn_all2 by (rewrite length_app; simpl; lia).
      reflexivity. }
    rewrite Hs in Hr.
    replace (pre ++ dashes ++ cap ++ dashes ++ post)
      with ((pre ++ dashes ++ cap) ++ dashes ++ post) in Hr
      by (now rewrite <- !app_assoc).
    rewrite skipn_app in Hr.
    replace (List.length a + 3 - List.length (pre ++ dashes ++ cap)) with 0
      in Hr by (rewrite !length_app; simpl; lia).
    simpl in Hr.
    exact (splitFirst_none _ _ E2 _ _ Hr).
  - apply (splitFirst_none _ _ E1 pre (cap ++ dashes ++ post)). exact Hs.
Qed.

Lemma metadataBlockRegex_remove_none (s : jsstring) :
  metadataBlockRegex_exec s = None -> metadataBlockRegex_remove s = s.
Proof. unfold metadataBlockRegex_remove. now intros ->. Qed.

Lemma metadataContent_of_none (s : jsstring) :
  metadataBlockRegex_exec s = None -> metadataContent_of s = [].
Proof. unfold metadataContent_of. now intros ->. Qed.

(** Removing a header removes at least its two delimiters. *)
Lemma metadataBlockRegex_remove_some (s pre cap post : jsstring) :
  metadataBlockRegex_exec s = Some (pre, cap, post) ->
  List.length (metadataBlockRegex_remove s) + 6 <= List.length s.
Proof.
  intros H. unfold metadataBlockRegex_remove. rewrite H.
  apply metadataBlockRegex_exec_some in H. subst s.
  rewrite !length_app. simpl. lia.
Qed.

Lemma metadataBlockRegex_remove_length (s : jsstring) :
  List.length (metadataBlockRegex_remove s) <= List.length s.
Proof.
  destruct (metadataBlockRegex_exec s) as [[[pre cap] post]|] eqn:E.
  - apply metadataBlockRegex_remove_some in E. lia.
  - now rewrite metadataBlockRegex_remove_none.
Qed.

(** The capture of a key pattern never begins with white space. *)
Lemma keyRegex_exec_noLeading (key s cap : jsstring) :
  keyRegex_exec key s = Some cap -> noLeadingSpace cap.
Proof.
  unfold keyRegex_exec. destruct (splitFirst key s) as [[a rest]|]; [|discriminate].
  intros H. inversion H; subst. clear H.
  pose proof (dropWhile_noLeading rest) as Hn. unfold trimStart in Hn.
  destruct (dropWhile isWhiteSpace rest) as [|c t]; simpl; [exact I|].
  simpl in Hn. destruct (isLineTerminator c) eqn:E; simpl; [exact I|exact Hn].
Qed.

Lemma keyValueRegex_test_unfold (key value s : jsstring) :
  keyValueRegex_test key value s =
  (startsWith key s
   && startsWith value (dropWhile isWhiteSpace (skipn (List.length key) s)))
  || match s with
     | [] => false
     | _ :: t => keyValueRegex_test key value t
     end.
Proof. destruct s; reflexivity. Qed.

Lemma keyValueRegex_test_here (key value s : jsstring) :
  startsWith key s = true ->
  startsWith value (dropWhile isWhiteSpace (skipn (List.length key) s)) = true ->
  keyThenValue key value s.
Proof.
  intros H1 H2. apply startsWith_inv in H1, H2.
  exists [], (takeWhile isWhiteSpace (skipn (List.length key) s)),
    (skipn (List.length value)
           (dropWhile isWhiteSpace (skipn (List.length key) s))).
  split; [|apply takeWhile_Forall].
  simpl. rewrite H1 at 1. f_equal. rewrite <- H2.
  apply takeWhile_dropWhile.
Qed.

(** The two-word patterns accept exactly the texts of that shape. *)
Lemma keyValueRegex_test_true (key value s : jsstring) :
  noLeadingSpace value -> value <> [] ->
  keyValueRegex_test key value s = true <-> keyThenValue key value s.
Proof.
  intros Hv Hne. split.
  - induction s as [|c t IH]; rewrite keyValueRegex_test_unfold; intros H.
    + rewrite orb_false_r in H. apply andb_true_iff in H.
      destruct H as [H1 H2]. now apply keyValueRegex_test_here.
    + apply orb_true_iff in H. destruct H as [H|H].
      * apply andb_true_iff in H. destruct H as [H1 H2].
        now apply keyValueRegex_test_here.
      * destruct (IH H) as (a & w & b & -> & Hw).
        exists (c :: a), w, b. split; [reflexivity|assumption].
  - intros (a & w & b & -> & Hw).
    induction a as [|c a IH].
    + rewrite keyValueRegex_test_unfold. simpl app.
      rewrite startsWith_app.
      rewrite skipn_app, Nat.sub_diag, skipn_all. simpl app.
      rewrite dropWhile_app_Forall by assumption.
      replace (dropWhile isWhiteSpace (value ++ b)) with (value ++ b).
      * now rewrite startsWith_app.
      * symmetry. apply (trimStart_fixed (value ++ b)).
        destruct value; [congruence|exact Hv].
    + rewrite keyValueRegex_test_unfold. simpl. rewrite IH.
      apply orb_true_r.
Qed.

End PatternFacts.

(* ================================================================== *)
(** * Identity derivation *)
(* ================================================================== *)

Section Digest.

Import Crypto.

Lemma le_bytes_length (n : nat) (x : N) : List.length (le_bytes n x) = n.
Proof. revert x. induction n; intros x; simpl; [reflexivity|]. now rewrite IHn. Qed.

Lemma md5_length (msg : list byte) : List.length (md5 msg) = 16.
Proof. unfold md5. cbv zeta. now rewrite !length_app, !le_bytes_length. Qed.

Lemma hex_length (bs : list byte) : List.length (hex bs) = 2 * List.length bs.
Proof.
  unfold hex. induction bs as [|b bs IH]; [reflexivity|].
  cbn [flat_map]. rewrite length_app, IH. simpl. lia.
Qed.

(** The hexadecimal digest has 32 digits. *)
Lemma md5_hex_length (str : jsstring) : List.length (md5_hex str) = 32.
Proof. unfold md5_hex. now rewrite hex_length, md5_length. Qed.

Lemma hexdigit_isHexDigit (n : N) : (n < 16)%N -> isHexDigit (hexdigit n) = true.
Proof.
  intros H. unfold hexdigit, isHexDigit.
  destruct (n <? 10)%N eqn:E.
  - apply N.ltb_lt in E. apply orb_true_iff. left.
    apply andb_true_iff. split; apply N.leb_le; lia.
  - apply N.ltb_ge in E. apply orb_true_iff. right.
    apply andb_true_iff. split; apply N.leb_le; lia.
Qed.

Lemma hex_isHexDigit (bs : list byte) :
  Forall (fun c => isHexDigit c = true) (hex bs).
Proof.
  induction bs as [|b bs IH]; simpl; [constructor|].
  constructor; [|constructor; [|exact IH]];
    apply hexdigit_isHexDigit; apply N.mod_lt; discriminate.
Qed.

End Digest.

Lemma firstn_Forall {A} (P : A -> Prop) (n : nat) (l : list A) :
  Forall P l -> Forall P (firstn n l).
Proof.
  intros H. revert n. induction H as [|x l Hx _ IH]; intros [|n]; simpl;
    constructor; auto.
Qed.

Lemma createHash_length (str : jsstring) :
  List.length (Renderer.createHash str) = 10.
Proof.
  unfold Renderer.createHash, substring0.
  rewrite length_firstn. rewrite md5_hex_length. reflexivity.
Qed.

Lemma createHash_hex (str : jsstring) :
  Forall (fun c => isHexDigit c = true) (Renderer.createHash str).
Proof.
  unfold Renderer.createHash, substring0, Crypto.md5_hex.
  apply firstn_Forall. apply hex_isHexDigit.
Qed.

Lemma createHash_nonempty (str : jsstring) : Renderer.createHash str <> [].
Proof.
  intros H. pose proof (createHash_length str) as L.
  rewrite H in L. discriminate.
Qed.

Arguments Crypto.md5_hex : simpl never.
Arguments Renderer.createHash : simpl never.
Arguments Remark.createHash : simpl never.

(** C3, as amended.  An explicit identity [x] that is not empty is returned
    with the white space around it trimmed, whatever the body [b] is; it is
    returned unchanged when it has none.  Without one, or with an empty one,
    the identity is the first 10 characters of the hexadecimal MD5 digest of
    the UTF-8 encoding of the body: 10 lower-case hexadecimal digits, a
    function of the body alone.  The capture of the [id:] pattern never
    begins with white space, so a capture that is not empty is not empty
    after trimming either. *)
Theorem derive_explicit_or_digest (b x : jsstring) :
  (x <> [] -> Renderer.derive b (Some x) = trim x)
  /\ (x <> [] -> trim x = x -> forall b', Renderer.derive b' (Some x) = x)
  /\ Renderer.derive b None = Renderer.createHash b
  /\ Renderer.derive b (Some []) = Renderer.createHash b
  /\ Renderer.createHash b
     = substring0 10 (Crypto.hex (Crypto.md5 (Crypto.utf8 b)))
  /\ List.length (Renderer.createHash b) = 10
  /\ Forall (fun c => isHexDigit c = true) (Renderer.createHash b)
  /\ (forall metadataContent,
        Patterns.idRegex_exec metadataContent = Some x -> x <> [] ->
        trim x <> []).
Proof.
  split; [|split; [|split; [|split; [|split; [|split; [|split]]]]]].
  - intros Hx. destruct x; [congruence|reflexivity].
  - intros Hx Ht b'. destruct x; [congruence|]. simpl. exact Ht.
  - reflexivity.
  - reflexivity.
  - reflexivity.
  - apply createHash_length.
  - apply createHash_hex.
  - intros mc Hm Hx. apply keyRegex_exec_noLeading in Hm.
    destruct x as [|c t]; [congruence|]. now apply trim_nonempty.
Qed.

(** C3, as stated, fails: the identity [a ] (with a space after it), which is
    what the pattern captures from the header line [id: a ] followed by a line
    feed, is not empty after trimming and is not returned verbatim. *)
Lemma derive_not_verbatim :
  Patterns.idRegex_exec (nl ++ lit "id: a " ++ nl) = Some (lit "a ")
  /\ trim (lit "a ") <> []
  /\ Renderer.derive (lit "graph TD") (Some (lit "a ")) = lit "a"
  /\ Renderer.derive (lit "graph TD") (Some (lit "a ")) <> lit "a ".
Proof.
  repeat split; try (vm_compute; reflexivity); vm_compute; discriminate.
Qed.

(* ================================================================== *)
(** * Planning *)
(* ================================================================== *)

Section PlanningFacts.

Import Patterns Renderer.

Variable path_join : jsstring -> jsstring -> jsstring.
Variable options : Options.



Lemma taskOfBlock_some (locale block : jsstring) :
  prerenderRegex_test (metadataContent_of block) = false ->
  taskOfBlock path_join options locale block
  = Some (mkTask (idOf block) locale
                 (filenameOf (idOf block) locale (outputSuffix options)
                             (outputFormat options))
                 (mermaidCodeOf block)
                 (path_join (outputDir options)
                            (filenameOf (idOf block) locale
                                        (outputSuffix options)
                                        (outputFormat options)))).
Proof. unfold taskOfBlock. now intros ->. Qed.

Lemma idOf_noExplicitId (block : jsstring) :
  noExplicitId block -> idOf block = createHash (mermaidCodeOf block).
Proof. unfold idOf, noExplicitId. now intros [-> | ->]. Qed.




End PlanningFacts.





(* ================================================================== *)
(** * Extraction of header and body *)
(* ================================================================== *)

Section ExtractionFacts.

Import Patterns.

Lemma splitFirst_cons (p : jsstring) (c : char) (t : jsstring) :
  splitFirst p (c :: t) =
  if startsWith p (c :: t) then Some ([], skipn (List.length p) (c :: t))
  else match splitFirst p t with
       | Some (a, b) => Some (c :: a, b)
       | None => None
       end.
Proof. reflexivity. Qed.

Lemma includes_cons_false (p : jsstring) (c : char) (t : jsstring) :
  includes p (c :: t) = false <->
  startsWith p (c :: t) = false /\ includes p t = false.
Proof.
  unfold includes. rewrite splitFirst_cons.
  destruct (startsWith p (c :: t)).
  - split; [discriminate|intros [H _]; discriminate H].
  - destruct (splitFirst p t) as [[a b]|].
    + split; [discriminate|intros [_ H]; discriminate H].
    + split; [now split|reflexivity].
Qed.

Lemma removeFences_aux_cons (c : char) (t : jsstring) :
  removeFences_aux 0 (c :: t) =
  if startsWith fenceMermaid (c :: t) then removeFences_aux 9 t
  else if startsWith fence (c :: t) then removeFences_aux 2 t
  else c :: removeFences_aux 0 t.
Proof. reflexivity. Qed.

Lemma removeFences_aux_length (k : nat) (s : jsstring) :
  List.length (removeFences_aux k s) <= List.length s.
Proof.
  revert k. induction s as [|c t IH]; intros k; [simpl; lia|].
  destruct k as [|k].
  - rewrite removeFences_aux_cons.
    destruct (startsWith fenceMermaid (c :: t)).
    + specialize (IH 9). simpl List.length. lia.
    + destruct (startsWith fence (c :: t)).
      * specialize (IH 2). simpl List.length. lia.
      * specialize (IH 0). simpl List.length. lia.
  - specialize (IH k). simpl. lia.
Qed.

Lemma removeFences_length (s : jsstring) :
  List.length (removeFences s) <= List.length s.
Proof. apply removeFences_aux_length. Qed.

Lemma startsWith_fenceMermaid_fence (s : jsstring) :
  startsWith fence s = false -> startsWith fenceMermaid s = false.
Proof.
  intros H. destruct (startsWith fenceMermaid s) eqn:E; [|reflexivity].
  change fenceMermaid with (fence ++ lit "mermaid") in E.
  apply startsWith_prefix in E. congruence.
Qed.

(** Removing the fence markers changes a text exactly when it has one. *)
Lemma removeFences_fixed (s : jsstring) :
  removeFences s = s <-> includes fence s = false.
Proof.
  unfold removeFences. induction s as [|c t IH]; [split; reflexivity|].
  rewrite removeFences_aux_cons, includes_cons_false. split.
  - intros H.
    destruct (startsWith fenceMermaid (c :: t)) eqn:E1.
    { pose proof (removeFences_aux_length 9 t) as L. rewrite H in L.
      simpl in L. lia. }
    destruct (startsWith fence (c :: t)) eqn:E2.
    { pose proof (removeFences_aux_length 2 t) as L. rewrite H in L.
      simpl in L. lia. }
    split; [reflexivity|]. apply IH. injection H as H. exact H.
  - intros [H1 H2]. rewrite (startsWith_fenceMermaid_fence _ H1), H1.
    f_equal. now apply IH.
Qed.

Lemma removeFences_same_length (s : jsstring) :
  List.length (removeFences s) = List.length s -> removeFences s = s.
Proof.
  unfold removeFences. induction s as [|c t IH]; [reflexivity|].
  rewrite removeFences_aux_cons.
  destruct (startsWith fenceMermaid (c :: t)).
  { intros H. pose proof (removeFences_aux_length 9 t). simpl in H. lia. }
  destruct (startsWith fence (c :: t)).
  { intros H. pose proof (removeFences_aux_length 2 t). simpl in H. lia. }
  simpl. intros H. f_equal. apply IH. lia.
Qed.

(** A text that lost no unit to the header pattern had no header. *)
Lemma metadataBlockRegex_remove_same_length (s : jsstring) :
  List.length (metadataBlockRegex_remove s) = List.length s ->
  metadataBlockRegex_exec s = None.
Proof.
  intros H. destruct (metadataBlockRegex_exec s) as [[[pre cap] post]|] eqn:E;
    [|reflexivity].
  apply metadataBlockRegex_remove_some in E. lia.
Qed.

Lemma metadataOf_empty : Remark.metadataOf [] = Remark.emptyMetadata.
Proof. reflexivity. Qed.

End ExtractionFacts.

(** Extracting again from the body of a first extraction gives an empty
    header and the same body exactly when that body holds no further pair
    of [---] and, in the renderer, which also strips the fence markers, no
    [```].  This holds for the renderer's extraction and for the
    transformer's. *)
Theorem extract_again_iff (raw : jsstring) :
  (Renderer.extract (snd (Renderer.extract raw))
   = ([], snd (Renderer.extract raw))
   <-> Patterns.metadataBlockRegex_exec (snd (Renderer.extract raw)) = None
       /\ includes Patterns.fence (snd (Renderer.extract raw)) = false)
  /\ (Remark.extract (snd (Remark.extract raw))
      = (Remark.emptyMetadata, snd (Remark.extract raw))
      <-> Patterns.metadataBlockRegex_exec (snd (Remark.extract raw)) = None).
Proof.
  split.
  - unfold Renderer.extract. cbn [snd].
    set (body := Renderer.mermaidCodeOf raw).
    assert (Hb : trim body = body) by apply trim_idem.
    split.
    + intros H. apply (f_equal snd) in H. cbn [snd] in H.
      rename H into Hc. unfold Renderer.mermaidCodeOf in Hc.
      assert (L : List.length (Patterns.removeFences body) = List.length body
                  /\ List.length (Patterns.metadataBlockRegex_remove
                                    (Patterns.removeFences body))
                     = List.length (Patterns.removeFences body)).
      { pose proof (trim_length (Patterns.metadataBlockRegex_remove
                                   (Patterns.removeFences body))) as L1.
        pose proof (metadataBlockRegex_remove_length
                      (Patterns.removeFences body)) as L2.
        pose proof (removeFences_length body) as L3.
        rewrite Hc in L1. lia. }
      destruct L as [L1 L2]. apply removeFences_same_length in L1.
      rewrite L1 in L2. split.
      * now apply metadataBlockRegex_remove_same_length.
      * now apply removeFences_fixed.
    + intros [Hn Hf]. apply removeFences_fixed in Hf.
      unfold Renderer.mermaidCodeOf. rewrite Hf.
      rewrite (metadataContent_of_none _ Hn).
      rewrite (metadataBlockRegex_remove_none _ Hn). now rewrite Hb.
  - unfold Remark.extract. cbn [snd].
    set (body := Remark.mermaidCodeOf raw).
    assert (Hb : trim body = body) by apply trim_idem.
    split.
    + intros H. apply (f_equal snd) in H. cbn [snd] in H.
      rename H into Hc. unfold Remark.mermaidCodeOf in Hc.
      apply metadataBlockRegex_remove_same_length.
      pose proof (trim_length (Patterns.metadataBlockRegex_remove body)) as L1.
      pose proof (metadataBlockRegex_remove_length body) as L2.
      rewrite Hc in L1. lia.
    + intros Hn. unfold Remark.mermaidCodeOf.
      rewrite (metadataContent_of_none _ Hn).
      rewrite (metadataBlockRegex_remove_none _ Hn).
      now rewrite Hb, metadataOf_empty.
Qed.

(** C4.  The header is looked for anywhere in a block, not at its top.  The
    diagram below has no header and two links written [---]: the renderer
    and the transformer both take what lies between the links for the
    header and remove it, so that the diagram that is hashed and written
    for the renderer is [graph TD / A  D].  A block that has a header and
    such a body shows that extraction is not idempotent: the first
    extraction removes the header, a second one the text between the
    links. *)
Lemma extract_takes_links_for_header :
  Renderer.extract
    (fencedBlock (unlines ["graph TD"; "A --- B"; "C --- D"]%string))
  = (unlines [" B"; "C "]%string, unlines ["graph TD"; "A  D"]%string)
  /\ snd (Remark.extract (unlines ["graph TD"; "A --- B"; "C --- D"]%string))
     = unlines ["graph TD"; "A  D"]%string
  /\ Patterns.metadataContent_of
       (unlines ["graph TD"; "A --- B"; "C --- D"]%string)
     = unlines [" B"; "C "]%string
  /\ List.map Renderer.mermaidCode
              (Renderer.plan
                 joinWithSlash sampleOptions
                 [Renderer.mkDocFile
                    (lit "docs/intro.md")
                    (fencedBlock
                       (unlines ["graph TD"; "A --- B"; "C --- D"]%string))])
     = [unlines ["graph TD"; "A  D"]%string]
  /\ snd (Renderer.extract
            (fencedBlock
               (unlines ["---"; "id: flow"; "---";
                         "graph TD"; "A --- B"; "C --- D"]%string)))
     = unlines ["graph TD"; "A --- B"; "C --- D"]%string
  /\ Renderer.extract
       (snd (Renderer.extract
               (fencedBlock
                  (unlines ["---"; "id: flow"; "---";
                            "graph TD"; "A --- B"; "C --- D"]%string))))
     = (unlines [" B"; "C "]%string, unlines ["graph TD"; "A  D"]%string)
  /\ snd (Remark.extract
            (snd (Remark.extract
                    (unlines ["---"; "id: flow"; "---";
                              "graph TD"; "A --- B"; "C --- D"]%string))))
     = unlines ["graph TD"; "A  D"]%string.
Proof.
  repeat split; vm_compute; reflexivity.
Qed.

(* ================================================================== *)
(** * The transformer and the renderer on the same block *)
(* ================================================================== *)

Section AgreementFacts.

Import Patterns.

Lemma startsWith_nil (p : jsstring) : p <> [] -> startsWith p [] = false.
Proof. destruct p; [congruence|reflexivity]. Qed.

(** A pattern cannot reach into text that starts with a unit it lacks. *)
Lemma startsWith_app_tail (p s : jsstring) (q : char) (Q : jsstring) :
  ~ In q p -> startsWith p (s ++ q :: Q) = startsWith p s.
Proof.
  revert s. induction p as [|a p IH]; intros s H; [reflexivity|].
  destruct s as [|b s]; simpl.
  - destruct (N.eqb_spec a q) as [->|_]; [|reflexivity].
    exfalso. apply H. now left.
  - rewrite IH; [reflexivity|]. intros Hq. apply H. now right.
Qed.

Lemma skipn_app_startsWith (p s Q : jsstring) :
  startsWith p s = true ->
  skipn (List.length p) (s ++ Q) = skipn (List.length p) s ++ Q.
Proof.
  intros H. destruct (proj1 (startsWith_iff p s) H) as [r ->].
  rewrite <- app_assoc.
  rewrite !skipn_app, !skipn_all, Nat.sub_diag. reflexivity.
Qed.

Lemma splitFirst_app_tail (p s : jsstring) (q : char) (Q : jsstring) :
  ~ In q p -> p <> [] -> splitFirst p (q :: Q) = None ->
  splitFirst p (s ++ q :: Q) =
  match splitFirst p s with
  | Some (a, b) => Some (a, b ++ q :: Q)
  | None => None
  end.
Proof.
  intros Hq Hp HQ. induction s as [|c t IH].
  - simpl app. rewrite HQ. simpl. now rewrite (startsWith_nil _ Hp).
  - change ((c :: t) ++ q :: Q) with (c :: (t ++ q :: Q)).
    rewrite !splitFirst_cons.
    change (c :: (t ++ q :: Q)) with ((c :: t) ++ q :: Q).
    rewrite (startsWith_app_tail p (c :: t) q Q Hq).
    destruct (startsWith p (c :: t)) eqn:E.
    + now rewrite (skipn_app_startsWith _ _ (q :: Q) E).
    + rewrite IH. now destruct (splitFirst p t) as [[a b]|].
Qed.

Lemma splitFirst_app_head (P p s : jsstring) :
  Forall (fun c => ~ In c p) P -> p <> [] ->
  splitFirst p (P ++ s) =
  match splitFirst p s with
  | Some (a, b) => Some (P ++ a, b)
  | None => None
  end.
Proof.
  intros HP Hp. induction HP as [|c P Hc _ IH].
  - simpl app. now destruct (splitFirst p s) as [[a b]|].
  - change ((c :: P) ++ s) with (c :: (P ++ s)). rewrite splitFirst_cons.
    assert (E : startsWith p (c :: (P ++ s)) = false).
    { destruct p as [|a p]; [congruence|]. simpl.
      destruct (N.eqb_spec a c) as [->|_]; [|reflexivity].
      exfalso. apply Hc. now left. }
    rewrite E, IH. now destruct (splitFirst p s) as [[a b]|].
Qed.

(** Text without dashes around a string leaves its header where it is. *)
Lemma metadataBlockRegex_exec_padded (P s : jsstring) (q : char) (Q : jsstring) :
  Forall (fun c => ~ In c dashes) P ->
  ~ In q dashes -> splitFirst dashes (q :: Q) = None ->
  metadataBlockRegex_exec (P ++ s ++ q :: Q) =
  match metadataBlockRegex_exec s with
  | Some (pre, cap, post) => Some (P ++ pre, cap, post ++ q :: Q)
  | None => None
  end.
Proof.
  intros HP Hq HQ. assert (Hd : dashes <> []) by discriminate.
  unfold metadataBlockRegex_exec.
  rewrite (splitFirst_app_head P dashes _ HP Hd).
  rewrite (splitFirst_app_tail dashes s q Q Hq Hd HQ).
  destruct (splitFirst dashes s) as [[a rest]|]; [|reflexivity].
  rewrite (splitFirst_app_tail dashes rest q Q Hq Hd HQ).
  now destruct (splitFirst dashes rest) as [[c b]|].
Qed.

Lemma notIn_dashes (c : char) : c <> 45%N -> ~ In c dashes.
Proof.
  intros H Hin. change dashes with [45; 45; 45]%N in Hin.
  simpl in Hin. intuition congruence.
Qed.

Lemma removeFences_aux_body (v : jsstring) :
  includes fence v = false ->
  removeFences_aux 0 (v ++ nl ++ fence) = v ++ nl.
Proof.
  induction v as [|c t IH]; intros H; [reflexivity|].
  apply includes_cons_false in H. destruct H as [H1 H2].
  change ((c :: t) ++ nl ++ fence) with ((c :: t) ++ 10%N :: fence).
  change (((c :: t) ++ 10%N :: fence)) with (c :: (t ++ 10%N :: fence)).
  rewrite removeFences_aux_cons.
  change (c :: (t ++ 10%N :: fence)) with ((c :: t) ++ 10%N :: fence).
  assert (E : startsWith fence ((c :: t) ++ 10%N :: fence) = false).
  { rewrite startsWith_app_tail; [exact H1|].
    change fence with [96; 96; 96]%N. simpl. intuition discriminate. }
  rewrite (startsWith_fenceMermaid_fence _ E), E.
  simpl app. f_equal. now apply IH.
Qed.

Lemma removeFences_fencedBlock (v : jsstring) :
  includes fence v = false -> removeFences (fencedBlock v) = nl ++ v ++ nl.
Proof.
  intros H. unfold removeFences, fencedBlock.
  change (removeFences_aux 0 (fenceMermaid ++ nl ++ v ++ nl ++ fence))
    with (10%N :: removeFences_aux 0 (v ++ nl ++ fence)).
  now rewrite removeFences_aux_body.
Qed.

Lemma metadataContent_of_fencedBlock (v : jsstring) :
  metadataContent_of (fencedBlock v) = metadataContent_of v.
Proof.
  unfold metadataContent_of, fencedBlock.
  replace (fenceMermaid ++ nl ++ v ++ nl ++ fence)
    with ((fenceMermaid ++ nl) ++ v ++ 10%N :: fence)
    by (now rewrite <- app_assoc).
  rewrite metadataBlockRegex_exec_padded.
  - now destruct (metadataBlockRegex_exec v) as [[[pre cap] post]|].
  - repeat constructor; apply notIn_dashes; discriminate.
  - apply notIn_dashes; discriminate.
  - reflexivity.
Qed.

Lemma mermaidCodeOf_fencedBlock (v : jsstring) :
  includes fence v = false ->
  Renderer.mermaidCodeOf (fencedBlock v) = Remark.mermaidCodeOf v.
Proof.
  intros H. unfold Renderer.mermaidCodeOf, Remark.mermaidCodeOf.
  rewrite (removeFences_fencedBlock v H).
  unfold metadataBlockRegex_remove.
  change (nl ++ v ++ nl) with (nl ++ v ++ 10%N :: []).
  rewrite metadataBlockRegex_exec_padded.
  - destruct (metadataBlockRegex_exec v) as [[[pre cap] post]|].
    + change (nl ++ pre) with (10%N :: pre). simpl app.
      rewrite app_assoc. now apply trim_padded.
    + change (nl ++ v ++ [10%N]) with (10%N :: v ++ [10%N]).
      now apply trim_padded.
  - repeat constructor; apply notIn_dashes; discriminate.
  - apply notIn_dashes; discriminate.
  - reflexivity.
Qed.

Lemma idOf_fencedBlock (v : jsstring) :
  includes fence v = false -> Renderer.idOf (fencedBlock v) = Remark.idOf v.
Proof.
  intros H. unfold Renderer.idOf, Remark.idOf, Renderer.derive.
  now rewrite metadataContent_of_fencedBlock, mermaidCodeOf_fencedBlock.
Qed.

End AgreementFacts.

Section FigureFacts.

Import Remark.

Variable store : Store.StoreOptions.

Lemma imageSources_figureNode (md : Metadata) (id code filePath : jsstring) :
  imageSources (figureNode store true md id code filePath) =
  if Store.renderDualThemes store then
    [srcOf store (filenameOf store id (localeOf store filePath)
                             (Store.light (Store.outputSuffixes store)));
     srcOf store (filenameOf store id (localeOf store filePath)
                             (Store.dark (Store.outputSuffixes store)))]
  else
    [srcOf store (filenameOf store id (localeOf store filePath)
                             (template (Store.defaultThemeSuffix store)))].
Proof.
  unfold figureNode, imageSources, childrenNodes.
  rewrite flat_map_app.
  replace (flat_map _ (if truthy (md_caption md) then _ else []))
    with (@nil jsstring) by (destruct (truthy (md_caption md)); reflexivity).
  rewrite app_nil_r.
  destruct (Store.renderDualThemes store); reflexivity.
Qed.

End FigureFacts.

(** C9 at a block that holds [```] inside a line.  The markdown source is a
    fenced code block whose closing fence is its last line, so the value of
    the [code] node is the two lines between the fences.  The transformer
    references the image named after the digest of that value; the scanner's
    pattern stops at the first [```], the renderer hashes the text before it
    and writes a file of another name. *)
Lemma transformer_disagrees_on_inner_fence :
  let value := unlines ["graph TD"; "  A[use ``` fences] --> B"]%string in
  let merged := Index.defaults 4 in
  let theme := Index.mkTheme (lit "neutral") (lit "-light") in
  Index.themesToRender merged sampleContext = [theme]
  /\ imageSources
       (Remark.visitCode (Index.storeOptions joinWithSlash merged sampleContext)
                         true (lit "/site/docs/intro.md") (lit "mermaid") value)
     = [lit "/base/img/diagrams/1ce2e90fed-en-light.svg"]
  /\ List.map Renderer.filename
       (Renderer.plan joinWithSlash
          (Index.renderOptions joinWithSlash merged sampleContext None
                               (lit "/tmp/mermaid") theme)
          [Renderer.mkDocFile (lit "docs/intro.md") (fencedBlock value)])
     = [lit "05a1284416-en-light.svg"]
  /\ Remark.idOf value <> Renderer.idOf (fencedBlock value).
Proof.
  cbv zeta. split; [vm_compute; reflexivity|].
  split; [vm_compute; reflexivity|].
  split; [vm_compute; reflexivity|].
  vm_compute. discriminate.
Qed.

(* ================================================================== *)
(** * Deduplication *)
(* ================================================================== *)

Section DistinctFacts.

Variable A : Type.
Variable eqb : A -> A -> bool.
Hypothesis eqb_spec : forall x y, eqb x y = true <-> x = y.

Lemma eqb_spec_false (x y : A) : eqb x y = false <-> x <> y.
Proof. rewrite <- eqb_spec. destruct (eqb x y); split; congruence. Qed.

Lemma existsb_eqb (x : A) (l : list A) :
  existsb (eqb x) l = true <-> In x l.
Proof.
  rewrite existsb_exists. split.
  - intros (y & Hy & E). apply eqb_spec in E. now subst.
  - intros H. exists x. split; [assumption|]. now apply eqb_spec.
Qed.

Lemma distinct_In (x : A) (l : list A) : In x (distinct eqb l) <-> In x l.
Proof.
  induction l as [|a l IH]; simpl; [tauto|].
  rewrite filter_In, IH. split.
  - intros [H|[H _]]; auto.
  - intros [H|H]; [now left|].
    destruct (eqb a x) eqn:E.
    + left. now apply eqb_spec.
    + right. now split.
Qed.

Lemma distinct_NoDup (l : list A) : NoDup (distinct eqb l).
Proof.
  induction l as [|a l IH]; simpl; constructor.
  - rewrite filter_In. intros [_ H].
    assert (E : eqb a a = true) by now apply eqb_spec.
    rewrite E in H. discriminate.
  - now apply NoDup_filter.
Qed.

Lemma filter_snoc (f : A -> bool) (l : list A) (x : A) :
  filter f (l ++ [x]) = filter f l ++ (if f x then [x] else []).
Proof. now rewrite filter_app. Qed.


(** A new last element is distinct exactly when it did not occur before. *)
Lemma distinct_snoc (l : list A) (x : A) :
  distinct eqb (l ++ [x]) =
  if existsb (eqb x) l then distinct eqb l else distinct eqb l ++ [x].
Proof.
  induction l as [|a l IH]; simpl; [reflexivity|].
  rewrite IH. destruct (eqb x a) eqn:E; simpl.
  - apply eqb_spec in E. subst a.
    destruct (existsb (eqb x) l); [reflexivity|].
    rewrite filter_snoc.
    assert (E : eqb x x = true) by now apply eqb_spec.
    rewrite E. simpl. now rewrite app_nil_r.
  - destruct (existsb (eqb x) l); [reflexivity|].
    rewrite filter_snoc.
    assert (E' : eqb a x = false).
    { apply eqb_spec_false. apply eqb_spec_false in E. congruence. }
    now rewrite E'.
Qed.

End DistinctFacts.

Section ImageFacts.

Variables A B : Type.
Variable eqbA : A -> A -> bool.
Variable eqbB : B -> B -> bool.
Hypothesis eqbA_spec : forall x y, eqbA x y = true <-> x = y.
Hypothesis eqbB_spec : forall x y, eqbB x y = true <-> x = y.
Variable g : A -> B.

(** A function has at most as many distinct values as distinct arguments. *)
Lemma distinct_map_le (l : list A) :
  List.length (distinct eqbB (List.map g l))
  <= List.length (distinct eqbA l).
Proof.
  rewrite <- (length_map g (distinct eqbA l)).
  apply NoDup_incl_length; [now apply distinct_NoDup|].
  intros y Hy. apply (proj1 (distinct_In _ eqbB eqbB_spec _ _)) in Hy.
  apply in_map_iff in Hy. destruct Hy as (x & <- & Hx).
  apply in_map. now apply (proj2 (distinct_In _ eqbA eqbA_spec _ _)).
Qed.

(** And as many when it is injective on them. *)
Lemma distinct_map_eq (l : list A) :
  (forall x y, In x l -> In y l -> g x = g y -> x = y) ->
  List.length (distinct eqbB (List.map g l))
  = List.length (distinct eqbA l).
Proof.
  intros Hinj. apply Nat.le_antisymm; [apply distinct_map_le|].
  rewrite <- (length_map g (distinct eqbA l)).
  apply NoDup_incl_length.
  - assert (Hd : NoDup (distinct eqbA l)) by now apply distinct_NoDup.
    assert (Hi : forall x, In x (distinct eqbA l) -> In x l)
      by (intros x; apply (proj1 (distinct_In _ eqbA eqbA_spec _ _))).
    induction Hd as [|x d Hx Hd IH]; simpl; constructor.
    + intros Hin. apply in_map_iff in Hin. destruct Hin as (y & E & Hy).
      assert (y = x).
      { apply Hinj; [apply Hi; now right | apply Hi; now left | exact E]. }
      subst y. contradiction.
    + apply IH. intros y Hy. apply Hi. now right.
  - intros y Hy. apply in_map_iff in Hy. destruct Hy as (x & <- & Hx).
    apply (proj2 (distinct_In _ eqbB eqbB_spec _ _)). apply in_map.
    now apply (proj1 (distinct_In _ eqbA eqbA_spec _ _)) in Hx.
Qed.

End ImageFacts.

Lemma tripleEqb_spec (a b : Triple) : tripleEqb a b = true <-> a = b.
Proof.
  destruct a as [[a1 a2] a3], b as [[b1 b2] b3]. unfold tripleEqb. simpl.
  rewrite !andb_true_iff, !eqb_eq. split.
  - intros [[-> ->] ->]. reflexivity.
  - intros H. injection H as -> -> ->. auto.
Qed.

Section MapFacts.

Import Renderer.

Variable V : Type.

Lemma map_set_keys (k : jsstring) (v : V) (m : JsMap V) :
  List.map fst (map_set k v m) =
  if existsb (JS.eqb k) (List.map fst m) then List.map fst m
  else List.map fst m ++ [k].
Proof.
  induction m as [|[k' v'] m IH]; simpl; [reflexivity|].
  destruct (JS.eqb k' k) eqn:E.
  - apply eqb_eq in E. subst k'. simpl. now rewrite eqb_refl.
  - simpl. rewrite IH.
    assert (E' : JS.eqb k k' = false).
    { apply eqb_neq. apply eqb_neq in E. congruence. }
    rewrite E'. simpl. now destruct (existsb (JS.eqb k) (List.map fst m)).
Qed.

Lemma map_get_set (k k' : jsstring) (v : V) (m : JsMap V) :
  map_get k' (map_set k v m) =
  if JS.eqb k k' then Some v else map_get k' m.
Proof.
  induction m as [|[k0 v0] m IH]; simpl.
  - reflexivity.
  - destruct (JS.eqb k0 k) eqn:E; simpl.
    + apply eqb_eq in E. subst k0. now destruct (JS.eqb k k').
    + destruct (JS.eqb k0 k') eqn:E'.
      * apply eqb_eq in E'. subst k0.
        assert (E2 : JS.eqb k k' = false).
        { apply eqb_neq. apply eqb_neq in E. congruence. }
        now rewrite E2.
      * exact IH.
Qed.

Lemma lastEntry_snoc (k k' : jsstring) (v : V) (l : list (jsstring * V)) :
  lastEntry k' (l ++ [(k, v)]) =
  if JS.eqb k k' then Some v else lastEntry k' l.
Proof.
  induction l as [|[k0 v0] l IH]; simpl.
  - reflexivity.
  - rewrite IH. now destruct (JS.eqb k k').
Qed.

Lemma map_of_entries_snoc (l : list (jsstring * V)) (k : jsstring) (v : V) :
  map_of_entries (l ++ [(k, v)]) = map_set k v (map_of_entries l).
Proof. unfold map_of_entries. now rewrite fold_left_app. Qed.

(** The keys of the map are the distinct keys of the entries, by first
    insertion. *)
Lemma map_of_entries_keys (l : list (jsstring * V)) :
  List.map fst (map_of_entries l) = distinct JS.eqb (List.map fst l).
Proof.
  induction l as [|[k v] l IH] using rev_ind; [reflexivity|].
  rewrite map_of_entries_snoc, map_set_keys, IH, map_app.
  simpl List.map. rewrite (distinct_snoc _ JS.eqb eqb_eq).
  replace (existsb (JS.eqb k) (distinct JS.eqb (List.map fst l)))
    with (existsb (JS.eqb k) (List.map fst l)); [reflexivity|].
  apply eq_true_iff_eq.
  rewrite !(existsb_eqb _ JS.eqb eqb_eq). symmetry.
  apply (distinct_In _ JS.eqb eqb_eq).
Qed.

(** The map gives for a key the value of its last entry. *)
Lemma map_of_entries_get (k : jsstring) (l : list (jsstring * V)) :
  map_get k (map_of_entries l) = lastEntry k l.
Proof.
  induction l as [|[k0 v0] l IH] using rev_ind; [reflexivity|].
  now rewrite map_of_entries_snoc, map_get_set, lastEntry_snoc, IH.
Qed.

Lemma map_get_In (k : jsstring) (v : V) (m : JsMap V) :
  NoDup (List.map fst m) -> In (k, v) m -> map_get k m = Some v.
Proof.
  induction m as [|[k0 v0] m IH]; simpl; intros Hn Hin; [contradiction|].
  inversion Hn as [|? ? Hk Hn']; subst.
  destruct Hin as [E|Hin].
  - injection E as -> ->. now rewrite eqb_refl.
  - destruct (JS.eqb k0 k) eqn:E.
    + apply eqb_eq in E. subst k0. exfalso. apply Hk.
      apply in_map_iff. now exists (k, v).
    + now apply IH.
Qed.

(** The last entry of a key has no entry of that key after it. *)
Lemma lastEntry_split (k : jsstring) (v : V) (l : list (jsstring * V)) :
  lastEntry k l = Some v ->
  exists before after,
    l = before ++ (k, v) :: after
    /\ forall e, In e after -> fst e <> k.
Proof.
  induction l as [|[k0 v0] l IH]; simpl; [discriminate|].
  destruct (lastEntry k l) as [v'|] eqn:E.
  - intros H. injection H as ->.
    destruct (IH eq_refl) as (before & after & -> & Ha).
    exists ((k0, v0) :: before), after. now split.
  - destruct (JS.eqb k0 k) eqn:E0; [|discriminate].
    intros H. injection H as ->. apply eqb_eq in E0. subst k0.
    exists [], l. split; [reflexivity|].
    intros [k1 v1] Hin Hk. simpl in Hk. subst k1.
    clear IH. induction l as [|[k2 v2] l IH]; [contradiction|].
    simpl in E. destruct (lastEntry k l) eqn:E'; [discriminate|].
    destruct Hin as [Heq|Hin].
    + injection Heq as -> ->. now rewrite eqb_refl in E.
    + now apply IH.
Qed.

End MapFacts.

Section UniqueFacts.

Import Renderer.

Lemma uniqueTasks_filenames (tasks : list Task) :
  List.map filename (uniqueTasks tasks)
  = distinct JS.eqb (List.map filename tasks).
Proof.
  unfold uniqueTasks, map_values.
  set (entries := List.map (fun t => (filename t, t)) tasks).
  assert (Hk : List.map fst entries = List.map filename tasks).
  { unfold entries. rewrite map_map. reflexivity. }
  rewrite <- Hk, <- map_of_entries_keys.
  rewrite map_map. apply map_ext_in. intros [k t] Hin. simpl.
  assert (Hn : NoDup (List.map fst (map_of_entries entries))).
  { rewrite map_of_entries_keys. apply distinct_NoDup, eqb_eq. }
  pose proof (map_get_In _ k t _ Hn Hin) as Hg.
  rewrite map_of_entries_get in Hg.
  apply lastEntry_split in Hg. destruct Hg as (before & after & E & _).
  assert (Hin' : In (k, t) entries) by (rewrite E; apply in_elt).
  unfold entries in Hin'. apply in_map_iff in Hin'.
  destruct Hin' as (t' & Ht' & _). now injection Ht' as <- <-.
Qed.

(** Every surviving task is the last one scanned with its file name. *)
Lemma uniqueTasks_last (tasks : list Task) (u : Task) :
  In u (uniqueTasks tasks) ->
  exists before after,
    tasks = before ++ u :: after
    /\ forall t, In t after -> filename t <> filename u.
Proof.
  unfold uniqueTasks, map_values.
  set (entries := List.map (fun t => (filename t, t)) tasks).
  intros Hin. apply in_map_iff in Hin. destruct Hin as ([k t] & E & Hin).
  simpl in E. subst t.
  assert (Hn : NoDup (List.map fst (map_of_entries entries))).
  { rewrite map_of_entries_keys. apply distinct_NoDup, eqb_eq. }
  pose proof (map_get_In _ k u _ Hn Hin) as Hg.
  rewrite map_of_entries_get in Hg.
  apply lastEntry_split in Hg. destruct Hg as (before & after & E & Ha).
  unfold entries in E.
  apply map_eq_app in E. destruct E as (tb & rest & -> & Hb & Hr).
  apply map_eq_cons in Hr. destruct Hr as (u' & ta & -> & Hu & Hta).
  injection Hu as Hk ->. exists tb, ta. split; [reflexivity|].
  intros t Ht. subst after k.
  apply (Ha (filename t, t)). apply in_map_iff. now exists t.
Qed.

Variable path_join : jsstring -> jsstring -> jsstring.
Variable options : Options.

(** The file name of a scanned task is made of its identity and locale. *)
Lemma diagramTasks_filename (docFiles : list DocFile) (t : Task) :
  In t (diagramTasks path_join options docFiles) ->
  filename t = filenameOf (id t) (locale t) (outputSuffix options)
                          (outputFormat options).
Proof.
  unfold diagramTasks. intros H. apply in_flat_map in H.
  destruct H as (f & _ & H). unfold tasksOfFile in H.
  destruct (Patterns.draftRegex_test (content f)); [contradiction|].
  apply in_flat_map in H. destruct H as (b & _ & H).
  unfold taskOfBlock in H.
  destruct (Patterns.prerenderRegex_test (Patterns.metadataContent_of b));
    [contradiction|].
  destruct H as [<-|[]]. reflexivity.
Qed.

End UniqueFacts.

(** C2, as amended.  The plan has one task per file name: the file names of
    the plan are the distinct file names of the scanned tasks in the order of
    their first occurrences, so the plan is at most as long as there are
    distinct (identity, locale, variant) triples, and exactly as long when no
    two different triples give the same file name.  A task of the plan is the
    last scanned task of its file name. *)
Theorem plan_deduplicates
    (path_join : jsstring -> jsstring -> jsstring)
    (options : Renderer.Options) (docFiles : list Renderer.DocFile) :
  NoDup (List.map Renderer.filename (Renderer.plan path_join options docFiles))
  /\ List.map Renderer.filename (Renderer.plan path_join options docFiles)
     = distinct JS.eqb
         (List.map Renderer.filename
                   (Renderer.diagramTasks path_join options docFiles))
  /\ List.length (Renderer.plan path_join options docFiles)
     <= List.length
          (distinct tripleEqb
             (List.map (tripleOf options)
                       (Renderer.diagramTasks path_join options docFiles)))
  /\ ((forall t1 t2,
         In t1 (Renderer.diagramTasks path_join options docFiles) ->
         In t2 (Renderer.diagramTasks path_join options docFiles) ->
         Renderer.filename t1 = Renderer.filename t2 ->
         tripleOf options t1 = tripleOf options t2) ->
      List.length (Renderer.plan path_join options docFiles)
      = List.length
          (distinct tripleEqb
             (List.map (tripleOf options)
                       (Renderer.diagramTasks path_join options docFiles))))
  /\ (forall u,
        In u (Renderer.plan path_join options docFiles) ->
        exists before after,
          Renderer.diagramTasks path_join options docFiles
          = before ++ u :: after
          /\ forall t, In t after -> Renderer.filename t <> Renderer.filename u).
Proof.
  unfold Renderer.plan.
  set (tasks := Renderer.diagramTasks path_join options docFiles).
  pose (g := fun tr : Triple =>
               Renderer.filenameOf (fst (fst tr)) (snd (fst tr))
                                   (Renderer.outputSuffix options)
                                   (Renderer.outputFormat options)).
  assert (Hg : List.map Renderer.filename tasks
               = List.map g (List.map (tripleOf options) tasks)).
  { rewrite map_map. apply map_ext_in. intros t Ht.
    now apply (diagramTasks_filename path_join options docFiles). }
  assert (Hlen : List.length (Renderer.uniqueTasks tasks)
                 = List.length (distinct JS.eqb
                                         (List.map Renderer.filename tasks))).
  { rewrite <- uniqueTasks_filenames. now rewrite length_map. }
  split; [rewrite uniqueTasks_filenames; apply distinct_NoDup, eqb_eq|].
  split; [apply uniqueTasks_filenames|].
  split.
  { rewrite Hlen, Hg.
    apply distinct_map_le; [apply tripleEqb_spec|apply eqb_eq]. }
  split; [|apply uniqueTasks_last].
  intros Hinj. rewrite Hlen, Hg.
  apply distinct_map_eq; [apply tripleEqb_spec|apply eqb_eq|].
  intros x y Hx Hy E.
  apply in_map_iff in Hx, Hy.
  destruct Hx as (t1 & <- & H1), Hy as (t2 & <- & H2).
  apply Hinj; [assumption|assumption|].
  rewrite (diagramTasks_filename path_join options docFiles t1 H1).
  rewrite (diagramTasks_filename path_join options docFiles t2 H2).
  exact E.
Qed.

(** C2, as stated, fails: the blocks of the two files below have different
    identities, [flow-pt] under the locale [BR] and [flow] under the locale
    [pt-BR]; these are two triples and one file name, [flow-pt-BR.svg], and
    the plan keeps the later block only. *)
Lemma plan_shorter_than_triples :
  let block (i : string) :=
    unlines ["```mermaid"; "---"; i; "---"; "graph TD"; "  A-->B"; "```"]%string in
  let docFiles :=
    [Renderer.mkDocFile
       (lit "i18n/BR/docusaurus-plugin-content-docs/current/intro.md")
       (block "id: flow-pt"%string);
     Renderer.mkDocFile
       (lit "i18n/pt-BR/docusaurus-plugin-content-docs/current/intro.md")
       (block "id: flow"%string)] in
  List.map Renderer.id
           (Renderer.diagramTasks joinWithSlash sampleOptions docFiles)
  = [lit "flow-pt"; lit "flow"]
  /\ List.length
       (distinct tripleEqb
          (List.map (tripleOf sampleOptions)
                    (Renderer.diagramTasks joinWithSlash sampleOptions docFiles)))
     = 2
  /\ List.map (fun t => (Renderer.filename t, Renderer.locale t))
              (Renderer.plan joinWithSlash sampleOptions docFiles)
     = [(lit "flow-pt-BR.svg", lit "pt-BR")]
  /\ List.length (Renderer.plan joinWithSlash sampleOptions docFiles)
     <> List.length
          (distinct tripleEqb
             (List.map (tripleOf sampleOptions)
                       (Renderer.diagramTasks joinWithSlash sampleOptions
                                              docFiles))).
Proof.
  cbv zeta. split; [vm_compute; reflexivity|].
  split; [vm_compute; reflexivity|].
  split; [vm_compute; reflexivity|].
  vm_compute. discriminate.
Qed.

(** The amended equality at the two blocks of the spec's example: the
    identities [a] and [b] under the locale [en]. *)
Lemma plan_deduplicates_example :
  let block (i : string) :=
    unlines ["```mermaid"; "---"; i; "---"; "graph TD"; "  A-->B"; "```"]%string in
  let docFiles :=
    [Renderer.mkDocFile (lit "docs/intro.md")
                        (block "id: a"%string ++ nl ++ block "id: b"%string)] in
  List.length (Renderer.plan joinWithSlash sampleOptions docFiles)
  = List.length
      (distinct tripleEqb
         (List.map (tripleOf sampleOptions)
                   (Renderer.diagramTasks joinWithSlash sampleOptions docFiles)))
  /\ List.map Renderer.filename
              (Renderer.plan joinWithSlash sampleOptions docFiles)
     = [lit "a-en.svg"; lit "b-en.svg"].
Proof.
  cbv zeta. split; [|vm_compute; reflexivity].
  apply plan_deduplicates.
  intros t1 t2 H1 H2.
  vm_compute in H1, H2.
  destruct H1 as [<-|[<-|[]]], H2 as [<-|[<-|[]]];
    intros E; try reflexivity; vm_compute in E; discriminate E.
Defined.

(* ================================================================== *)
(** * Scanning *)
(* ================================================================== *)

Section ScanningFacts.

Import Patterns.

(** The fuel of [mermaidBlocks] is enough: more of it finds no other
    matches. *)
Lemma mermaidBlocks_from_enough (f1 f2 : nat) (s : jsstring) :
  List.length s <= f1 -> List.length s <= f2 ->
  mermaidBlocks_from f1 s = mermaidBlocks_from f2 s.
Proof.
  revert f2 s. induction f1 as [|f1 IH]; intros f2 s H1 H2.
  - destruct s; [|simpl in H1; lia]. now destruct f2.
  - destruct f2 as [|f2].
    + destruct s; [reflexivity|simpl in H2; lia].
    + simpl.
      destruct (splitFirst fenceMermaid s) as [[a rest]|] eqn:E1;
        [|reflexivity].
      destruct (splitFirst fence rest) as [[inner post]|] eqn:E2;
        [|reflexivity].
      f_equal. apply splitFirst_some in E1, E2. subst rest s.
      rewrite !length_app in H1, H2.
      change (List.length fenceMermaid) with 10 in H1, H2.
      change (List.length fence) with 3 in H1, H2.
      apply IH; lia.
Qed.

End ScanningFacts.

(** The digest on the test suite of RFC 1321 and on a string outside
    ASCII. *)
Example md5_hex_empty :
  Crypto.md5_hex [] = lit "d41d8cd98f00b204e9800998ecf8427e".
Proof. vm_compute. reflexivity. Qed.

Example md5_hex_abc :
  Crypto.md5_hex (lit "abc") = lit "900150983cd24fb0d6963f7d28e17f72".
Proof. vm_compute. reflexivity. Qed.

Example md5_hex_alphabet :
  Crypto.md5_hex (lit "abcdefghijklmnopqrstuvwxyz")
  = lit "c3fcd3d76192e4007dfb496cca67e13b".
Proof. vm_compute. reflexivity. Qed.

Example md5_hex_two_blocks :
  Crypto.md5_hex
    (lit "12345678901234567890123456789012345678901234567890123456789012345678901234567890")
  = lit "57edf4a22be3c955ac49da2e2107b67a".
Proof. vm_compute. reflexivity. Qed.

Example md5_hex_utf8 :
  Crypto.md5_hex [0xE9; 0x20AC; 0xD83D; 0xDE00]%N
  = lit "3b07a39fef0ac5d7ef21575e7315a482".
Proof. vm_compute. reflexivity. Qed.

(* ================================================================== *)
(** * The render pool *)
(* ================================================================== *)

Section HostFacts.

Import Host Execute.

Variable stub : Stub.

Lemma addEvents_nil (s : State) : addEvents [] s = s.
Proof. destruct s. unfold addEvents. simpl. now rewrite app_nil_r. Qed.

Lemma addEvents_addEvents (a b : list Event) (s : State) :
  addEvents b (addEvents a s) = addEvents (a ++ b) s.
Proof. unfold addEvents. simpl. now rewrite app_assoc. Qed.

Lemma addEvents_withWorld (a : list Event) (w : World) (s : State) :
  addEvents a (withWorld w s) = withWorld w (addEvents a s).
Proof. reflexivity. Qed.

Lemma bind_normal {A B} (m : M A) (k : A -> M B) (s s' : State) (a : A) :
  m s = (Normal a, s') -> bind m k s = k a s'.
Proof. unfold bind. now intros ->. Qed.

Lemma bind_throw {A B} (m : M A) (k : A -> M B) (s s' : State) (e : Error) :
  m s = (Throw e, s') -> bind m k s = (Throw e, s').
Proof. unfold bind. now intros ->. Qed.

Lemma emit_eq (e : Event) (s : State) :
  emit e s = (Normal tt, addEvents [e] s).
Proof. reflexivity. Qed.

Lemma console_error_if_eq (out : option jsstring) (s : State) :
  console_error_if out s = (Normal tt, addEvents (consoleOut out) s).
Proof.
  destruct out as [[|c t]|]; simpl; try reflexivity;
    unfold ret; now rewrite addEvents_nil.
Qed.

Lemma fs_access_hit (path data : jsstring) (s : State) :
  world s path = Some data ->
  fs_access path s = (Normal tt, addEvents [FsAccess path true] s).
Proof. intros H. unfold fs_access, bind, getWorld. now rewrite H. Qed.

Lemma fs_access_miss (path : jsstring) (s : State) :
  world s path = None ->
  fs_access path s
  = (Throw (fsError (lit "ENOENT") path), addEvents [FsAccess path false] s).
Proof. intros H. unfold fs_access, bind, getWorld. now rewrite H. Qed.

Lemma fs_writeFile_ok (path data : jsstring) (s : State) :
  writeFile_fault stub path = None ->
  fs_writeFile stub path data s
  = (Normal tt,
     addEvents [FsWriteFile path data true]
               (withWorld (putFile path data (world s)) s)).
Proof. intros H. unfold fs_writeFile. now rewrite H. Qed.

Lemma fs_writeFile_fault (path data : jsstring) (s : State) (e : Error) :
  writeFile_fault stub path = Some e ->
  fs_writeFile stub path data s
  = (Throw e, addEvents [FsWriteFile path data false] s).
Proof. intros H. unfold fs_writeFile. now rewrite H. Qed.

Lemma execAsync_ok (command input output source image : jsstring) (s : State) :
  world s input = Some source -> mmdc stub source = inr image ->
  execAsync stub command input output s
  = (Normal tt,
     addEvents [ExecAsync command true]
               (withWorld (putFile output image (world s)) s)).
Proof.
  intros H1 H2. unfold execAsync, bind, getWorld. now rewrite H1, H2.
Qed.

Lemma execAsync_fail (command input output source : jsstring) (e : Error)
    (s : State) :
  world s input = Some source -> mmdc stub source = inl e ->
  execAsync stub command input output s
  = (Throw e, addEvents [ExecAsync command false] s).
Proof.
  intros H1 H2. unfold execAsync, bind, getWorld. now rewrite H1, H2.
Qed.

Lemma fs_unlink_ok (path data : jsstring) (s : State) :
  unlink_fault stub path = None -> world s path = Some data ->
  fs_unlink stub path s
  = (Normal tt,
     addEvents [FsUnlink path true]
               (withWorld (removeFile path (world s)) s)).
Proof.
  intros H1 H2. unfold fs_unlink, bind, getWorld. now rewrite H1, H2.
Qed.

Lemma fs_unlink_fault (path : jsstring) (e : Error) (s : State) :
  unlink_fault stub path = Some e ->
  fs_unlink stub path s = (Throw e, addEvents [FsUnlink path false] s).
Proof. intros H. unfold fs_unlink. now rewrite H. Qed.

Lemma putFile_same (p d : jsstring) (w : World) : putFile p d w p = Some d.
Proof. unfold putFile. now rewrite eqb_refl. Qed.

Lemma putFile_other (p q d : jsstring) (w : World) :
  q <> p -> putFile p d w q = w q.
Proof. intros H. unfold putFile. apply eqb_neq in H. now rewrite H. Qed.

Lemma removeFile_other (p q : jsstring) (w : World) :
  q <> p -> removeFile p w q = w q.
Proof. intros H. unfold removeFile. apply eqb_neq in H. now rewrite H. Qed.

Lemma putFile_exists (p q d : jsstring) (w : World) :
  w q <> None -> putFile p d w q <> None.
Proof. unfold putFile. destruct (JS.eqb q p); [discriminate|auto]. Qed.

Lemma hostCalls_app (a b : list Event) :
  hostCalls (a ++ b) = hostCalls a ++ hostCalls b.
Proof. apply filter_app. Qed.

Lemma hostCalls_consoleOut (out : option jsstring) :
  hostCalls (consoleOut out) = [].
Proof. now destruct out as [[|c t]|]. Qed.

End HostFacts.

Ltac run_monad :=
  cbv beta iota zeta delta
    [Host.bind Host.try_catch Host.try_finally Host.ret Host.throw
     Execute.settle].

Ltac norm_state :=
  cbv beta iota delta
    [addEvents withWorld Host.world Host.renderedCount Host.skippedCount
     Host.trace].

Section PoolFacts.

Import Renderer Host Execute.

Variable path_join : jsstring -> jsstring -> jsstring.
Variable options : Options.
Variable stub : Stub.

(** A task whose output exists does one thing to the host: it looks for
    that output. *)
Lemma runTask_cached (task : Task) (s : State) :
  world s (outputPath task) <> None ->
  exists evs,
    runTask path_join options stub task s
    = (Normal tt,
       mkSt (world s) (renderedCount s) (S (skippedCount s))
            (trace s ++ evs))
    /\ hostCalls evs = [FsAccess (outputPath task) true].
Proof.
  intros H. destruct (world s (outputPath task)) as [d|] eqn:E; [|congruence].
  destruct s as [w r k tr].
  eexists. split.
  - unfold runTask. run_monad. rewrite (fs_access_hit _ _ _ E).
    unfold success, incr_skippedCount. rewrite emit_eq. run_monad.
    norm_state.
    rewrite <- app_assoc. reflexivity.
  - reflexivity.
Qed.

(** A task whose temporary file cannot be written stops there: its promise
    is rejected and nothing is deleted. *)
Lemma runTask_write_fault (task : Task) (s : State) (e : Error) :
  world s (outputPath task) = None ->
  writeFile_fault stub (tempInputFileOf path_join options task) = Some e ->
  exists evs,
    runTask path_join options stub task s
    = (Throw e,
       mkSt (world s) (renderedCount s) (skippedCount s) (trace s ++ evs))
    /\ hostCalls evs
       = [FsAccess (outputPath task) false;
          FsWriteFile (tempInputFileOf path_join options task) (mermaidCode task) false].
Proof.
  intros H Hw. destruct s as [w r k tr]. eexists. split.
  - unfold runTask. run_monad. rewrite (fs_access_miss _ _ H).
    unfold log. rewrite emit_eq. run_monad.
    rewrite (fs_writeFile_fault stub _ _ _ _ Hw).
    rewrite addEvents_addEvents.
    norm_state.
    rewrite <- !app_assoc. reflexivity.
  - reflexivity.
Qed.

Lemma runTask_rendering (task : Task) (s : State) :
  world s (outputPath task) = None ->
  writeFile_fault stub (tempInputFileOf path_join options task) = None ->
  exists evs,
    runTask path_join options stub task s
    = (Normal tt,
       mkSt (worldAfter path_join options stub task (world s))
            (if rendersOk stub task then S (renderedCount s)
             else renderedCount s)
            (skippedCount s)
            (trace s ++ evs))
    /\ hostCalls evs = renderingCalls path_join options stub task.
Proof.
  intros H Hw. destruct s as [w r k tr].
  unfold runTask. run_monad. rewrite (fs_access_miss _ _ H).
  unfold log. rewrite emit_eq. run_monad.
  rewrite (fs_writeFile_ok stub _ _ _ Hw). rewrite emit_eq.
  unfold worldAfter, renderingCalls, rendersOk, unlinkOk. cbv zeta.
  destruct (mmdc stub (mermaidCode task)) as [err|image] eqn:Em.
  - (* the renderer fails *)
    erewrite execAsync_fail; [|apply putFile_same|exact Em].
    unfold error. rewrite emit_eq, !console_error_if_eq. run_monad.
    destruct (unlink_fault stub (tempInputFileOf path_join options task)) as [ue|] eqn:Eu.
    + rewrite (fs_unlink_fault stub _ _ _ Eu). rewrite emit_eq.
      eexists. split.
      * norm_state.
        rewrite <- !app_assoc. reflexivity.
      * rewrite !hostCalls_app, !hostCalls_consoleOut. reflexivity.
    + erewrite fs_unlink_ok; [|exact Eu|apply putFile_same].
      eexists. split.
      * norm_state.
        rewrite <- !app_assoc. reflexivity.
      * rewrite !hostCalls_app, !hostCalls_consoleOut. reflexivity.
  - (* the renderer succeeds *)
    erewrite execAsync_ok; [|apply putFile_same|exact Em].
    unfold success, incr_renderedCount. rewrite emit_eq. run_monad.
    assert (Ht : putFile (outputPath task) image
                   (putFile (tempInputFileOf path_join options task) (mermaidCode task) w) (tempInputFileOf path_join options task)
                 <> None)
      by (apply putFile_exists; rewrite putFile_same; discriminate).
    destruct (unlink_fault stub (tempInputFileOf path_join options task)) as [ue|] eqn:Eu.
    + rewrite (fs_unlink_fault stub _ _ _ Eu). unfold error.
      rewrite emit_eq.
      eexists. split.
      * norm_state.
        rewrite <- !app_assoc. reflexivity.
      * reflexivity.
    + destruct (putFile (outputPath task) image
                  (putFile (tempInputFileOf path_join options task) (mermaidCode task) w) (tempInputFileOf path_join options task))
        as [d|] eqn:Ed; [|congruence].
      erewrite fs_unlink_ok; [|exact Eu|exact Ed].
      eexists. split.
      * norm_state.
        rewrite <- !app_assoc. reflexivity.
      * reflexivity.
Qed.

Lemma settle_normal (task : Task) (s s' : State) :
  runTask path_join options stub task s = (Normal tt, s') ->
  settle (runTask path_join options stub task) s = (Normal None, s').
Proof. unfold settle. now intros ->. Qed.

Lemma settle_throw (task : Task) (s s' : State) (e : Error) :
  runTask path_join options stub task s = (Throw e, s') ->
  settle (runTask path_join options stub task) s = (Normal (Some e), s').
Proof. unfold settle. now intros ->. Qed.

Lemma runPool_cons (task : Task) (rest : list Task) (s : State) :
  runPool path_join options stub (task :: rest) s =
  bind (settle (runTask path_join options stub task))
       (fun r => bind (runPool path_join options stub rest)
                      (fun rs => ret (r :: rs))) s.
Proof. reflexivity. Qed.




Lemma worldAfter_frame (task : Task) (w : World) (q : jsstring) :
  q <> tempInputFileOf path_join options task -> q <> outputPath task ->
  worldAfter path_join options stub task w q = w q.
Proof.
  intros H1 H2. unfold worldAfter. cbv zeta.
  destruct (unlinkOk stub (tempInputFileOf path_join options task));
    destruct (mmdc stub (mermaidCode task));
    rewrite ?removeFile_other, ?putFile_other by assumption; reflexivity.
Qed.





(** The world after the pass is the world after the pool. *)
Lemma execute_world (tasks : list Task) (s : State) rs s1 :
  runPool path_join options stub tasks s = (Normal rs, s1) ->
  world (snd (execute path_join options stub tasks s)) = world s1.
Proof.
  intros R. unfold execute. rewrite (bind_normal _ _ _ _ _ R).
  unfold bind at 1.
  destruct (promise_all rs s1) as [[[]|e] s2] eqn:E.
  - assert (s2 = s1).
    { clear R. revert E. induction rs as [|[e|] rs IH]; simpl; intros E.
      - now injection E as <-.
      - discriminate.
      - now apply IH. }
    subst s2. destruct s1 as [w r k tr].
    unfold success, log. run_monad. rewrite !emit_eq. reflexivity.
  - assert (s2 = s1).
    { clear R. revert E. induction rs as [|[e'|] rs IH]; simpl; intros E.
      - discriminate.
      - unfold throw in E. now injection E as _ <-.
      - now apply IH. }
    now subst s2.
Qed.

End PoolFacts.



(** C7, as amended.  A task that is not cached and whose temporary file is
    written calls the host four times, in this order: it looks for the
    output, writes the temporary file, runs the renderer and deletes the
    temporary file, whether the renderer accepted the source or not.  Its
    promise is fulfilled whether the deletion succeeded or not, and it is
    counted as rendered exactly when the renderer accepted the source. *)
Theorem cleanup_follows_rendering
    (path_join : jsstring -> jsstring -> jsstring)
    (options : Renderer.Options) (stub : Host.Stub)
    (task : Renderer.Task) (s : Host.State) :
  Host.world s (Renderer.outputPath task) = None ->
  Host.writeFile_fault stub (Execute.tempInputFileOf path_join options task)
  = None ->
  exists s' evs,
    Execute.runTask path_join options stub task s = (Host.Normal tt, s')
    /\ Host.trace s' = Host.trace s ++ evs
    /\ hostCalls evs
       = [Host.FsAccess (Renderer.outputPath task) false;
          Host.FsWriteFile (Execute.tempInputFileOf path_join options task)
                           (Renderer.mermaidCode task) true;
          Host.ExecAsync (Execute.commandOf path_join options task)
                         (rendersOk stub task);
          Host.FsUnlink
            (Execute.tempInputFileOf path_join options task)
            (unlinkOk stub (Execute.tempInputFileOf path_join options task))]
    /\ Host.renderedCount s'
       = (if rendersOk stub task then S (Host.renderedCount s)
          else Host.renderedCount s)
    /\ Host.skippedCount s' = Host.skippedCount s.
Proof.
  intros H Hw.
  destruct (runTask_rendering path_join options stub task s H Hw)
    as (evs & R & C).
  eexists _, evs. split; [exact R|]. now repeat split.
Qed.

(** The first sample task: the renderer accepts it, the deletion of its
    temporary file fails, and it is counted as rendered. *)
Lemma cleanup_follows_rendering_example :
  let task := nth 0 sampleTasks (Renderer.mkTask [] [] [] [] []) in
  rendersOk sampleStub task = true
  /\ unlinkOk sampleStub
              (Execute.tempInputFileOf joinWithSlash sampleOptions task)
     = false
  /\ exists s',
       Execute.runTask joinWithSlash sampleOptions sampleStub task
                       (Execute.initial Host.emptyWorld)
       = (Host.Normal tt, s')
       /\ Host.renderedCount s' = 1.
Proof.
  cbv zeta. split; [vm_compute; reflexivity|].
  split; [vm_compute; reflexivity|].
  destruct (cleanup_follows_rendering
              joinWithSlash sampleOptions sampleStub
              (nth 0 sampleTasks (Renderer.mkTask [] [] [] [] []))
              (Execute.initial Host.emptyWorld))
    as (s' & evs & R & _ & _ & Hr & _).
  - reflexivity.
  - vm_compute; reflexivity.
  - exists s'. split; [exact R|]. rewrite Hr. vm_compute; reflexivity.
Defined.

(** C7, as stated, fails: the task of a block with the identity [team/flow]
    reaches the writing of its temporary file, which fails for want of the
    directory [temp_team]; the task ends there, without any attempt to
    delete the file, and the whole pass is rejected. *)
Lemma no_cleanup_when_write_fails :
  let task := nth 0 sampleSlashTask (Renderer.mkTask [] [] [] [] []) in
  let tmp := Execute.tempInputFileOf joinWithSlash sampleOptions task in
  let r := Execute.runTask joinWithSlash sampleOptions sampleStub task
                           (Execute.initial Host.emptyWorld) in
  tmp = lit "/tmp/docusaurus-plugin-mermaid-static/temp_team/flow-en.svg.mmd"
  /\ fst r = Host.Throw (Host.fsError (lit "ENOENT") tmp)
  /\ hostCalls (Host.trace (snd r))
     = [Host.FsAccess (Renderer.outputPath task) false;
        Host.FsWriteFile tmp (Renderer.mermaidCode task) false]
  /\ ~ (exists ok, In (Host.FsUnlink tmp ok) (Host.trace (snd r)))
  /\ fst (Execute.execute joinWithSlash sampleOptions sampleStub
                          sampleSlashTask (Execute.initial Host.emptyWorld))
     = Host.Throw (Host.fsError (lit "ENOENT") tmp).
Proof.
  cbv zeta. split; [vm_compute; reflexivity|].
  split; [vm_compute; reflexivity|].
  split; [vm_compute; reflexivity|].
  split; [|vm_compute; reflexivity].
  intros [ok H]. vm_compute in H.
  repeat (destruct H as [H|H]; [discriminate H|]). exact H.
Qed.

(* ================================================================== *)
(** * The scanner *)
(* ================================================================== *)

Section ScannedBlockFacts.

Import Patterns.

Lemma startsWith_app_true (p s t : jsstring) :
  startsWith p s = true -> startsWith p (s ++ t) = true.
Proof.
  intros H. apply startsWith_iff in H. destruct H as [r ->].
  rewrite <- app_assoc. apply startsWith_app.
Qed.

(** The text before the first closing fence holds no fence, and none that
    would begin in it and end in the closing one. *)
Lemma removeFences_aux_inner (inner post : jsstring) :
  splitFirst fence (inner ++ fence ++ post) = Some (inner, post) ->
  removeFences_aux 0 (inner ++ fence) = inner
  /\ includes fence inner = false.
Proof.
  induction inner as [|c inner IH]; intros H.
  - split; reflexivity.
  - change ((c :: inner) ++ fence ++ post)
      with (c :: (inner ++ fence ++ post)) in H.
    rewrite splitFirst_cons in H.
    destruct (startsWith fence (c :: inner ++ fence ++ post)) eqn:Es;
      [discriminate|].
    destruct (splitFirst fence (inner ++ fence ++ post)) as [[a b]|] eqn:E;
      [|discriminate].
    assert (a = inner /\ b = post) as [-> ->].
    { injection H as H1 H2. now split. }
    destruct (IH eq_refl) as [IH1 IH2].
    assert (Es' : startsWith fence (c :: inner ++ fence) = false).
    { destruct (startsWith fence (c :: inner ++ fence)) eqn:E'; [|reflexivity].
      apply (startsWith_app_true _ _ post) in E'.
      change ((c :: inner ++ fence) ++ post)
        with (c :: ((inner ++ fence) ++ post)) in E'.
      rewrite <- app_assoc in E'. congruence. }
    assert (Es'' : startsWith fence (c :: inner) = false).
    { destruct (startsWith fence (c :: inner)) eqn:E'; [|reflexivity].
      apply (startsWith_app_true _ _ (fence ++ post)) in E'.
      change ((c :: inner) ++ fence ++ post)
        with (c :: (inner ++ fence ++ post)) in E'. congruence. }
    split.
    + change ((c :: inner) ++ fence) with (c :: (inner ++ fence)).
      rewrite removeFences_aux_cons.
      rewrite (startsWith_fenceMermaid_fence _ Es'), Es'.
      now rewrite IH1.
    + apply includes_cons_false. now split.
Qed.

Lemma removeFences_scanned (inner post : jsstring) :
  splitFirst fence (inner ++ fence ++ post) = Some (inner, post) ->
  removeFences (fenceMermaid ++ inner ++ fence) = inner.
Proof.
  intros H. apply removeFences_aux_inner in H. destruct H as [H _].
  unfold removeFences.
  change (removeFences_aux 0 (fenceMermaid ++ inner ++ fence))
    with (removeFences_aux 0 (inner ++ fence)).
  exact H.
Qed.

Lemma metadataContent_of_scanned (inner : jsstring) :
  metadataContent_of (fenceMermaid ++ inner ++ fence)
  = metadataContent_of inner.
Proof.
  unfold metadataContent_of.
  change fence with (96%N :: [96%N; 96%N]).
  rewrite metadataBlockRegex_exec_padded.
  - now destruct (metadataBlockRegex_exec inner) as [[[pre cap] post]|].
  - unfold fenceMermaid.
    repeat constructor; apply notIn_dashes; discriminate.
  - apply notIn_dashes. discriminate.
  - reflexivity.
Qed.

(** Every match of the scanner lies in the content, between an opening and
    the first closing fence after it. *)
Lemma mermaidBlocks_from_In (fuel : nat) (s block : jsstring) :
  In block (mermaidBlocks_from fuel s) ->
  exists pre inner post,
    s = pre ++ block ++ post
    /\ block = fenceMermaid ++ inner ++ fence
    /\ splitFirst fence (inner ++ fence ++ post) = Some (inner, post).
Proof.
  revert s. induction fuel as [|fuel IH]; intros s H; [contradiction|].
  cbn [mermaidBlocks_from] in H.
  destruct (splitFirst fenceMermaid s) as [[a rest]|] eqn:E1; [|contradiction].
  destruct (splitFirst fence rest) as [[inner post]|] eqn:E2; [|contradiction].
  pose proof (splitFirst_some _ _ _ _ E1) as ->.
  pose proof (splitFirst_some _ _ _ _ E2) as ->.
  destruct H as [<-|H].
  - exists a, inner, post. split; [|split; [reflexivity|exact E2]].
    now rewrite <- !app_assoc.
  - destruct (IH _ H) as (pre' & inner' & post' & -> & Hb & Hs).
    exists (a ++ fenceMermaid ++ inner ++ fence ++ pre'), inner', post'.
    split; [|split; assumption].
    now rewrite <- !app_assoc.
Qed.

End ScannedBlockFacts.

(** X2.  Every block that the scanner takes from a file is a piece of that
    file made of the opening fence, a text without [```] and the closing
    fence; the renderer reads header, body and identity of the block from
    that text alone, as the transformer does from the value of a code
    node. *)
Theorem scanned_block_is_delimited (content block : jsstring) :
  In block (Patterns.mermaidBlocks content) ->
  exists pre inner post,
    content = pre ++ block ++ post
    /\ block = Patterns.fenceMermaid ++ inner ++ Patterns.fence
    /\ includes Patterns.fence inner = false
    /\ Renderer.extract block
       = (Patterns.metadataContent_of inner, Remark.mermaidCodeOf inner)
    /\ Renderer.idOf block = Remark.idOf inner.
Proof.
  intros H. unfold Patterns.mermaidBlocks in H.
  apply mermaidBlocks_from_In in H.
  destruct H as (pre & inner & post & Hc & Hb & Hs).
  exists pre, inner, post.
  pose proof (removeFences_aux_inner _ _ Hs) as [_ Hi].
  pose proof (removeFences_scanned _ _ Hs) as Hr.
  rewrite <- Hb in Hr.
  assert (Hm : Patterns.metadataContent_of block
               = Patterns.metadataContent_of inner)
    by (rewrite Hb; apply metadataContent_of_scanned).
  assert (Hcode : Renderer.mermaidCodeOf block = Remark.mermaidCodeOf inner)
    by (unfold Renderer.mermaidCodeOf, Remark.mermaidCodeOf; now rewrite Hr).
  repeat split; try assumption.
  - unfold Renderer.extract. now rewrite Hm, Hcode.
  - unfold Renderer.idOf, Remark.idOf, Renderer.derive.
    rewrite Hm, Hcode. reflexivity.
Qed.

Lemma scanned_block_is_delimited_example :
  exists pre inner post,
    (lit "Text" ++ nl ++ sampleBlock "id: a" "  A-->B" ++ nl ++ lit "more")
    = pre ++ sampleBlock "id: a" "  A-->B" ++ post
    /\ sampleBlock "id: a" "  A-->B"
       = Patterns.fenceMermaid ++ inner ++ Patterns.fence
    /\ includes Patterns.fence inner = false
    /\ Renderer.extract (sampleBlock "id: a" "  A-->B")
       = (Patterns.metadataContent_of inner, Remark.mermaidCodeOf inner)
    /\ Renderer.idOf (sampleBlock "id: a" "  A-->B") = Remark.idOf inner.
Proof.
  apply (scanned_block_is_delimited
           (lit "Text" ++ nl ++ sampleBlock "id: a" "  A-->B" ++ nl
              ++ lit "more")).
  vm_compute. left. reflexivity.
Defined.

(* ================================================================== *)
(** * The locale of a file *)
(* ================================================================== *)

Section LocaleFacts.

Import Patterns.

Lemma localeRegex_exec_cons (c : char) (t : jsstring) :
  localeRegex_exec (c :: t) =
  if startsWith (lit "i18n/") (c :: t)
     && negb (Nat.eqb (List.length (takeWhile notSlash (skipn 5 (c :: t)))) 0)
     && startsWith (lit "/")
          (skipn (List.length (takeWhile notSlash (skipn 5 (c :: t))))
                 (skipn 5 (c :: t)))
  then Some (takeWhile notSlash (skipn 5 (c :: t)))
  else localeRegex_exec t.
Proof. reflexivity. Qed.

Lemma localeRegex_exec_nil : localeRegex_exec [] = None.
Proof. reflexivity. Qed.

Lemma takeWhile_app_stop (p : char -> bool) (l : jsstring) (c : char)
    (b : jsstring) :
  Forall (fun x => p x = true) l -> p c = false ->
  takeWhile p (l ++ c :: b) = l.
Proof.
  intros Hl Hc. induction Hl as [|x l Hx _ IH]; simpl.
  - now rewrite Hc.
  - now rewrite Hx, IH.
Qed.

Lemma skipn_length_app {A} (l r : list A) : skipn (List.length l) (l ++ r) = r.
Proof. induction l; simpl; auto. Qed.

(** At a position where [i18n/], a segment and a slash begin, the pattern
    matches and captures the segment. *)
Lemma localeRegex_exec_here (l b : jsstring) :
  l <> [] -> Forall (fun c => notSlash c = true) l ->
  localeRegex_exec (lit "i18n/" ++ l ++ lit "/" ++ b) = Some l.
Proof.
  intros Hne Hl.
  assert (H : forall tail : jsstring,
             tail = l ++ @cons char 47%N b ->
             localeRegex_exec (lit "i18n/" ++ tail) = Some l).
  { intros tail E.
    change (lit "i18n/" ++ tail)
      with (105%N :: 49%N :: 56%N :: 110%N :: 47%N :: tail).
    rewrite localeRegex_exec_cons.
    cbn [skipn].
    change (startsWith (lit "i18n/")
              (105%N :: 49%N :: 56%N :: 110%N :: 47%N :: tail))
      with true.
    rewrite E, (takeWhile_app_stop notSlash l 47%N b Hl eq_refl).
    rewrite skipn_length_app.
    destruct l as [|x l]; [congruence|]. reflexivity. }
  now apply H.
Qed.

Lemma localeRegex_exec_sound (p l : jsstring) :
  localeRegex_exec p = Some l ->
  l <> [] /\ Forall (fun c => notSlash c = true) l
  /\ exists a b, p = a ++ lit "i18n/" ++ l ++ lit "/" ++ b.
Proof.
  induction p as [|c t IH]; intros H; [discriminate|].
  rewrite localeRegex_exec_cons in H.
  set (rest := skipn 5 (c :: t)) in *.
  set (seg := takeWhile notSlash rest) in *.
  destruct (startsWith (lit "i18n/") (c :: t)) eqn:E1; cbn [andb] in H.
  - destruct (Nat.eqb (List.length seg) 0) eqn:E2; cbn [negb andb] in H.
    + destruct (IH H) as (Hn & Hf & a & b & ->).
      split; [assumption|split; [assumption|]].
      now exists (c :: a), b.
    + destruct (startsWith (lit "/") (skipn (List.length seg) rest)) eqn:E3.
      * injection H as <-.
        split; [|split].
        -- intros E. rewrite E in E2. discriminate.
        -- apply takeWhile_Forall.
        -- exists [], (skipn 1 (skipn (List.length seg) rest)).
           apply startsWith_inv in E1, E3.
           cbn [app]. rewrite E1 at 1.
           change (skipn (List.length (lit "i18n/")) (c :: t)) with rest.
           f_equal.
           rewrite (takeWhile_dropWhile notSlash rest) at 1.
           fold seg. f_equal.
           assert (Hd : dropWhile notSlash rest
                        = skipn (List.length seg) rest).
           { rewrite (takeWhile_dropWhile notSlash rest) at 2. fold seg.
             now rewrite skipn_length_app. }
           rewrite Hd. exact E3.
      * destruct (IH H) as (Hn & Hf & a & b & ->).
        split; [assumption|split; [assumption|]].
        now exists (c :: a), b.
  - destruct (IH H) as (Hn & Hf & a & b & ->).
    split; [assumption|split; [assumption|]].
    now exists (c :: a), b.
Qed.

Lemma localeRegex_exec_complete (a l b : jsstring) :
  l <> [] -> Forall (fun c => notSlash c = true) l ->
  localeRegex_exec (a ++ lit "i18n/" ++ l ++ lit "/" ++ b) <> None.
Proof.
  intros Hn Hl. induction a as [|c a IH].
  - cbn [app]. now rewrite localeRegex_exec_here.
  - change ((c :: a) ++ lit "i18n/" ++ l ++ lit "/" ++ b)
      with (c :: (a ++ lit "i18n/" ++ l ++ lit "/" ++ b)).
    rewrite localeRegex_exec_cons.
    match goal with |- (if ?c then _ else _) <> _ => destruct c end;
      [discriminate|exact IH].
Qed.

(** A prefix that ends with a slash and holds no [i18n/] does not change
    the match. *)
Lemma localeRegex_exec_prefix (dir rel : jsstring) :
  includes (lit "i18n/") (dir ++ lit "/") = false ->
  localeRegex_exec (dir ++ lit "/" ++ rel) = localeRegex_exec rel.
Proof.
  induction dir as [|c dir IH]; intros H.
  - reflexivity.
  - change ((c :: dir) ++ lit "/") with (c :: (dir ++ lit "/")) in H.
    apply includes_cons_false in H. destruct H as [Hs Hi].
    change ((c :: dir) ++ lit "/" ++ rel) with (c :: (dir ++ lit "/" ++ rel)).
    rewrite localeRegex_exec_cons.
    assert (Hs' : startsWith (lit "i18n/") (c :: dir ++ lit "/" ++ rel) = false).
    { clear IH Hi.
      destruct dir as [|c2 [|c3 [|c4 [|c5 dir]]]];
        try exact Hs;
        cbn in Hs |- *;
        repeat match goal with
               | |- context [N.eqb ?x ?y] => destruct (N.eqb x y)
               end; reflexivity || exact Hs. }
    rewrite Hs'. cbn [andb]. now apply IH.
Qed.

End LocaleFacts.

Lemma notSlash_Forall (l : jsstring) :
  Forall (fun c => Patterns.notSlash c = true) l
  <-> Forall (fun c => c <> 47%N) l.
Proof.
  split; apply Forall_impl; intros c; unfold Patterns.notSlash;
    rewrite negb_true_iff, N.eqb_neq; auto.
Qed.

(** X3.  The locale of a content file is the default locale exactly when its
    path holds no [i18n/] followed by a segment and a slash; otherwise it is
    such a segment of the path, and the one that follows [i18n/] when the
    path begins with it.  The transformer reads the locale of a path in the
    same way. *)
Theorem locale_is_a_segment_after_i18n
    (options : Renderer.Options) (store : Store.StoreOptions) (p : jsstring) :
  ((exists l, hasLocaleSegment p l) ->
   hasLocaleSegment p (Renderer.localeOf options p))
  /\ (~ (exists l, hasLocaleSegment p l) ->
      Renderer.localeOf options p = Renderer.defaultLocale options)
  /\ (forall l b,
        l <> [] -> Forall (fun c => c <> 47%N) l ->
        Renderer.localeOf options (lit "i18n/" ++ l ++ lit "/" ++ b) = l)
  /\ (Store.defaultLocale store = Renderer.defaultLocale options ->
      Remark.localeOf store p = Renderer.localeOf options p).
Proof.
  unfold Renderer.localeOf, Remark.localeOf.
  split; [|split; [|split]].
  - intros (l & Hn & Hl & a & b & E).
    destruct (Patterns.localeRegex_exec p) as [l'|] eqn:El.
    + apply localeRegex_exec_sound in El.
      destruct El as (Hn' & Hl' & Hab). split; [assumption|].
      split; [now apply notSlash_Forall|assumption].
    + exfalso. revert El. rewrite E.
      apply localeRegex_exec_complete; [assumption|now apply notSlash_Forall].
  - intros Hno.
    destruct (Patterns.localeRegex_exec p) as [l'|] eqn:El; [|reflexivity].
    exfalso. apply Hno. exists l'.
    apply localeRegex_exec_sound in El.
    destruct El as (Hn' & Hl' & Hab). split; [assumption|].
    split; [now apply notSlash_Forall|assumption].
  - intros l b Hn Hl.
    rewrite localeRegex_exec_here;
      [reflexivity|assumption|now apply notSlash_Forall].
  - intros ->. reflexivity.
Qed.

(** X4.  The transformer reads the locale from the absolute path of a file
    and the renderer from its path relative to the site directory.  When
    the site directory, with the slash that ends it, holds no [i18n/], both
    find the same locale. *)
Theorem locale_of_absolute_path
    (path_join : jsstring -> jsstring -> jsstring)
    (merged : Index.PluginOptions) (ctx : Index.Context)
    (themeConfigPath : option jsstring) (tempDir : jsstring)
    (theme : Index.Theme) (relativePath : jsstring) :
  includes (lit "i18n/") (Index.siteDir ctx ++ lit "/") = false ->
  Remark.localeOf (Index.storeOptions path_join merged ctx)
                  (Index.siteDir ctx ++ lit "/" ++ relativePath)
  = Renderer.localeOf
      (Index.renderOptions path_join merged ctx themeConfigPath tempDir theme)
      relativePath.
Proof.
  intros H. unfold Remark.localeOf, Renderer.localeOf.
  now rewrite localeRegex_exec_prefix.
Qed.

Lemma locale_of_absolute_path_example :
  Remark.localeOf
    (Index.storeOptions joinWithSlash (Index.defaults 4) sampleContext)
    (lit "/site/i18n/fr/docusaurus-plugin-content-docs/current/intro.md")
  = Renderer.localeOf
      (Index.renderOptions joinWithSlash (Index.defaults 4) sampleContext None
                           (lit "/tmp/docusaurus-plugin-mermaid-static")
                           (Index.mkTheme (lit "neutral") (lit "-light")))
      (lit "i18n/fr/docusaurus-plugin-content-docs/current/intro.md").
Proof.
  apply (locale_of_absolute_path
           joinWithSlash (Index.defaults 4) sampleContext None
           (lit "/tmp/docusaurus-plugin-mermaid-static")
           (Index.mkTheme (lit "neutral") (lit "-light"))
           (lit "i18n/fr/docusaurus-plugin-content-docs/current/intro.md")).
  reflexivity.
Defined.

(* ================================================================== *)
(** * The values read from a header *)
(* ================================================================== *)

Section CleanValueFacts.

Import Patterns.

Lemma dropWhile_Forall (P : char -> Prop) (p : char -> bool) (s : jsstring) :
  Forall P s -> Forall P (dropWhile p s).
Proof.
  induction 1 as [|c s Hc Hs IH]; simpl; [constructor|].
  destruct (p c); [assumption|now constructor].
Qed.

Lemma trim_Forall (P : char -> Prop) (s : jsstring) :
  Forall P s -> Forall P (trim s).
Proof.
  intros H. unfold trim, trimEnd, trimStart.
  apply Forall_rev, dropWhile_Forall, Forall_rev, dropWhile_Forall, H.
Qed.

Lemma hexDigit_not_space (c : char) :
  isHexDigit c = true -> isWhiteSpace c = false /\ c <> 45%N.
Proof.
  unfold isHexDigit, isWhiteSpace, isLineTerminator.
  rewrite orb_true_iff, !andb_true_iff, !N.leb_le. intros H.
  split.
  - repeat (apply orb_false_iff; split);
      try (apply N.eqb_neq; lia);
      apply andb_false_iff; rewrite !N.leb_gt; lia.
  - lia.
Qed.

Lemma isLineTerminator_space (c : char) :
  isWhiteSpace c = false -> isLineTerminator c = false.
Proof.
  unfold isWhiteSpace. intros H.
  repeat (apply orb_false_iff in H; destruct H as [H ?]). assumption.
Qed.

(** A string without white space is its own trimmed form. *)
Lemma trim_fixed (s : jsstring) :
  Forall (fun c => isWhiteSpace c = false) s -> trim s = s.
Proof.
  intros H. unfold trim.
  assert (E : trimStart s = s).
  { apply trimStart_fixed. destruct H; simpl; auto. }
  rewrite E. unfold trimEnd.
  rewrite <- (rev_involutive s) at 2. f_equal.
  apply Forall_rev in H. destruct H as [|c r Hc _]; simpl; [reflexivity|].
  now rewrite Hc.
Qed.

(** What the code takes from a key pattern is a clean value. *)
Lemma capture_clean (key s : jsstring) (c : char) (r : jsstring) :
  keyRegex_exec key s = Some (c :: r) -> cleanValue (trim (c :: r)).
Proof.
  intros H. pose proof (keyRegex_exec_noLeading _ _ _ H) as Hn.
  split; [|split].
  - now apply trim_nonempty.
  - apply trim_idem.
  - apply trim_Forall.
    unfold keyRegex_exec in H.
    destruct (splitFirst key s) as [[a rest]|]; [|discriminate].
    injection H as H. rewrite <- H.
    eapply Forall_impl; [|apply takeWhile_Forall].
    intros x Hx. now apply negb_true_iff in Hx.
Qed.

Lemma field_clean (key s v : jsstring) :
  Remark.field (keyRegex_exec key s) = Some v -> cleanValue v.
Proof.
  unfold Remark.field.
  destruct (keyRegex_exec key s) as [[|c r]|] eqn:E; try discriminate.
  intros H. injection H as <-. now apply (capture_clean key s).
Qed.

Lemma field_absent (key s : jsstring) :
  includes key s = false -> Remark.field (keyRegex_exec key s) = None.
Proof.
  unfold includes, keyRegex_exec.
  now destruct (splitFirst key s) as [[a b]|].
Qed.

Lemma createHash_clean (str : jsstring) : cleanValue (Renderer.createHash str).
Proof.
  pose proof (createHash_hex str) as H.
  split; [apply createHash_nonempty|split].
  - apply trim_fixed. eapply Forall_impl; [|exact H].
    intros c Hc. now apply hexDigit_not_space.
  - eapply Forall_impl; [|exact H].
    intros c Hc. now apply isLineTerminator_space, hexDigit_not_space.
Qed.

Lemma idOf_clean (block : jsstring) : cleanValue (Renderer.idOf block).
Proof.
  unfold Renderer.idOf, Renderer.derive.
  destruct (idRegex_exec (metadataContent_of block)) as [[|c r]|] eqn:E;
    try apply createHash_clean.
  now apply (capture_clean (lit "id:") (metadataContent_of block)).
Qed.

End CleanValueFacts.

(** X5.  What the transformer reads from the header of a block under the
    keys [id], [alt], [caption], [descriptionId] and [width] is never the
    empty string: it is [null], or a text on one line with no white space at
    either end; it is [null] when the key does not occur in the header. *)
Theorem metadata_fields_are_clean (metadataContent : jsstring) :
  let md := Remark.metadataOf metadataContent in
  (forall v,
      In (Some v)
         [Remark.md_id md; Remark.md_alt md; Remark.md_caption md;
          Remark.md_descriptionId md; Remark.md_width md] ->
      cleanValue v)
  /\ (includes (lit "id:") metadataContent = false -> Remark.md_id md = None)
  /\ (includes (lit "alt:") metadataContent = false -> Remark.md_alt md = None)
  /\ (includes (lit "caption:") metadataContent = false ->
      Remark.md_caption md = None)
  /\ (includes (lit "descriptionId:") metadataContent = false ->
      Remark.md_descriptionId md = None)
  /\ (includes (lit "width:") metadataContent = false ->
      Remark.md_width md = None).
Proof.
  cbv zeta. unfold Remark.metadataOf.
  cbn [Remark.md_id Remark.md_alt Remark.md_caption Remark.md_descriptionId
       Remark.md_width].
  split.
  - intros v H. cbn [In] in H.
    destruct H as [H|[H|[H|[H|[H|[]]]]]]; eapply field_clean; exact H.
  - repeat split; apply field_absent.
Qed.

Section KeyFacts.

Import Patterns.

(** The leftmost occurrence is where [splitFirst] splits. *)
Lemma splitFirst_at (p a b : jsstring) :
  (forall a' b', a ++ p ++ b = a' ++ p ++ b' ->
                 List.length a <= List.length a') ->
  splitFirst p (a ++ p ++ b) = Some (a, b).
Proof.
  intros Hl.
  destruct (splitFirst p (a ++ p ++ b)) as [[a' b']|] eqn:E.
  - pose proof (splitFirst_some _ _ _ _ E) as Es.
    pose proof (splitFirst_leftmost _ _ _ _ E a b eq_refl) as H1.
    pose proof (Hl a' b' Es) as H2.
    assert (Ha : a = a').
    { apply (f_equal (firstn (List.length a))) in Es.
      rewrite firstn_app, Nat.sub_diag, firstn_all, firstn_O, app_nil_r in Es.
      replace (List.length a) with (List.length a') in Es by lia.
      rewrite firstn_app, Nat.sub_diag, firstn_all, firstn_O, app_nil_r in Es.
      exact Es. }
    subst a'. apply app_inv_head in Es. apply app_inv_head in Es.
    now subst b'.
  - exfalso. exact (splitFirst_none _ _ E a b eq_refl).
Qed.

Lemma takeWhile_line (line rest : jsstring) :
  Forall (fun c => isLineTerminator c = false) line ->
  match rest with
  | [] => True
  | c :: _ => isLineTerminator c = true
  end ->
  takeWhile (fun c => negb (isLineTerminator c)) (line ++ rest) = line.
Proof.
  intros Hl Hr. induction Hl as [|c line Hc _ IH]; cbn [app takeWhile].
  - destruct rest as [|c rest]; [reflexivity|]. cbn [takeWhile].
    now rewrite Hr.
  - now rewrite Hc, IH.
Qed.

End KeyFacts.

(** X18.  What a key of the header reads is the first text after its
    leftmost occurrence that is not white space, up to the end of the line
    of that text.  The white space passed over may hold line breaks: a key
    with nothing after it on its line reads the next line that is not
    blank. *)
Theorem key_reads_the_next_text
    (key before space line rest : jsstring) :
  (forall a' b',
      before ++ key ++ space ++ line ++ rest = a' ++ key ++ b' ->
      List.length before <= List.length a') ->
  Forall (fun c => isWhiteSpace c = true) space ->
  noLeadingSpace line -> line <> [] ->
  Forall (fun c => isLineTerminator c = false) line ->
  match rest with
  | [] => True
  | c :: _ => isLineTerminator c = true
  end ->
  Patterns.keyRegex_exec key (before ++ key ++ space ++ line ++ rest)
  = Some line
  /\ Remark.field
       (Patterns.keyRegex_exec key (before ++ key ++ space ++ line ++ rest))
     = Some (trim line).
Proof.
  intros Hl Hs Hn Hne Hline Hrest.
  assert (E : Patterns.keyRegex_exec
                key (before ++ key ++ space ++ line ++ rest)
              = Some line).
  { unfold Patterns.keyRegex_exec. rewrite (splitFirst_at _ _ _ Hl).
    rewrite dropWhile_app_Forall by exact Hs.
    assert (Hd : dropWhile isWhiteSpace (line ++ rest) = line ++ rest).
    { destruct line as [|c l]; [congruence|]. cbn [app dropWhile].
      cbn in Hn. now rewrite Hn. }
    rewrite Hd. now rewrite takeWhile_line. }
  split; [exact E|]. rewrite E.
  destruct line as [|c l]; [congruence|reflexivity].
Qed.

Lemma key_reads_the_next_text_example :
  Patterns.idRegex_exec (unlines [""; "id:"; "alt: A flow"; ""]%string)
  = Some (lit "alt: A flow").
Proof.
  apply (key_reads_the_next_text (lit "id:") nl nl (lit "alt: A flow") nl).
  - intros a' b' E. destruct a' as [|c a']; [discriminate|].
    cbn [List.length nl]. apply le_n_S, Nat.le_0_l.
  - repeat constructor.
  - reflexivity.
  - discriminate.
  - repeat constructor.
  - reflexivity.
Defined.

(* ================================================================== *)
(** * The tasks of the plan *)
(* ================================================================== *)

Section PlanFacts.

Import Patterns Renderer.

Variable path_join : jsstring -> jsstring -> jsstring.
Variable options : Options.

Lemma plan_In_diagramTasks (docFiles : list DocFile) (t : Task) :
  In t (plan path_join options docFiles) ->
  In t (diagramTasks path_join options docFiles).
Proof.
  intros H. apply uniqueTasks_last in H.
  destruct H as (before & after & -> & _).
  apply in_or_app. right. now left.
Qed.

(** Where a scanned task comes from. *)
Lemma diagramTasks_origin (docFiles : list DocFile) (t : Task) :
  In t (diagramTasks path_join options docFiles) ->
  exists file block,
    In file docFiles
    /\ draftRegex_test (content file) = false
    /\ In block (mermaidBlocks (content file))
    /\ prerenderRegex_test (metadataContent_of block) = false
    /\ t = mkTask (idOf block)
                  (localeOf options (relativePath file))
                  (filenameOf (idOf block)
                              (localeOf options (relativePath file))
                              (outputSuffix options) (outputFormat options))
                  (mermaidCodeOf block)
                  (path_join (outputDir options)
                     (filenameOf (idOf block)
                                 (localeOf options (relativePath file))
                                 (outputSuffix options)
                                 (outputFormat options))).
Proof.
  intros H. unfold diagramTasks in H. apply in_flat_map in H.
  destruct H as (file & Hf & Ht). unfold tasksOfFile in Ht.
  destruct (draftRegex_test (content file)) eqn:Ed; [contradiction|].
  apply in_flat_map in Ht. destruct Ht as (block & Hb & Ht).
  destruct (prerenderRegex_test (metadataContent_of block)) eqn:Ep.
  - unfold taskOfBlock in Ht. rewrite Ep in Ht. contradiction.
  - rewrite (taskOfBlock_some _ _ _ _ Ep) in Ht.
    destruct Ht as [<-|[]].
    exists file, block. repeat split; assumption.
Qed.

Lemma diagramTasks_filter (docFiles : list DocFile) :
  diagramTasks path_join options
    (filter (fun f => negb (draftRegex_test (content f))) docFiles)
  = diagramTasks path_join options docFiles.
Proof.
  unfold diagramTasks. induction docFiles as [|f rest IH]; [reflexivity|].
  cbn [filter flat_map].
  destruct (draftRegex_test (content f)) eqn:Ed; cbn [negb].
  - unfold tasksOfFile at 2. rewrite Ed. exact IH.
  - cbn [flat_map]. now rewrite IH.
Qed.

End PlanFacts.

(** X6.  Every task of the plan was scanned from a block of a file that is
    not a draft, the block not disabling prerendering; its locale is that of
    the file, its identity and its code are those of the block, and file
    name and output path are built from them.  The identity is never empty,
    holds no line break and has no white space at either end; the code is
    trimmed. *)
Theorem planned_task_is_well_formed
    (path_join : jsstring -> jsstring -> jsstring)
    (options : Renderer.Options) (docFiles : list Renderer.DocFile)
    (t : Renderer.Task) :
  In t (Renderer.plan path_join options docFiles) ->
  (exists file block,
      In file docFiles
      /\ Patterns.draftRegex_test (Renderer.content file) = false
      /\ In block (Patterns.mermaidBlocks (Renderer.content file))
      /\ Patterns.prerenderRegex_test (Patterns.metadataContent_of block)
         = false
      /\ Renderer.locale t
         = Renderer.localeOf options (Renderer.relativePath file)
      /\ Renderer.id t = Renderer.idOf block
      /\ Renderer.mermaidCode t = Renderer.mermaidCodeOf block)
  /\ Renderer.filename t
     = Renderer.id t ++ lit "-" ++ Renderer.locale t
         ++ Renderer.outputSuffix options ++ lit "."
         ++ Renderer.outputFormat options
  /\ Renderer.outputPath t
     = path_join (Renderer.outputDir options) (Renderer.filename t)
  /\ cleanValue (Renderer.id t)
  /\ trim (Renderer.mermaidCode t) = Renderer.mermaidCode t.
Proof.
  intros H. apply plan_In_diagramTasks, diagramTasks_origin in H.
  destruct H as (file & block & Hf & Hd & Hb & Hp & ->).
  cbn [Renderer.id Renderer.locale Renderer.filename Renderer.mermaidCode
       Renderer.outputPath].
  split; [|split; [|split; [|split]]].
  - exists file, block. repeat split; assumption.
  - reflexivity.
  - reflexivity.
  - apply idOf_clean.
  - unfold Renderer.mermaidCodeOf. apply trim_idem.
Qed.

Lemma planned_task_is_well_formed_example :
  cleanValue (lit "a")
  /\ trim (unlines ["graph TD"; "  A-->B"]%string)
     = unlines ["graph TD"; "  A-->B"]%string.
Proof.
  pose proof
    (planned_task_is_well_formed
       joinWithSlash sampleOptions
       [Renderer.mkDocFile (lit "docs/intro.md")
          (sampleBlock "id: a" "  A-->B" ++ nl ++ sampleBlock "id: b" "  A-->")]
       (Renderer.mkTask (lit "a") (lit "en") (lit "a-en.svg")
                        (unlines ["graph TD"; "  A-->B"]%string)
                        (lit "/site/static/img/diagrams/a-en.svg"))) as H.
  apply H. vm_compute. left. reflexivity.
Defined.

(** X7.  A file whose text holds [draft:], white space or none and the
    letters [true], anywhere in it, contributes no task: the plan is that of
    the other files. *)
Theorem draft_files_are_ignored
    (path_join : jsstring -> jsstring -> jsstring)
    (options : Renderer.Options) (docFiles : list Renderer.DocFile) :
  Renderer.plan path_join options docFiles
  = Renderer.plan path_join options
      (filter (fun f => negb (Patterns.draftRegex_test (Renderer.content f)))
              docFiles)
  /\ (forall f,
        Patterns.draftRegex_test (Renderer.content f) = true
        <-> keyThenValue (lit "draft:") (lit "true") (Renderer.content f))
  /\ (forall f,
        keyThenValue (lit "draft:") (lit "true") (Renderer.content f) ->
        Renderer.tasksOfFile path_join options f = []).
Proof.
  split; [|split].
  - unfold Renderer.plan. now rewrite diagramTasks_filter.
  - intros f. unfold Patterns.draftRegex_test.
    apply keyValueRegex_test_true; [reflexivity|discriminate].
  - intros f H. unfold Renderer.tasksOfFile.
    assert (E : Patterns.draftRegex_test (Renderer.content f) = true).
    { unfold Patterns.draftRegex_test.
      apply keyValueRegex_test_true; [reflexivity|discriminate|exact H]. }
    now rewrite E.
Qed.

Section FileNameFacts.

Import Renderer.

(** With identities that hold no [-], the first [-] of a file name ends the
    identity. *)
Lemma filenameOf_inj_without_dash (i1 l1 i2 l2 suffix format : jsstring) :
  ~ In 45%N i1 -> ~ In 45%N i2 ->
  filenameOf i1 l1 suffix format = filenameOf i2 l2 suffix format ->
  i1 = i2 /\ l1 = l2.
Proof.
  unfold filenameOf. change (lit "-") with [45%N].
  revert i2. induction i1 as [|c i1 IH]; intros [|d i2] H1 H2 E.
  - split; [reflexivity|].
    cbn [app] in E. injection E as E.
    rewrite !app_assoc in E. apply app_inv_tail in E.
    now apply app_inv_tail in E.
  - exfalso. apply H2. cbn [app] in E. injection E as E _. now left.
  - exfalso. apply H1. cbn [app] in E. injection E as E _. now left.
  - cbn [app] in E. injection E as -> E.
    destruct (IH i2) as [-> ->]; try assumption.
    + intros Hin. apply H1. now right.
    + intros Hin. apply H2. now right.
    + now split.
Qed.

(** Two texts that end the same text: one ends the other. *)
Lemma app_eq_endsWith (x s1 y s2 : jsstring) :
  x ++ s1 = y ++ s2 -> endsWith s1 s2 \/ endsWith s2 s1.
Proof.
  revert y. induction x as [|c x IH]; intros y E.
  - right. exists y. exact E.
  - destruct y as [|d y].
    + left. exists (c :: x). symmetry. exact E.
    + injection E as _ E. now apply (IH y).
Qed.

End FileNameFacts.

(** A digest holds no [-]. *)
Lemma createHash_without_dash (str : jsstring) :
  ~ In 45%N (Renderer.createHash str).
Proof.
  intros H. pose proof (createHash_hex str) as Hh.
  rewrite Forall_forall in Hh. apply Hh in H. discriminate.
Qed.

(** X8.  When no identity of the scanned tasks holds a [-], as is the case
    of every identity that is a digest, two scanned tasks have the same file
    name only if they agree on identity and locale: the plan then has
    exactly one task for each (identity, locale, variant) triple. *)
Theorem plan_is_exact_without_dash
    (path_join : jsstring -> jsstring -> jsstring)
    (options : Renderer.Options) (docFiles : list Renderer.DocFile) :
  (forall t, In t (Renderer.diagramTasks path_join options docFiles) ->
             ~ In 45%N (Renderer.id t)) ->
  (forall t1 t2,
      In t1 (Renderer.diagramTasks path_join options docFiles) ->
      In t2 (Renderer.diagramTasks path_join options docFiles) ->
      Renderer.filename t1 = Renderer.filename t2 ->
      Renderer.id t1 = Renderer.id t2
      /\ Renderer.locale t1 = Renderer.locale t2)
  /\ List.length (Renderer.plan path_join options docFiles)
     = List.length
         (distinct tripleEqb
            (List.map (tripleOf options)
                      (Renderer.diagramTasks path_join options docFiles)))
  /\ (forall block, noExplicitId block -> ~ In 45%N (Renderer.idOf block)).
Proof.
  intros Hd.
  set (tasks := Renderer.diagramTasks path_join options docFiles) in *.
  assert (Hinj : forall t1 t2, In t1 tasks -> In t2 tasks ->
                   Renderer.filename t1 = Renderer.filename t2 ->
                   Renderer.id t1 = Renderer.id t2
                   /\ Renderer.locale t1 = Renderer.locale t2).
  { intros t1 t2 H1 H2 E.
    rewrite (diagramTasks_filename path_join options docFiles t1 H1) in E.
    rewrite (diagramTasks_filename path_join options docFiles t2 H2) in E.
    apply filenameOf_inj_without_dash in E; auto. }
  split; [exact Hinj|].
  split;
    [|intros block Hb; rewrite (idOf_noExplicitId _ Hb);
      apply createHash_without_dash].
  unfold Renderer.plan. fold tasks.
  pose (g := fun tr : Triple =>
               Renderer.filenameOf (fst (fst tr)) (snd (fst tr))
                                   (Renderer.outputSuffix options)
                                   (Renderer.outputFormat options)).
  assert (Hg : List.map Renderer.filename tasks
               = List.map g (List.map (tripleOf options) tasks)).
  { rewrite map_map. apply map_ext_in. intros t Ht.
    now apply (diagramTasks_filename path_join options docFiles). }
  rewrite <- (length_map Renderer.filename (Renderer.uniqueTasks tasks)).
  rewrite uniqueTasks_filenames, Hg.
  apply distinct_map_eq; [apply tripleEqb_spec|apply eqb_eq|].
  intros x y Hx Hy E.
  apply in_map_iff in Hx, Hy.
  destruct Hx as (t1 & <- & H1), Hy as (t2 & <- & H2).
  unfold g, tripleOf in E |- *. cbn [fst snd] in E.
  apply filenameOf_inj_without_dash in E; auto.
  destruct E as [-> ->]. reflexivity.
Qed.

Lemma plan_is_exact_without_dash_example :
  List.length
    (Renderer.plan joinWithSlash sampleOptions
       [Renderer.mkDocFile (lit "docs/intro.md")
          (sampleBlock "id: a" "  A-->B" ++ nl ++ sampleBlock "id: b" "  A-->");
        Renderer.mkDocFile (lit "i18n/fr/docs/intro.md")
          (sampleBlock "id: a" "  A-->B")])
  = 3.
Proof.
  destruct (plan_is_exact_without_dash joinWithSlash sampleOptions
       [Renderer.mkDocFile (lit "docs/intro.md")
          (sampleBlock "id: a" "  A-->B" ++ nl ++ sampleBlock "id: b" "  A-->");
        Renderer.mkDocFile (lit "i18n/fr/docs/intro.md")
          (sampleBlock "id: a" "  A-->B")]) as (_ & H & _).
  - intros t Ht. vm_compute in Ht.
    destruct Ht as [<-|[<-|[<-|[]]]]; vm_compute;
      intros [E|[]]; discriminate.
  - rewrite H. reflexivity.
Defined.

(** X9.  Two passes whose suffixes are such that neither ends the other, as
    [-light] and [-dark] are, never give the same file name to two tasks,
    whatever their identities and locales. *)
Theorem passes_write_different_files
    (suffix1 suffix2 format : jsstring) :
  ~ endsWith suffix1 suffix2 -> ~ endsWith suffix2 suffix1 ->
  forall id1 locale1 id2 locale2,
    Renderer.filenameOf id1 locale1 suffix1 format
    <> Renderer.filenameOf id2 locale2 suffix2 format.
Proof.
  intros H1 H2 i1 l1 i2 l2 E. unfold Renderer.filenameOf in E.
  rewrite !app_assoc in E. apply app_inv_tail in E. apply app_inv_tail in E.
  rewrite <- !app_assoc in E.
  rewrite (app_assoc i1), (app_assoc (i1 ++ _)) in E.
  rewrite (app_assoc i2), (app_assoc (i2 ++ _)) in E.
  apply app_eq_endsWith in E. tauto.
Qed.

Lemma endsWith_length (a b : jsstring) :
  endsWith a b -> a = skipn (List.length b - List.length a) b.
Proof.
  intros [p ->]. rewrite length_app.
  replace (List.length p + List.length a - List.length a)
    with (List.length p) by lia.
  now rewrite skipn_length_app.
Qed.

Lemma passes_write_different_files_example :
  Renderer.filenameOf (lit "flow") (lit "en") (lit "-light") (lit "svg")
  <> Renderer.filenameOf (lit "flow-en") (lit "light") (lit "-dark") (lit "svg").
Proof.
  apply (passes_write_different_files (lit "-light") (lit "-dark") (lit "svg"));
    intros H; apply endsWith_length in H; discriminate.
Defined.

(* ================================================================== *)
(** * The accounts of a pass *)
(* ================================================================== *)

Section AccountingFacts.

Import Renderer Host Execute.

Variable path_join : jsstring -> jsstring -> jsstring.
Variable options : Options.
Variable stub : Stub.

Lemma count_app (p : Event -> bool) (a b : list Event) :
  count p (a ++ b) = count p a + count p b.
Proof. unfold count. now rewrite filter_app, length_app. Qed.

Lemma count_hostCalls (p : Event -> bool) (evs : list Event) :
  (forall e, isConsole e = true -> p e = false) ->
  count p evs = count p (hostCalls evs).
Proof.
  intros H. unfold count, hostCalls. induction evs as [|e evs IH];
    [reflexivity|].
  cbn [filter]. destruct (isConsole e) eqn:E; cbn [negb].
  - now rewrite (H e E).
  - cbn [filter]. destruct (p e); cbn [List.length]; now rewrite IH.
Qed.

Lemma counts_hostCalls (evs : list Event) :
  count isCacheHit evs = count isCacheHit (hostCalls evs)
  /\ count isRenderOk evs = count isRenderOk (hostCalls evs)
  /\ count isRenderFail evs = count isRenderFail (hostCalls evs)
  /\ count isWriteFail evs = count isWriteFail (hostCalls evs).
Proof.
  repeat split; apply count_hostCalls; intros [] H; try discriminate;
    reflexivity.
Qed.

(** The three ways in which a task ends. *)
Lemma runTask_cases (task : Task) (s : State) :
  exists r s1 evs,
    settle (runTask path_join options stub task) s = (Normal r, s1)
    /\ trace s1 = trace s ++ evs
    /\ renderedCount s1 = renderedCount s + count isRenderOk evs
    /\ skippedCount s1 = skippedCount s + count isCacheHit evs
    /\ count isRenderOk evs + count isCacheHit evs
       + count isRenderFail evs + count isWriteFail evs = 1
    /\ List.length (rejections [r]) = count isWriteFail evs
    /\ (forall e, r = Some e ->
                  writeFile_fault stub (tempInputFileOf path_join options task)
                  = Some e)
    /\ (world s1 = world s
        \/ (world s (outputPath task) = None
            /\ world s1 = worldAfter path_join options stub task (world s))).
Proof.
  destruct (world s (outputPath task)) as [d|] eqn:E.
  - destruct (runTask_cached path_join options stub task s) as (evs & R & C);
      [congruence|].
    destruct (counts_hostCalls evs) as (C1 & C2 & C3 & C4).
    rewrite C in C1, C2, C3, C4.
    eexists _, _, evs. split; [apply (settle_normal _ _ _ _ _ _ R)|].
    cbn [trace renderedCount skippedCount world].
    rewrite C1, C2, C3, C4.
    repeat split; try reflexivity; try (cbn; lia); try discriminate.
    all: now left.
  - destruct (writeFile_fault stub (tempInputFileOf path_join options task))
      as [e|] eqn:Ew.
    + destruct (runTask_write_fault path_join options stub task s e E Ew)
        as (evs & R & C).
      destruct (counts_hostCalls evs) as (C1 & C2 & C3 & C4).
      rewrite C in C1, C2, C3, C4.
      eexists _, _, evs. split; [apply (settle_throw _ _ _ _ _ _ _ R)|].
      cbn [trace renderedCount skippedCount world].
      rewrite C1, C2, C3, C4.
      repeat split; try reflexivity; try (cbn; lia).
      all: try (now left).
      intros e' He'. congruence.
    + destruct (runTask_rendering path_join options stub task s E Ew)
        as (evs & R & C).
      destruct (counts_hostCalls evs) as (C1 & C2 & C3 & C4).
      rewrite C in C1, C2, C3, C4.
      eexists _, _, evs. split; [apply (settle_normal _ _ _ _ _ _ R)|].
      cbn [trace renderedCount skippedCount world].
      rewrite C1, C2, C3, C4.
      unfold renderingCalls.
      repeat split; try reflexivity; try discriminate;
        try (destruct (rendersOk stub task); cbn; lia).
      all: right; now split.
Qed.

Lemma rejections_cons (r : option Error) (rs : list (option Error)) :
  rejections (r :: rs) = rejections [r] ++ rejections rs.
Proof. unfold rejections. cbn [flat_map]. now rewrite app_nil_r. Qed.

(** Every task ends in exactly one of the four ways, the counters count the
    first two, and the rejected promises are those of the tasks whose
    temporary file could not be written.  An invariant of the world that
    rendering a task without output preserves holds after the pool. *)
Lemma runPool_accounts (P : World -> Prop) (tasks : list Task) (s : State) :
  (forall t w, In t tasks -> w (outputPath t) = None -> P w ->
               P (worldAfter path_join options stub t w)) ->
  P (world s) ->
  exists rs s' evs,
    runPool path_join options stub tasks s = (Normal rs, s')
    /\ trace s' = trace s ++ evs
    /\ renderedCount s' = renderedCount s + count isRenderOk evs
    /\ skippedCount s' = skippedCount s + count isCacheHit evs
    /\ count isRenderOk evs + count isCacheHit evs
       + count isRenderFail evs + count isWriteFail evs = List.length tasks
    /\ List.length (rejections rs) = count isWriteFail evs
    /\ (forall e, In e (rejections rs) ->
                  exists t, In t tasks
                            /\ writeFile_fault
                                 stub (tempInputFileOf path_join options t)
                               = Some e)
    /\ P (world s').
Proof.
  revert s. induction tasks as [|t rest IH]; intros s HP H0.
  - exists [], s, []. rewrite app_nil_r.
    repeat split; try reflexivity; try (cbn; lia); try assumption.
    all: intros e [].
  - destruct (runTask_cases t s)
      as (r & s1 & e1 & R1 & T1 & A1 & B1 & N1 & J1 & F1 & W1).
    assert (H1 : P (world s1)).
    { destruct W1 as [->|[E ->]]; [assumption|].
      apply HP; [now left|assumption|assumption]. }
    destruct (IH s1) as (rs & s' & e2 & R2 & T2 & A2 & B2 & N2 & J2 & F2 & W2);
      [intros t' w Ht'; apply HP; now right|assumption|].
    exists (r :: rs), s', (e1 ++ e2).
    rewrite runPool_cons, (bind_normal _ _ _ _ _ R1), (bind_normal _ _ _ _ _ R2).
    rewrite !count_app, rejections_cons, length_app.
    cbn [List.length].
    repeat split; try assumption; try lia.
    + rewrite T2, T1. now rewrite app_assoc.
    + intros e He. apply in_app_or in He. destruct He as [He|He].
      * exists t. split; [now left|]. apply F1.
        destruct r as [e'|]; [|contradiction].
        destruct He as [->|[]]. reflexivity.
      * destruct (F2 e He) as (t' & Ht' & Hf). exists t'. split; [now right|].
        assumption.
Qed.

Lemma promise_all_rejections (rs : list (option Error)) (s : State) :
  promise_all rs s
  = match rejections rs with
    | [] => (Normal tt, s)
    | e :: _ => (Throw e, s)
    end.
Proof.
  induction rs as [|[e|] rs IH]; [reflexivity|reflexivity|].
  cbn [promise_all]. rewrite IH. reflexivity.
Qed.

(** The pass after the pool: fulfilled with the summary when no promise was
    rejected, rejected with the first reason otherwise, nothing printed. *)
Lemma execute_after_pool (tasks : list Task) (s s1 : State)
    (rs : list (option Error)) :
  runPool path_join options stub tasks s = (Normal rs, s1) ->
  execute path_join options stub tasks s
  = match rejections rs with
    | [] => (Normal JsUndefined, addEvents (summaryLines options s1) s1)
    | e :: _ => (Throw e, s1)
    end.
Proof.
  intros R. unfold execute. rewrite (bind_normal _ _ _ _ _ R).
  unfold bind at 1. rewrite promise_all_rejections.
  destruct (rejections rs) as [|e es]; [|reflexivity].
  destruct s1 as [w r k tr].
  unfold success, log, summaryLines. run_monad. rewrite !emit_eq.
  norm_state. rewrite <- !app_assoc. reflexivity.
Qed.

End AccountingFacts.

(* ================================================================== *)
(** * The files of a pass *)
(* ================================================================== *)

Section WorldFacts.

Import Renderer Host Execute.

Variable path_join : jsstring -> jsstring -> jsstring.
Variable options : Options.
Variable stub : Stub.

Lemma removeFile_same (p : jsstring) (w : World) : removeFile p w p = None.
Proof. unfold removeFile. now rewrite eqb_refl. Qed.

(** An invariant of the world that rendering a task without output
    preserves holds after the pass. *)
Lemma execute_invariant (P : World -> Prop) (tasks : list Task) (s : State) :
  (forall t w, In t tasks -> w (outputPath t) = None -> P w ->
               P (worldAfter path_join options stub t w)) ->
  P (world s) ->
  P (world (snd (execute path_join options stub tasks s))).
Proof.
  intros HP H0.
  destruct (runPool_accounts path_join options stub P tasks s HP H0)
    as (rs & s1 & e1 & R & _ & _ & _ & _ & _ & _ & H1).
  now rewrite (execute_world _ _ _ _ _ _ _ R).
Qed.

(** A file that exists and is no temporary file of the tasks is still there
    after the pass, unchanged. *)
Lemma execute_keeps (tasks : list Task) (s : State) (q data : jsstring) :
  (forall t, In t tasks -> q <> tempInputFileOf path_join options t) ->
  world s q = Some data ->
  world (snd (execute path_join options stub tasks s)) q = Some data.
Proof.
  intros Hq Hw.
  apply (execute_invariant (fun w0 => w0 q = Some data)); [|exact Hw].
  intros t w0 Ht Hout H0. rewrite worldAfter_frame; [exact H0|now apply Hq|].
  intros E. rewrite E in H0. congruence.
Qed.

End WorldFacts.

(** X11.  A pass changes no file that exists, the temporary files of its
    tasks apart: an image that is there is not rendered again, not
    overwritten and not deleted.  It touches no path but the temporary files
    and the outputs of its tasks. *)
Theorem pass_keeps_existing_files
    (path_join : jsstring -> jsstring -> jsstring)
    (options : Renderer.Options) (stub : Host.Stub)
    (tasks : list Renderer.Task) (w : Host.World) :
  let w' :=
    Host.world
      (snd (Execute.execute path_join options stub tasks (Execute.initial w)))
  in
  (forall q data,
      (forall t, In t tasks ->
                 q <> Execute.tempInputFileOf path_join options t) ->
      w q = Some data -> w' q = Some data)
  /\ (forall q,
        (forall t, In t tasks ->
                   q <> Execute.tempInputFileOf path_join options t
                   /\ q <> Renderer.outputPath t) ->
        w' q = w q).
Proof.
  cbv zeta. split.
  - intros q data Hq Hw. now apply execute_keeps.
  - intros q Hq.
    apply (execute_invariant path_join options stub (fun w0 => w0 q = w q));
      [|reflexivity].
    intros t w0 Ht Hout H0.
    rewrite worldAfter_frame; [exact H0|now apply Hq|now apply Hq].
Qed.

(* ================================================================== *)
(** * The plugin: [loadContent] *)
(* ================================================================== *)

Section LoadContentFacts.

Import Host Execute Plugin.

Variable path_join : jsstring -> jsstring -> jsstring.
Variable stub : Stub.
Variable merged : Index.PluginOptions.
Variable ctx : Index.Context.
Variable mmdcConfigObject : option (Error + jsstring).
Variable pluginTempDir : jsstring.
Variable docFiles : list Renderer.DocFile.

Lemma resolveThemeConfig_file (s : State) (data : jsstring) :
  world s (absoluteConfigFile path_join merged ctx) = Some data ->
  resolveThemeConfig path_join stub merged ctx mmdcConfigObject pluginTempDir s
  = (Normal (Some (absoluteConfigFile path_join merged ctx), false),
     addEvents [FsAccess (absoluteConfigFile path_join merged ctx) true] s).
Proof.
  intros H. unfold resolveThemeConfig. run_monad.
  now rewrite (fs_access_hit _ _ _ H).
Qed.

Lemma resolveThemeConfig_temp (s : State) (json : jsstring) :
  world s (absoluteConfigFile path_join merged ctx) = None ->
  mmdcConfigObject = Some (inr json) ->
  writeFile_fault stub (tempConfigPath path_join pluginTempDir json) = None ->
  resolveThemeConfig path_join stub merged ctx mmdcConfigObject pluginTempDir s
  = (Normal (Some (tempConfigPath path_join pluginTempDir json), true),
     afterTempConfig (absoluteConfigFile path_join merged ctx)
                     (tempConfigPath path_join pluginTempDir json) json s).
Proof.
  intros H Ho Hw. unfold resolveThemeConfig. run_monad.
  rewrite (fs_access_miss _ _ H), Ho. run_monad.
  now rewrite (fs_writeFile_ok stub _ _ _ Hw).
Qed.

Lemma resolveThemeConfig_none (s : State) :
  world s (absoluteConfigFile path_join merged ctx) = None ->
  mmdcConfigObject = None ->
  resolveThemeConfig path_join stub merged ctx mmdcConfigObject pluginTempDir s
  = (Normal (None, false),
     addEvents [FsAccess (absoluteConfigFile path_join merged ctx) false] s).
Proof.
  intros H Ho. unfold resolveThemeConfig. run_monad.
  now rewrite (fs_access_miss _ _ H), Ho.
Qed.

Lemma resolveThemeConfig_write_fault (s : State) (json : jsstring) (e : Error) :
  world s (absoluteConfigFile path_join merged ctx) = None ->
  mmdcConfigObject = Some (inr json) ->
  writeFile_fault stub (tempConfigPath path_join pluginTempDir json) = Some e ->
  exists evs,
    resolveThemeConfig path_join stub merged ctx mmdcConfigObject
                       pluginTempDir s
    = (Normal (None, false), addEvents evs s)
    /\ hostCalls evs
       = [FsAccess (absoluteConfigFile path_join merged ctx) false;
          FsWriteFile (tempConfigPath path_join pluginTempDir json) json false].
Proof.
  intros H Ho Hw. unfold resolveThemeConfig. run_monad.
  rewrite (fs_access_miss _ _ H), Ho. run_monad.
  rewrite (fs_writeFile_fault stub _ _ _ _ Hw). rewrite emit_eq.
  rewrite !addEvents_addEvents. eexists. split; reflexivity.
Qed.

End LoadContentFacts.

Section LoadContentCases.

Import Host Execute Plugin.

Variable path_join : jsstring -> jsstring -> jsstring.
Variable stub : Stub.
Variable merged : Index.PluginOptions.
Variable ctx : Index.Context.
Variable mmdcConfigObject : option (Error + jsstring).
Variable pluginTempDir : jsstring.
Variable docFiles : list Renderer.DocFile.

(** Without a temporary configuration the [finally] block does nothing. *)
Lemma renderAll_without_temp (s s1 : State) (themeConfigPath : option jsstring) :
  resolveThemeConfig path_join stub merged ctx mmdcConfigObject pluginTempDir s
  = (Normal (themeConfigPath, false), s1) ->
  renderAll path_join stub merged ctx mmdcConfigObject pluginTempDir docFiles s
  = renderThemes path_join stub merged ctx pluginTempDir docFiles
                 themeConfigPath (Index.themesToRender merged ctx) s1.
Proof.
  intros H. unfold renderAll. rewrite (bind_normal _ _ _ _ _ H).
  cbn [fst snd]. unfold try_finally.
  destruct (renderThemes path_join stub merged ctx pluginTempDir docFiles
                         themeConfigPath (Index.themesToRender merged ctx) s1)
    as [r s2].
  reflexivity.
Qed.

Lemma loadContent_production (p : Process) :
  MERMAID_STATIC_RENDERED p = false ->
  loadContent path_join stub true merged ctx mmdcConfigObject pluginTempDir
              docFiles p
  = afterPasses p (renderAll path_join stub merged ctx mmdcConfigObject
                             pluginTempDir docFiles (host p)).
Proof.
  intros H. unfold loadContent, afterPasses. cbn [negb]. rewrite H.
  destruct (renderAll path_join stub merged ctx mmdcConfigObject
                      pluginTempDir docFiles (host p)) as [[[]|e] s];
    reflexivity.
Qed.

End LoadContentCases.

(** X14.  [loadContent] renders in production only, and once: in another
    mode, or when the flag of a finished run is set, it prints one line and
    does nothing else.  Otherwise it looks for the configuration file first.
    When the file exists every pass is given its path, whatever the site
    configuration holds, and the plugin writes and deletes nothing of its
    own; when there is neither file nor object, or when the temporary
    configuration cannot be written, the passes run without configuration.
    The completion is that of the passes; the flag is set when they are
    fulfilled and left as it was when one of them is rejected, so that a
    later call renders again. *)
Theorem loadContent_resolves_configuration
    (path_join : jsstring -> jsstring -> jsstring) (stub : Host.Stub)
    (merged : Index.PluginOptions) (ctx : Index.Context)
    (mmdcConfigObject : option (Host.Error + jsstring))
    (pluginTempDir : jsstring) (docFiles : list Renderer.DocFile)
    (p : Plugin.Process) :
  let load production :=
    Plugin.loadContent path_join stub production merged ctx mmdcConfigObject
                       pluginTempDir docFiles p in
  let passes themeConfigPath s :=
    Plugin.renderThemes path_join stub merged ctx pluginTempDir docFiles
                        themeConfigPath (Index.themesToRender merged ctx) s in
  let configFile := Plugin.absoluteConfigFile path_join merged ctx in
  (forall production,
      production = false \/ Plugin.MERMAID_STATIC_RENDERED p = true ->
      fst (load production) = Host.Normal tt
      /\ Plugin.MERMAID_STATIC_RENDERED (snd (load production))
         = Plugin.MERMAID_STATIC_RENDERED p
      /\ Host.world (Plugin.host (snd (load production)))
         = Host.world (Plugin.host p)
      /\ exists line,
           Host.trace (Plugin.host (snd (load production)))
           = Host.trace (Plugin.host p) ++ [Host.ConsoleLog line])
  /\ (Plugin.MERMAID_STATIC_RENDERED p = false ->
      (forall data,
          Host.world (Plugin.host p) configFile = Some data ->
          load true
          = afterPasses p
              (passes (Some configFile)
                      (addEvents [Host.FsAccess configFile true]
                                 (Plugin.host p))))
      /\ (Host.world (Plugin.host p) configFile = None ->
          mmdcConfigObject = None ->
          load true
          = afterPasses p
              (passes None
                      (addEvents [Host.FsAccess configFile false]
                                 (Plugin.host p))))
      /\ (forall json e,
            Host.world (Plugin.host p) configFile = None ->
            mmdcConfigObject = Some (inr json) ->
            Host.writeFile_fault
              stub (Plugin.tempConfigPath path_join pluginTempDir json)
            = Some e ->
            exists evs,
              load true = afterPasses p (passes None
                                                (addEvents evs (Plugin.host p)))
              /\ hostCalls evs
                 = [Host.FsAccess configFile false;
                    Host.FsWriteFile
                      (Plugin.tempConfigPath path_join pluginTempDir json)
                      json false]))
  /\ (fst (load true) = Host.Normal tt ->
      Plugin.MERMAID_STATIC_RENDERED (snd (load true)) = true)
  /\ (forall e,
        fst (load true) = Host.Throw e ->
        Plugin.MERMAID_STATIC_RENDERED (snd (load true))
        = Plugin.MERMAID_STATIC_RENDERED p).
Proof.
  cbv zeta. split; [|split; [|split]].
  - intros production H. unfold Plugin.loadContent.
    destruct production; cbn [negb].
    + destruct H as [H|H]; [discriminate|]. rewrite H. cbn [fst snd].
      repeat split; try assumption. eexists. reflexivity.
    + cbn [fst snd]. repeat split. eexists. reflexivity.
  - intros Hm. rewrite (loadContent_production _ _ _ _ _ _ _ _ Hm).
    split; [|split].
    + intros data H.
      now rewrite (renderAll_without_temp
                     _ _ _ _ _ _ _ _ _ _
                     (resolveThemeConfig_file _ _ _ _ _ _ _ _ H)).
    + intros H Ho.
      now rewrite (renderAll_without_temp
                     _ _ _ _ _ _ _ _ _ _
                     (resolveThemeConfig_none _ _ _ _ _ _ _ H Ho)).
    + intros json e H Ho Hw.
      destruct (resolveThemeConfig_write_fault
                  path_join stub merged ctx mmdcConfigObject pluginTempDir
                  (Plugin.host p) json e H Ho Hw) as (evs & R & C).
      exists evs. split; [|exact C].
      now rewrite (renderAll_without_temp _ _ _ _ _ _ _ _ _ _ R).
  - unfold Plugin.loadContent. cbn [negb].
    destruct (Plugin.MERMAID_STATIC_RENDERED p) eqn:Hm; [reflexivity|].
    destruct (Plugin.renderAll path_join stub merged ctx mmdcConfigObject
                               pluginTempDir docFiles (Plugin.host p))
      as [[[]|e] s]; cbn [fst snd]; [reflexivity|discriminate].
  - intros e. unfold Plugin.loadContent. cbn [negb].
    destruct (Plugin.MERMAID_STATIC_RENDERED p) eqn:Hm; [discriminate|].
    destruct (Plugin.renderAll path_join stub merged ctx mmdcConfigObject
                               pluginTempDir docFiles (Plugin.host p))
      as [[[]|e'] s]; cbn [fst snd]; [discriminate|reflexivity].
Qed.

(* ================================================================== *)
(** * The figure and the tree *)
(* ================================================================== *)

Section FigureStructure.

Import Patterns Store Remark.

Variable store : StoreOptions.
Variable production : bool.

Lemma childrenNodes_no_figcaption (md : Metadata) (id code filePath : jsstring) :
  filter (isElement (lit "figcaption"))
         (childrenNodes store production md id code filePath)
  = [].
Proof.
  unfold childrenNodes.
  destruct production; [destruct (renderDualThemes store)|]; reflexivity.
Qed.

Lemma figureNode_caption (md : Metadata) (id code filePath : jsstring) :
  md_caption md <> Some [] ->
  let node := figureNode store production md id code filePath in
  attribute (lit "id") (attributesOf node) = [id]
  /\ attribute (lit "role") (attributesOf node) = [lit "img"]
  /\ attribute (lit "aria-labelledby") (attributesOf node)
     = match md_caption md with
       | Some _ => [id ++ lit "-caption"]
       | None => []
       end
  /\ childrenNamed (lit "figcaption") node
     = match md_caption md with
       | Some caption =>
           [Jsx (lit "figcaption") [(lit "id", id ++ lit "-caption")]
                [Text caption]]
       | None => []
       end
  /\ attribute (lit "aria-describedby") (attributesOf node)
     = match md_descriptionId md with
       | Some d => [d]
       | None => []
       end.
Proof.
  intros Hc. cbv zeta. unfold figureNode, childrenNamed.
  cbn [attributesOf childrenOf].
  rewrite filter_app, childrenNodes_no_figcaption.
  destruct (md_caption md) as [[|c r]|]; [exfalso; now apply Hc| |];
    destruct (md_descriptionId md) as [d|];
    repeat split; reflexivity.
Qed.

End FigureStructure.

(** X13.  The figure by which the transformer replaces a mermaid block
    carries the identity of the block as its [id] and the role [img].  It
    has a caption element exactly when the header gives a caption; the
    element holds that text and has the id that [aria-labelledby] of the
    figure names, and without caption the figure has no [aria-labelledby]:
    the attribute never names an element that is not there.
    [aria-describedby] is there exactly when the header gives a
    [descriptionId].  Outside production the figure holds the code of the
    block, header removed, for the client to render, and no image. *)
Theorem figure_is_labelled_by_its_caption
    (store : Store.StoreOptions) (production : bool)
    (filePath value : jsstring) :
  Patterns.prerenderRegex_test (Patterns.metadataContent_of value) = false ->
  let node := Remark.visitCode store production filePath (lit "mermaid") value in
  let md := Remark.metadataOf (Patterns.metadataContent_of value) in
  attribute (lit "id") (attributesOf node) = [Remark.idOf value]
  /\ attribute (lit "role") (attributesOf node) = [lit "img"]
  /\ attribute (lit "aria-labelledby") (attributesOf node)
     = flat_map (fun caption => attribute (lit "id") (attributesOf caption))
                (childrenNamed (lit "figcaption") node)
  /\ childrenNamed (lit "figcaption") node
     = match Remark.md_caption md with
       | Some caption =>
           [Remark.Jsx (lit "figcaption")
                       [(lit "id", Remark.idOf value ++ lit "-caption")]
                       [Remark.Text caption]]
       | None => []
       end
  /\ attribute (lit "aria-describedby") (attributesOf node)
     = match Remark.md_descriptionId md with
       | Some d => [d]
       | None => []
       end
  /\ (production = false ->
      childrenOf node
      = Remark.Code (lit "mermaid") (Remark.mermaidCodeOf value)
          :: childrenNamed (lit "figcaption") node
      /\ imageSources node = []).
Proof.
  intros Hp. cbv zeta. unfold Remark.visitCode.
  change (JS.eqb (lit "mermaid") (lit "mermaid")) with true.
  cbn [negb]. rewrite Hp.
  set (md := Remark.metadataOf (Patterns.metadataContent_of value)).
  assert (Hc : Remark.md_caption md <> Some []).
  { intros E. apply (field_clean (lit "caption:")) in E. now destruct E. }
  destruct (figureNode_caption store production md (Remark.idOf value)
                               (Remark.mermaidCodeOf value) filePath Hc)
    as (H1 & H2 & H3 & H4 & H5).
  split; [exact H1|]. split; [exact H2|].
  split; [|split; [exact H4|split; [exact H5|]]].
  - rewrite H3, H4. now destruct (Remark.md_caption md).
  - intros ->. rewrite H4. clear H1 H2 H3 H4 H5.
    unfold Remark.figureNode, Remark.childrenNodes.
    cbn [childrenOf imageSources app].
    destruct (Remark.md_caption md) as [[|c r]|];
      [exfalso; now apply Hc| |]; split; reflexivity.
Qed.

Lemma figure_is_labelled_by_its_caption_example :
  attribute (lit "aria-labelledby")
    (attributesOf
       (Remark.visitCode Store.fallbacks true (lit "docs/intro.md")
          (lit "mermaid")
          (unlines ["---"; "id: flow"; "caption: The flow"; "---";
                    "graph TD"; "  A-->B"]%string)))
  = [lit "flow-caption"].
Proof.
  destruct (figure_is_labelled_by_its_caption
              Store.fallbacks true (lit "docs/intro.md")
              (unlines ["---"; "id: flow"; "caption: The flow"; "---";
                        "graph TD"; "  A-->B"]%string))
    as (_ & _ & H & _).
  - vm_compute. reflexivity.
  - rewrite H. vm_compute. reflexivity.
Defined.

(** X16.  The three parts of the plugin agree on the mode.  With the colour
    mode switch enabled there are two passes, the transformer references
    two images for a block, and the style sheet that shows one of them is
    injected; with the switch disabled there is one pass, one image and no
    style sheet.  The store holds a default suffix exactly in the second
    case, so that the name of the one image never holds [null]. *)
Theorem modes_are_consistent
    (path_join : jsstring -> jsstring -> jsstring)
    (merged : Index.PluginOptions) (ctx : Index.Context)
    (filePath value dirname : jsstring) :
  Patterns.prerenderRegex_test (Patterns.metadataContent_of value) = false ->
  let passes := List.length (Index.themesToRender merged ctx) in
  let images :=
    List.length
      (imageSources
         (Remark.visitCode (Index.storeOptions path_join merged ctx) true
                           filePath (lit "mermaid") value)) in
  let styles :=
    List.length (Plugin.getClientModules path_join ctx dirname) in
  images = passes
  /\ passes = 1 + styles
  /\ (styles = 0 <-> Index.colorMode_disableSwitch ctx = true)
  /\ (Store.defaultThemeSuffix (Index.storeOptions path_join merged ctx) = None
      <-> Store.renderDualThemes (Index.storeOptions path_join merged ctx)
          = true).
Proof.
  intros Hp. cbv zeta. unfold Remark.visitCode.
  change (JS.eqb (lit "mermaid") (lit "mermaid")) with true.
  cbn [negb]. rewrite Hp.
  unfold Remark.figureNode, Remark.childrenNodes, Index.themesToRender,
    Plugin.getClientModules, Index.storeOptions.
  cbn [Store.renderDualThemes Store.defaultThemeSuffix imageSources].
  unfold Index.defaultThemeSuffix.
  rewrite flat_map_app.
  destruct (Index.colorMode_disableSwitch ctx); cbn [negb];
    destruct (truthy _); cbn; repeat split; congruence.
Qed.

Lemma modes_are_consistent_example :
  List.length
    (imageSources
       (Remark.visitCode
          (Index.storeOptions joinWithSlash (Index.defaults 4) sampleContext)
          true (lit "docs/intro.md") (lit "mermaid")
          (unlines ["graph TD"; "  A-->B"]%string)))
  = 1.
Proof.
  destruct (modes_are_consistent
              joinWithSlash (Index.defaults 4) sampleContext
              (lit "docs/intro.md") (unlines ["graph TD"; "  A-->B"]%string)
              (lit "/plugin"))
    as (H & _ & _ & _).
  - vm_compute. reflexivity.
  - rewrite H. reflexivity.
Defined.

Section TreeFacts.

Import Patterns Store Remark Transform.

Variable store : StoreOptions.
Variable production : bool.
Variable filePath : jsstring.

Lemma Node_ind_Forall (P : Node -> Prop) :
  (forall lang value, P (Code lang value)) ->
  (forall value, P (Text value)) ->
  (forall name attributes children,
      Forall P children -> P (Jsx name attributes children)) ->
  forall tree, P tree.
Proof.
  intros HC HT HJ. fix IH 1.
  intros [lang value|value|name attributes children];
    [apply HC|apply HT|].
  apply HJ. induction children as [|c cs IHcs]; constructor;
    [apply IH|apply IHcs].
Qed.

(** The visitor and [visitCode] describe the same replacement. *)
Lemma visitor_visitCode (lang value : jsstring) :
  match visitor store production filePath lang value with
  | (node', None) => node'
  | (_, Some newNode) => newNode
  end
  = visitCode store production filePath lang value.
Proof.
  unfold visitor, visitCode.
  destruct (negb (JS.eqb lang (lit "mermaid"))); [reflexivity|].
  cbv zeta.
  now destruct (prerenderRegex_test (metadataContent_of value)).
Qed.

Lemma visit_Jsx (here : Path) (name : jsstring) (attributes : list Attribute)
    (children : list Node) :
  visit store production filePath here (Jsx name attributes children)
  = (Jsx name attributes
         (fst (visitChildren store production filePath
                             (visit store production filePath)
                             here 0 children)),
     snd (visitChildren store production filePath
                        (visit store production filePath) here 0 children)).
Proof.
  cbn [visit].
  now destruct (visitChildren store production filePath
                              (visit store production filePath)
                              here 0 children).
Qed.

Lemma visitChildren_cons (here : Path) (i : nat) (c : Node) (rest : list Node) :
  visitChildren store production filePath (visit store production filePath)
                here i (c :: rest)
  = (fst (visitChild store production filePath here i c)
       :: fst (visitChildren store production filePath
                             (visit store production filePath)
                             here (S i) rest),
     snd (visitChild store production filePath here i c)
       ++ snd (visitChildren store production filePath
                             (visit store production filePath)
                             here (S i) rest)).
Proof.
  cbn [visitChildren]. unfold visitChild.
  destruct (visitChildren store production filePath
                          (visit store production filePath) here (S i) rest).
  destruct c as [lang value|value|name attributes children].
  - now destruct (visitor store production filePath lang value).
  - reflexivity.
  - now destruct (visit store production filePath (here ++ [i])
                        (Jsx name attributes children)).
Qed.

(** The traversal does not depend on where the tree lies, the parents of
    its tasks apart. *)
Lemma visit_prefix (tree : Node) :
  forall here,
    visit store production filePath here tree
    = (fst (visit store production filePath [] tree),
       List.map (addPrefix here)
                (snd (visit store production filePath [] tree))).
Proof.
  induction tree as [lang value|value|name attributes children IH]
    using Node_ind_Forall;
    intros here; [reflexivity|reflexivity|].
  rewrite !visit_Jsx. cbn [fst snd].
  assert (H : forall i,
             visitChildren store production filePath
                           (visit store production filePath) here i children
             = (fst (visitChildren store production filePath
                                   (visit store production filePath)
                                   [] i children),
                List.map (addPrefix here)
                         (snd (visitChildren store production filePath
                                             (visit store production filePath)
                                             [] i children)))).
  { induction IH as [|c rest Hc _ IHrest]; intros i; [reflexivity|].
    rewrite !visitChildren_cons. rewrite (IHrest (S i)). cbn [fst snd].
    rewrite map_app. unfold visitChild.
    destruct c as [lang value|value|name' attributes' children'].
    - cbn [fst snd].
      destruct (snd (visitor store production filePath lang value));
        cbn [List.map]; unfold addPrefix; cbn [parent index newNode];
        rewrite ?app_nil_r; reflexivity.
    - reflexivity.
    - rewrite (Hc (here ++ [i])), (Hc ([] ++ [i])). cbn [fst snd].
      rewrite map_map. f_equal. f_equal.
      apply map_ext. intros r. unfold addPrefix. cbn [parent index newNode].
      now rewrite <- app_assoc. }
  now rewrite H.
Qed.

Lemma applyTasks_app (a b : list Replacement) (tree : Node) :
  applyTasks (a ++ b) tree = applyTasks a (applyTasks b tree).
Proof. unfold applyTasks. apply fold_right_app. Qed.

Lemma splice_app (pre : list Node) (x y : Node) (post : list Node) :
  splice (List.length pre) y (pre ++ x :: post) = pre ++ y :: post.
Proof.
  unfold splice. induction pre as [|c pre IH]; [reflexivity|].
  cbn [List.length app firstn skipn]. cbn [skipn] in IH. now rewrite IH.
Qed.

Lemma updateAt_app (pre : list Node) (f : Node -> Node) (x : Node)
    (post : list Node) :
  updateAt (List.length pre) f (pre ++ x :: post) = pre ++ f x :: post.
Proof. induction pre as [|c pre IH]; cbn; [reflexivity|now rewrite IH]. Qed.

(** The tasks of a child change that child only. *)
Lemma applyTasks_child (tasks : list Replacement) (name : jsstring)
    (attributes : list Attribute) (pre : list Node) (x : Node)
    (post : list Node) :
  applyTasks (List.map (addPrefix [List.length pre]) tasks)
             (Jsx name attributes (pre ++ x :: post))
  = Jsx name attributes (pre ++ applyTasks tasks x :: post).
Proof.
  induction tasks as [|r tasks IH]; [reflexivity|].
  cbn [List.map]. unfold applyTasks in *. cbn [fold_right]. rewrite IH.
  unfold addPrefix at 1 2 3. cbn [parent index newNode app replace].
  now rewrite updateAt_app.
Qed.

(** Carrying out the tasks of a traversal, the last one first, replaces
    every [code] node below a parent. *)
Lemma visit_replaceAll (tree : Node) :
  forall name attributes children,
    tree = Jsx name attributes children ->
    applyTasks (snd (visit store production filePath [] tree))
               (fst (visit store production filePath [] tree))
    = replaceAll store production filePath tree.
Proof.
  induction tree as [lang value|value|name0 attributes0 children0 IH]
    using Node_ind_Forall;
    intros name attributes children E; [discriminate|discriminate|].
  clear E name attributes children.
  rewrite visit_Jsx. cbn [fst snd replaceAll].
  assert (H : forall i pre,
             List.length pre = i ->
             applyTasks
               (snd (visitChildren store production filePath
                                   (visit store production filePath)
                                   [] i children0))
               (Jsx name0 attributes0
                    (pre ++ fst (visitChildren
                                   store production filePath
                                   (visit store production filePath)
                                   [] i children0)))
             = Jsx name0 attributes0
                   (pre ++ List.map (replaceAll store production filePath)
                                    children0)).
  { induction IH as [|c rest Hc _ IHrest]; intros i pre Hi; [reflexivity|].
    rewrite visitChildren_cons. cbn [fst snd List.map].
    rewrite applyTasks_app.
    match goal with
    | |- context [pre ++ ?c' :: ?rest'] =>
        change (pre ++ c' :: rest') with (pre ++ [c'] ++ rest')
    end.
    rewrite app_assoc, (IHrest (S i)) by (rewrite length_app; cbn; lia).
    rewrite <- app_assoc. cbn [app]. subst i. unfold visitChild. cbn [app].
    destruct c as [lang value|value|name' attributes' children'].
    - cbn [fst snd replaceAll]. rewrite <- visitor_visitCode.
      destruct (visitor store production filePath lang value)
        as [node' [figure|]]; cbn [fst snd]; [|reflexivity].
      unfold applyTasks. cbn [fold_right parent index newNode replace].
      now rewrite splice_app.
    - reflexivity.
    - rewrite (visit_prefix (Jsx name' attributes' children')
                            [List.length pre]).
      cbn [fst snd app].
      rewrite applyTasks_child.
      now rewrite (Hc name' attributes' children' eq_refl). }
  exact (H 0 [] eq_refl).
Qed.

End TreeFacts.

(** X17.  The transformer replaces every mermaid block of a tree, at any
    depth, by its figure, and updates the value of those that disable
    prerendering; it keeps every other node, the number and the order of
    the children of every parent.  Collecting the replacements during the
    traversal and carrying them out afterwards, the last one first, gives
    what replacing each node on the spot would give.  A tree that is a
    single mermaid block to prerender has no parent to put the figure in:
    the transformer throws. *)
Theorem transformer_replaces_every_block
    (store : Store.StoreOptions) (production : bool) (filePath : jsstring) :
  (forall name attributes children,
      Transform.transformer store production filePath
                            (Remark.Jsx name attributes children)
      = Some (replaceAll store production filePath
                         (Remark.Jsx name attributes children)))
  /\ (forall name attributes children,
        List.length
          (childrenOf (replaceAll store production filePath
                                  (Remark.Jsx name attributes children)))
        = List.length children)
  /\ (forall value,
        Transform.transformer store production filePath
                              (Remark.Code (lit "mermaid") value)
        = if Patterns.prerenderRegex_test (Patterns.metadataContent_of value)
          then Some (Remark.Code (lit "mermaid") (Remark.mermaidCodeOf value))
          else None).
Proof.
  split; [|split].
  - intros name attributes children. unfold Transform.transformer.
    pose proof (visit_replaceAll store production filePath
                                 (Remark.Jsx name attributes children)
                                 name attributes children eq_refl) as H.
    destruct (Transform.visit store production filePath []
                              (Remark.Jsx name attributes children))
      as [tree' tasks].
    cbn [fst snd] in H. unfold applyTasks in H.
    rewrite <- (rev_involutive tasks) in H.
    rewrite fold_left_rev_right in H. f_equal. exact H.
  - intros name attributes children. cbn [replaceAll childrenOf].
    apply length_map.
  - intros value. unfold Transform.transformer, Transform.visitor.
    change (JS.eqb (lit "mermaid") (lit "mermaid")) with true. cbn [negb].
    cbv zeta.
    now destruct (Patterns.prerenderRegex_test
                    (Patterns.metadataContent_of value)).
Qed.

(* ================================================================== *)
(** * From the files to the images *)
(* ================================================================== *)

Section EndToEnd.

Import Patterns Renderer Host Execute.

Variable path_join : jsstring -> jsstring -> jsstring.
Variable options : Options.
Variable stub : Stub.

(** A block of a scanned file that does not disable prerendering has its
    task among the scanned ones. *)
Lemma diagramTasks_intro (docFiles : list DocFile) (file : DocFile)
    (block : jsstring) :
  In file docFiles ->
  draftRegex_test (content file) = false ->
  In block (mermaidBlocks (content file)) ->
  prerenderRegex_test (metadataContent_of block) = false ->
  exists t,
    In t (diagramTasks path_join options docFiles)
    /\ filename t
       = filenameOf (idOf block) (localeOf options (relativePath file))
                    (outputSuffix options) (outputFormat options).
Proof.
  intros Hf Hd Hb Hp. eexists. split.
  - unfold diagramTasks. apply in_flat_map. exists file. split; [exact Hf|].
    unfold tasksOfFile. rewrite Hd. apply in_flat_map. exists block.
    split; [exact Hb|]. rewrite (taskOfBlock_some _ _ _ _ Hp). now left.
  - reflexivity.
Qed.

(** The plan holds a task for every file name of the scanned tasks, and the
    output path of a planned task is made of its file name. *)
Lemma plan_covers_filename (docFiles : list DocFile) (t : Task) :
  In t (diagramTasks path_join options docFiles) ->
  exists u,
    In u (plan path_join options docFiles)
    /\ filename u = filename t
    /\ outputPath u = path_join (outputDir options) (filename u).
Proof.
  intros Ht.
  assert (H : In (filename t)
                 (List.map filename (plan path_join options docFiles))).
  { unfold plan. rewrite uniqueTasks_filenames.
    apply (distinct_In _ JS.eqb eqb_eq). now apply in_map. }
  apply in_map_iff in H. destruct H as (u & Hu & Hin).
  exists u. split; [exact Hin|split; [exact Hu|]].
  apply plan_In_diagramTasks, diagramTasks_origin in Hin.
  destruct Hin as (file & block & _ & _ & _ & _ & ->). reflexivity.
Qed.

End EndToEnd.



(* ================================================================== *)
(** * The render pool under every schedule *)
(* ================================================================== *)

Section StepFacts.

Import Renderer Host Execute Interleaved.

Variable path_join : jsstring -> jsstring -> jsstring.
Variable options : Options.
Variable stub : Stub.

(** A step never throws, and it does what [effectOf] tells. *)
Lemma stepTask_effect (task : Task) (phase : Phase) (s : State) :
  exists evs,
    stepTask path_join options stub task phase s
    = (Normal (next (effectOf path_join options stub task phase (world s))),
       mkSt (after (effectOf path_join options stub task phase (world s)))
            (renderedCount s
             + rendered (effectOf path_join options stub task phase (world s)))
            (skippedCount s
             + skipped (effectOf path_join options stub task phase (world s)))
            (trace s ++ evs))
    /\ hostCalls evs
       = calls (effectOf path_join options stub task phase (world s)).
Proof.
  destruct s as [w r k tr]. cbn [world renderedCount skippedCount trace].
  destruct phase; unfold stepTask, effectOf; cbv zeta.
  - (* Access *)
    destruct (w (outputPath task)) as [d|] eqn:E.
    + run_monad. rewrite (fs_access_hit _ d (mkSt w r k tr) E).
      unfold success, incr_skippedCount. rewrite emit_eq. run_monad.
      norm_state. cbn [next after rendered skipped calls].
      rewrite Nat.add_0_r, Nat.add_1_r, <- app_assoc.
      eexists. split; reflexivity.
    + run_monad. rewrite (fs_access_miss _ (mkSt w r k tr) E).
      unfold log. rewrite emit_eq. run_monad. norm_state.
      cbn [next after rendered skipped calls].
      rewrite !Nat.add_0_r, <- app_assoc.
      eexists. split; reflexivity.
  - (* Write *)
    destruct (writeFile_fault stub (tempInputFileOf path_join options task))
      as [e|] eqn:Ew.
    + run_monad. rewrite (fs_writeFile_fault stub _ _ _ _ Ew).
      norm_state. cbn [next after rendered skipped calls].
      rewrite !Nat.add_0_r.
      eexists. split; reflexivity.
    + run_monad. rewrite (fs_writeFile_ok stub _ _ _ Ew).
      unfold log. rewrite emit_eq. run_monad. norm_state.
      cbn [next after rendered skipped calls].
      rewrite !Nat.add_0_r, <- app_assoc.
      eexists. split; reflexivity.
  - (* Exec *)
    destruct (w (tempInputFileOf path_join options task)) as [source|] eqn:Ei.
    + destruct (mmdc stub source) as [err|image] eqn:Em.
      * run_monad.
        rewrite (execAsync_fail stub _ _ _ source err (mkSt w r k tr) Ei Em).
        unfold error. rewrite emit_eq, !console_error_if_eq. run_monad.
        norm_state. cbn [next after rendered skipped calls].
        rewrite !Nat.add_0_r, <- !app_assoc.
        eexists. split; [reflexivity|].
        rewrite !hostCalls_app, !hostCalls_consoleOut. reflexivity.
      * run_monad.
        rewrite (execAsync_ok stub _ _ _ source image (mkSt w r k tr) Ei Em).
        unfold success, incr_renderedCount. rewrite emit_eq. run_monad.
        norm_state. cbn [next after rendered skipped calls].
        rewrite Nat.add_0_r, Nat.add_1_r, <- !app_assoc.
        eexists. split; reflexivity.
    + run_monad. unfold execAsync, bind, getWorld.
      cbn [world]. rewrite Ei. rewrite emit_eq. unfold throw.
      unfold error. rewrite emit_eq, !console_error_if_eq. run_monad.
      norm_state. cbn [next after rendered skipped calls].
      rewrite !Nat.add_0_r, <- !app_assoc.
      eexists. split; [reflexivity|].
      rewrite !hostCalls_app, !hostCalls_consoleOut. reflexivity.
  - (* Unlink *)
    destruct (unlink_fault stub (tempInputFileOf path_join options task))
      as [ue|] eqn:Eu.
    + run_monad. rewrite (fs_unlink_fault stub _ _ _ Eu).
      unfold error. rewrite emit_eq. norm_state.
      cbn [next after rendered skipped calls].
      rewrite !Nat.add_0_r, <- !app_assoc.
      eexists. split; reflexivity.
    + destruct (w (tempInputFileOf path_join options task)) as [d|] eqn:Ei.
      * run_monad. rewrite (fs_unlink_ok stub _ d (mkSt w r k tr) Eu Ei).
        norm_state. cbn [next after rendered skipped calls].
        rewrite !Nat.add_0_r.
        eexists. split; reflexivity.
      * run_monad. unfold fs_unlink, bind, getWorld. rewrite Eu.
        cbn [world]. rewrite Ei. rewrite emit_eq. unfold throw.
        unfold error. rewrite emit_eq. norm_state.
        cbn [next after rendered skipped calls].
        rewrite !Nat.add_0_r, <- !app_assoc.
        eexists. split; reflexivity.
Qed.

End StepFacts.

Section InterleaveFacts.

Import Renderer Host Execute Interleaved.

Variable path_join : jsstring -> jsstring -> jsstring.
Variable options : Options.
Variable stub : Stub.

Lemma replaceAt_split (i : nat) (threads : list Thread) (thread : Thread) :
  nth_error threads i = Some thread ->
  exists pre post,
    threads = pre ++ thread :: post
    /\ List.length pre = i
    /\ forall x, replaceAt i x threads = pre ++ x :: post.
Proof.
  revert i. induction threads as [|t rest IH]; intros [|i] H;
    try discriminate.
  - injection H as ->. exists [], rest. now repeat split.
  - destruct (IH i H) as (pre & post & -> & Hl & Hr).
    exists (t :: pre), post. repeat split.
    + cbn. now rewrite Hl.
    + intros x. cbn. now rewrite Hr.
Qed.

(** What every step keeps, the pool keeps: an invariant of the tasks and
    the state holds when [Promise.all] settles, and the pool never
    throws. *)
Lemma interleave_invariant (Inv : list Thread -> State -> Prop) :
  (forall pre task phase post s evs,
      Inv (pre ++ (task, Pending phase) :: post) s ->
      hostCalls evs
      = calls (effectOf path_join options stub task phase (world s)) ->
      Inv (pre ++ (task,
                   next (effectOf path_join options stub task phase (world s)))
               :: post)
          (stepped path_join options stub task phase evs s)) ->
  forall schedule threads s,
    Inv threads s ->
    exists r threads' s',
      interleave path_join options stub schedule threads s
      = (Normal (r, threads'), s')
      /\ Inv threads' s'.
Proof.
  intros Hstep schedule.
  induction schedule as [|i rest IH]; intros threads s H.
  - exists None, threads, s. now split.
  - cbn [interleave].
    destruct (nth_error threads i) as [[task [phase| |reason0]]|] eqn:E;
      try (now apply IH).
    destruct (replaceAt_split _ _ _ E) as (pre & post & -> & Hl & Hr).
    destruct (stepTask_effect path_join options stub task phase s)
      as (evs & R & C).
    rewrite (bind_normal _ _ _ _ _ R). rewrite Hr.
    pose proof (Hstep pre task phase post s evs H C) as H'.
    unfold stepped in H'.
    destruct (next (effectOf path_join options stub task phase (world s)))
      as [phase'| |reason].
    + now apply IH.
    + now apply IH.
    + eexists _, _, _. split; [reflexivity|exact H'].
Qed.

Lemma background_invariant (Inv : list Thread -> State -> Prop) :
  (forall pre task phase post s evs,
      Inv (pre ++ (task, Pending phase) :: post) s ->
      hostCalls evs
      = calls (effectOf path_join options stub task phase (world s)) ->
      Inv (pre ++ (task,
                   next (effectOf path_join options stub task phase (world s)))
               :: post)
          (stepped path_join options stub task phase evs s)) ->
  forall schedule threads s,
    Inv threads s ->
    exists threads' s',
      background path_join options stub schedule threads s
      = (Normal threads', s')
      /\ Inv threads' s'.
Proof.
  intros Hstep schedule.
  induction schedule as [|i rest IH]; intros threads s H.
  - exists threads, s. now split.
  - cbn [background].
    destruct (nth_error threads i) as [[task [phase| |reason0]]|] eqn:E;
      try (now apply IH).
    destruct (replaceAt_split _ _ _ E) as (pre & post & -> & Hl & Hr).
    destruct (stepTask_effect path_join options stub task phase s)
      as (evs & R & C).
    rewrite (bind_normal _ _ _ _ _ R). rewrite Hr.
    apply IH. exact (Hstep pre task phase post s evs H C).
Qed.

(** The pool stops at the first rejection: it reports a reason exactly
    when one task is rejected, with that reason, and then no other is. *)
Lemma interleave_rejection (schedule : list nat) (threads : list Thread)
    (s : State) r threads' s' :
  Forall notRejected threads ->
  interleave path_join options stub schedule threads s
  = (Normal (r, threads'), s') ->
  match r with
  | None => Forall notRejected threads'
  | Some e =>
      exists pre task post,
        threads' = pre ++ (task, Rejected e) :: post
        /\ Forall notRejected (pre ++ post)
  end.
Proof.
  revert threads s. induction schedule as [|i rest IH]; intros threads s H R.
  - cbn in R. unfold ret in R. injection R as <- <- _. exact H.
  - cbn [interleave] in R.
    destruct (nth_error threads i) as [[task [phase| |reason0]]|] eqn:E;
      try (now apply (IH threads s)).
    destruct (replaceAt_split _ _ _ E) as (pre & post & -> & Hl & Hr).
    destruct (stepTask_effect path_join options stub task phase s)
      as (evs & R1 & C).
    rewrite (bind_normal _ _ _ _ _ R1) in R. rewrite Hr in R.
    assert (Hpp : Forall notRejected (pre ++ post)).
    { apply Forall_app in H. destruct H as [H1 H2].
      inversion H2; subst. apply Forall_app. now split. }
    destruct (next (effectOf path_join options stub task phase (world s)))
      as [phase'| |reason] eqn:En.
    + apply (IH _ _ ) with (2 := R).
      apply Forall_app in Hpp. destruct Hpp as [H1 H2].
      apply Forall_app. split; [assumption|]. constructor; [exact I|assumption].
    + apply (IH _ _ ) with (2 := R).
      apply Forall_app in Hpp. destruct Hpp as [H1 H2].
      apply Forall_app. split; [assumption|]. constructor; [exact I|assumption].
    + unfold ret in R. injection R as <- <- _.
      exists pre, task, post. now split.
Qed.

End InterleaveFacts.

Section SettlingFacts.

Import Renderer Host Execute Interleaved.

Variable path_join : jsstring -> jsstring -> jsstring.
Variable options : Options.
Variable stub : Stub.

Lemma effect_rank (task : Task) (phase : Phase) (w : World) :
  rank (next (effectOf path_join options stub task phase w))
  < rank (Pending phase).
Proof.
  destruct phase; unfold effectOf; cbv zeta.
  - destruct (w (outputPath task)); cbn; lia.
  - destruct (writeFile_fault stub _); cbn; lia.
  - destruct (w (tempInputFileOf path_join options task)) as [src|];
      [destruct (mmdc stub src)|]; cbn; lia.
  - destruct (unlink_fault stub _);
      destruct (w (tempInputFileOf path_join options task)); cbn; lia.
Qed.

Lemma replaceAt_replaceAt (i : nat) (x y : Thread) (threads : list Thread) :
  replaceAt i x (replaceAt i y threads) = replaceAt i x threads.
Proof.
  revert i. induction threads as [|t rest IH]; intros [|i]; cbn;
    try reflexivity.
  now rewrite IH.
Qed.

Lemma replaceAt_same (i : nat) (x : Thread) (threads : list Thread) :
  nth_error threads i = Some x -> replaceAt i x threads = threads.
Proof.
  revert i. induction threads as [|t rest IH]; intros [|i] H;
    try discriminate; cbn.
  - now injection H as ->.
  - now rewrite IH.
Qed.

Lemma nth_error_replaceAt (i : nat) (x y : Thread) (threads : list Thread) :
  nth_error threads i = Some y ->
  nth_error (replaceAt i x threads) i = Some x.
Proof.
  revert i. induction threads as [|t rest IH]; intros [|i] H;
    try discriminate; cbn; [reflexivity|now apply IH].
Qed.

Lemma replaceAt_notRejected (i : nat) (x : Thread) (threads : list Thread) :
  notRejected x -> Forall notRejected threads ->
  Forall notRejected (replaceAt i x threads).
Proof.
  intros Hx. revert i. induction threads as [|t rest IH]; intros [|i] H;
    cbn; try constructor; inversion H; subst; auto.
Qed.

(** After as many turns as its rank, a task has ended. *)
Lemma interleave_turns (fuel i : nat) (rest : list nat) :
  forall (threads : list Thread) (s : State) task status threads' s',
    nth_error threads i = Some (task, status) ->
    rank status <= fuel ->
    Forall notRejected threads ->
    interleave path_join options stub (repeat i fuel ++ rest) threads s
    = (Normal (None, threads'), s') ->
    exists s1,
      interleave path_join options stub rest
                 (replaceAt i (task, Fulfilled) threads) s1
      = (Normal (None, threads'), s').
Proof.
  induction fuel as [|fuel IH];
    intros threads s task status threads' s' E Hr Hn R.
  - cbn [repeat app] in R.
    destruct status as [[]| |reason]; cbn in Hr; try lia.
    + exists s. now rewrite (replaceAt_same _ _ _ E).
    + exfalso. apply nth_error_In in E.
      rewrite Forall_forall in Hn. exact (Hn _ E).
  - cbn [repeat app interleave] in R. rewrite E in R.
    destruct status as [phase| |reason].
    + destruct (stepTask_effect path_join options stub task phase s)
        as (evs & R1 & C).
      rewrite (bind_normal _ _ _ _ _ R1) in R.
      pose proof (effect_rank task phase (world s)) as Hk.
      destruct (next (effectOf path_join options stub task phase (world s)))
        as [phase'| |reason] eqn:En.
      * edestruct (IH (replaceAt i (task, Pending phase') threads))
          as (s1 & R2);
          [apply (nth_error_replaceAt _ _ _ _ E)|lia
          |apply replaceAt_notRejected; [exact I|assumption]|exact R|].
        exists s1. now rewrite replaceAt_replaceAt in R2.
      * edestruct (IH (replaceAt i (task, Fulfilled) threads))
          as (s1 & R2);
          [apply (nth_error_replaceAt _ _ _ _ E)|cbn; lia
          |apply replaceAt_notRejected; [exact I|assumption]|exact R|].
        exists s1. now rewrite replaceAt_replaceAt in R2.
      * unfold ret in R. discriminate.
    + apply (IH threads s task Fulfilled threads' s' E); [cbn; lia|
        assumption|assumption].
    + exfalso. apply nth_error_In in E.
      rewrite Forall_forall in Hn. exact (Hn _ E).
Qed.

Lemma replaceAt_length (i : nat) (x : Thread) (threads : list Thread) :
  List.length (replaceAt i x threads) = List.length threads.
Proof.
  revert i. induction threads as [|t rest IH]; intros [|i]; cbn; auto.
Qed.

Lemma firstn_replaceAt (i : nat) (x y : Thread) (threads : list Thread) :
  nth_error threads i = Some y ->
  firstn (S i) (replaceAt i x threads) = firstn i threads ++ [x].
Proof.
  revert i. induction threads as [|t rest IH]; intros [|i] H;
    try discriminate; [reflexivity|].
  cbn [replaceAt]. rewrite !firstn_cons. cbn [nth_error] in H.
  rewrite (IH i H). reflexivity.
Qed.

(** After the completing schedule no task is pending. *)
Lemma completion_settles (m : nat) :
  forall (k : nat) (threads : list Thread) (s : State) threads' s',
    List.length threads = k + m ->
    Forall notRejected threads ->
    Forall isFulfilled (firstn k threads) ->
    interleave path_join options stub
               (flat_map (fun i => [i; i; i; i]) (seq k m)) threads s
    = (Normal (None, threads'), s') ->
    Forall isFulfilled threads'.
Proof.
  induction m as [|m IH]; intros k threads s threads' s' Hl Hn Hf R.
  - cbn in R. unfold ret in R. injection R as <- _.
    rewrite Nat.add_0_r in Hl. rewrite <- Hl, firstn_all in Hf. exact Hf.
  - cbn [seq flat_map] in R.
    destruct (nth_error threads k) as [[task status]|] eqn:E.
    2:{ apply nth_error_None in E. lia. }
    change ([k; k; k; k] ++ flat_map (fun i => [i; i; i; i]) (seq (S k) m))
      with (repeat k 4 ++ flat_map (fun i => [i; i; i; i]) (seq (S k) m))
      in R.
    edestruct (interleave_turns 4 k) as (s1 & R1);
      [exact E| |exact Hn|exact R|].
    { destruct status as [[]| |]; cbn; lia. }
    apply (IH (S k) (replaceAt k (task, Fulfilled) threads) s1 threads' s');
      try assumption.
    + rewrite replaceAt_length. lia.
    + apply replaceAt_notRejected; [exact I|assumption].
    + rewrite (firstn_replaceAt _ _ _ _ E). apply Forall_app.
      split; [assumption|]. constructor; [reflexivity|constructor].
Qed.

Lemma interleave_app (a b : list nat) :
  forall (threads : list Thread) (s : State) threads' s',
    interleave path_join options stub (a ++ b) threads s
    = (Normal (None, threads'), s') ->
    exists threads1 s1,
      interleave path_join options stub a threads s
      = (Normal (None, threads1), s1)
      /\ interleave path_join options stub b threads1 s1
         = (Normal (None, threads'), s').
Proof.
  induction a as [|i a IH]; intros threads s threads' s' R.
  - exists threads, s. now split.
  - cbn [app interleave] in R |- *.
    destruct (nth_error threads i) as [[task [phase| |reason]]|] eqn:E;
      try (now apply IH).
    destruct (stepTask_effect path_join options stub task phase s)
      as (evs & R1 & C).
    rewrite (bind_normal _ _ _ _ _ R1) in R.
    rewrite (bind_normal _ _ _ _ _ R1).
    destruct (next (effectOf path_join options stub task phase (world s)))
      as [phase'| |reason]; try (now apply IH).
    unfold ret in R. discriminate.
Qed.

Lemma start_notRejected (tasks : list Task) :
  Forall notRejected (start tasks).
Proof.
  unfold start. apply Forall_forall. intros th H.
  apply in_map_iff in H. destruct H as (t & <- & _). exact I.
Qed.

(** A pass under a schedule: what every step keeps holds when the promise
    of the function settles.  The promise is fulfilled with [undefined]
    when every task has ended and none was rejected, the summary being
    printed; it is rejected with the reason of the first task that is,
    as soon as that task is, and nothing is printed then. *)
Lemma execute_settles (Inv : list Thread -> State -> Prop)
    (schedule : list nat) (tasks : list Task) (s : State) :
  (forall pre task phase post s evs,
      Inv (pre ++ (task, Pending phase) :: post) s ->
      hostCalls evs
      = calls (effectOf path_join options stub task phase (world s)) ->
      Inv (pre ++ (task,
                   next (effectOf path_join options stub task phase (world s)))
               :: post)
          (stepped path_join options stub task phase evs s)) ->
  Inv (start tasks) s ->
  exists r threads s1,
    interleave path_join options stub
               (schedule ++ completion (List.length tasks)) (start tasks) s
    = (Normal (r, threads), s1)
    /\ Inv threads s1
    /\ List.map fst threads = tasks
    /\ match r with
       | None =>
           Forall isFulfilled threads
           /\ runPass path_join options stub schedule tasks s
              = (Normal (None, threads),
                 addEvents (summaryLines options s1) s1)
           /\ execute path_join options stub schedule tasks s
              = (Normal JsUndefined, addEvents (summaryLines options s1) s1)
       | Some e =>
           (exists pre task post,
               threads = pre ++ (task, Rejected e) :: post
               /\ Forall notRejected (pre ++ post))
           /\ runPass path_join options stub schedule tasks s
              = (Normal (Some e, threads), s1)
           /\ execute path_join options stub schedule tasks s = (Throw e, s1)
       end.
Proof.
  intros Hstep H0.
  destruct (interleave_invariant
              path_join options stub
              (fun th st => Inv th st /\ List.map fst th = tasks))
    with (schedule := schedule ++ completion (List.length tasks))
         (threads := start tasks) (s := s)
    as (r & threads & s1 & R & Hi & Hm).
  { intros pre task phase post s0 evs [Hinv Hmap] C. split.
    - now apply Hstep.
    - rewrite <- Hmap. rewrite !map_app. reflexivity. }
  { split; [exact H0|]. unfold start. rewrite map_map. cbn. apply map_id. }
  exists r, threads, s1. split; [exact R|]. split; [exact Hi|].
  split; [exact Hm|].
  pose proof (interleave_rejection path_join options stub _ _ _ _ _ _
                                   (start_notRejected tasks) R) as Hrej.
  destruct r as [e|].
  - split; [exact Hrej|].
    assert (P : runPass path_join options stub schedule tasks s
                = (Normal (Some e, threads), s1)).
    { unfold runPass. rewrite (bind_normal _ _ _ _ _ R). reflexivity. }
    split; [exact P|].
    unfold execute. rewrite (bind_normal _ _ _ _ _ P). reflexivity.
  - split.
    + destruct (interleave_app _ _ _ _ _ _ R) as (th1 & s0 & Ra & Rb).
      pose proof (interleave_rejection path_join options stub _ _ _ _ _ _
                                       (start_notRejected tasks) Ra) as Hn1.
      cbn in Hn1.
      assert (Hl1 : List.length th1 = List.length tasks).
      { destruct (interleave_invariant
                    path_join options stub
                    (fun th _ => List.length th = List.length tasks))
          with (schedule := schedule) (threads := start tasks) (s := s)
          as (r' & th' & s' & R' & Hl').
        - intros pre task phase post s2 evs Hl _.
          rewrite <- Hl, !length_app. reflexivity.
        - unfold start. apply length_map.
        - rewrite Ra in R'. now injection R' as _ <- _. }
      unfold completion in Rb.
      apply (completion_settles (List.length tasks) 0 th1 s0 threads s1);
        try assumption.
      constructor.
    + assert (P : runPass path_join options stub schedule tasks s
                  = (Normal (None, threads),
                     addEvents (summaryLines options s1) s1)).
      { unfold runPass. rewrite (bind_normal _ _ _ _ _ R). cbn [fst].
        destruct s1 as [w r k tr].
        unfold success, log, summaryLines. run_monad. rewrite ?emit_eq.
        norm_state. rewrite <- ?app_assoc. reflexivity. }
      split; [exact P|].
      unfold execute. rewrite (bind_normal _ _ _ _ _ P). reflexivity.
Qed.

End SettlingFacts.

Section EffectFacts.

Import Renderer Host Execute Interleaved.

Variable path_join : jsstring -> jsstring -> jsstring.
Variable options : Options.
Variable stub : Stub.

(** A step of a task touches its temporary file and its output only. *)
Lemma effect_frame (task : Task) (phase : Phase) (w : World) (q : jsstring) :
  q <> tempInputFileOf path_join options task ->
  q <> outputPath task ->
  after (effectOf path_join options stub task phase w) q = w q.
Proof.
  intros Ht Ho. apply eqb_neq in Ht. apply eqb_neq in Ho.
  destruct phase; unfold effectOf; cbv zeta.
  - now destruct (w (outputPath task)).
  - destruct (writeFile_fault stub _); cbn [after]; [reflexivity|].
    unfold putFile. now rewrite Ht.
  - destruct (w (tempInputFileOf path_join options task)) as [src|];
      [destruct (mmdc stub src)|]; cbn [after]; try reflexivity.
    unfold putFile. now rewrite Ho.
  - destruct (unlink_fault stub _);
      destruct (w (tempInputFileOf path_join options task));
      cbn [after]; try reflexivity.
    unfold removeFile. now rewrite Ht.
Qed.

Lemma sum_map_app {A : Type} (f : A -> nat) (a : list A) (x : A) (b : list A) :
  sum (List.map f (a ++ x :: b))
  = sum (List.map f a) + f x + sum (List.map f b).
Proof.
  unfold sum. induction a as [|y a IH]; cbn [app List.map fold_right];
    [lia|]. rewrite IH. lia.
Qed.

Lemma sum_app (a b : list nat) : sum (a ++ b) = sum a + sum b.
Proof.
  unfold sum. induction a as [|x a IH]; cbn [app fold_right]; [reflexivity|].
  rewrite IH. lia.
Qed.

Lemma sum_map_le {A : Type} (f : A -> nat) (l : list A) :
  (forall x, f x <= 1) -> sum (List.map f l) <= List.length l.
Proof.
  intros H. unfold sum. induction l as [|x l IH]; cbn; [lia|].
  specialize (H x). lia.
Qed.

Lemma sum_map_const {A : Type} (f : A -> nat) (n : nat) (l : list A) :
  Forall (fun x => f x = n) l -> sum (List.map f l) = n * List.length l.
Proof.
  unfold sum. induction 1 as [|x l Hx _ IH]; cbn [List.map fold_right
                                                  List.length]; [lia|].
  rewrite IH, Hx. lia.
Qed.

(** The counts of the four ends in the events of a step. *)
Lemma count_step (p : Event -> bool) (evs : list Event)
    (task : Task) (phase : Phase) (w : World) :
  (forall e, isConsole e = true -> p e = false) ->
  hostCalls evs = calls (effectOf path_join options stub task phase w) ->
  count p evs = count p (calls (effectOf path_join options stub task phase w)).
Proof. intros H C. now rewrite (count_hostCalls p evs H), C. Qed.

Lemma fulfilled_threads (threads : list Thread) (tasks : list Task) :
  List.map fst threads = tasks ->
  Forall isFulfilled threads ->
  threads = List.map (fun t => (t, Fulfilled)) tasks.
Proof.
  intros <- H. induction H as [|[t st] l Hx _ IH]; [reflexivity|].
  cbn [List.map fst]. unfold isFulfilled in Hx. cbn in Hx. subst st.
  now rewrite <- IH.
Qed.

End EffectFacts.

Section AccountingOfSchedules.

Import Renderer Host Execute Interleaved.

Variable path_join : jsstring -> jsstring -> jsstring.
Variable options : Options.
Variable stub : Stub.

Lemma counted_step pre task phase post s evs :
  counted path_join options stub (pre ++ (task, Pending phase) :: post) s ->
  hostCalls evs
  = calls (effectOf path_join options stub task phase (world s)) ->
  counted path_join options stub (pre ++ (task,
                   next (effectOf path_join options stub task phase (world s)))
               :: post)
          (stepped path_join options stub task phase evs s).
Proof.
  intros (R & K & A & W & F) C. unfold counted, stepped.
  cbn [renderedCount skippedCount trace].
  rewrite !count_app, !sum_map_app.
  rewrite !sum_map_app in A, W.
  rewrite (count_step path_join options stub isRenderOk evs task phase
                      (world s)), 
          (count_step path_join options stub isCacheHit evs task phase
                      (world s)),
          (count_step path_join options stub isRenderFail evs task phase
                      (world s)),
          (count_step path_join options stub isWriteFail evs task phase
                      (world s));
    try exact C; try (intros [] H; try discriminate; reflexivity).
  assert (F' : forall t e,
             In (t, Rejected e) (pre ++ post) ->
             writeFile_fault stub (tempInputFileOf path_join options t)
             = Some e).
  { intros t e H. apply (F t e). apply in_app_or in H. apply in_or_app.
    destruct H; [now left|right; now right]. }
  assert (G : forall st,
             (forall e, st = Rejected e ->
                        writeFile_fault
                          stub (tempInputFileOf path_join options task)
                        = Some e) ->
             forall t e, In (t, Rejected e) (pre ++ (task, st) :: post) ->
                         writeFile_fault
                           stub (tempInputFileOf path_join options t)
                         = Some e).
  { intros st Hx t e H. apply in_app_or in H.
    destruct H as [H|[H|H]].
    - apply F'. apply in_or_app. now left.
    - injection H as -> ->. now apply Hx.
    - apply F'. apply in_or_app. now right. }
  unfold accounted, rejected in *. cbn [snd fst] in *.
  destruct phase; unfold effectOf; cbv zeta.
  - destruct (world s (outputPath task)).
    all: cbn [next calls rendered skipped]; unfold count in *; cbn.
    all: repeat split; try lia; apply G; intros e' [=].
  - destruct (writeFile_fault stub _) as [e0|] eqn:E.
    all: cbn [next calls rendered skipped]; unfold count in *; cbn.
    all: repeat split; try lia; apply G; intros e' [=]. now subst.
  - destruct (world s (tempInputFileOf path_join options task)) as [src|];
      [destruct (mmdc stub src)|].
    all: cbn [next calls rendered skipped]; unfold count in *; cbn.
    all: repeat split; try lia; apply G; intros e' [=].
  - destruct (unlink_fault stub _);
      destruct (world s (tempInputFileOf path_join options task)).
    all: cbn [next calls rendered skipped]; unfold count in *; cbn.
    all: repeat split; try lia; apply G; intros e' [=].
Qed.

Lemma counted_start (tasks : list Task) (w : World) :
  counted path_join options stub (start tasks) (initial w).
Proof.
  unfold counted, initial, start. cbn [renderedCount skippedCount trace].
  unfold count. cbn [filter List.length].
  rewrite map_map.
  assert (Z : forall f : Thread -> nat,
             f = accounted \/ f = rejected ->
             sum (List.map (fun t : Task => f (t, Pending Access)) tasks) = 0).
  { intros f Hf. unfold sum. induction tasks as [|t l IH]; [reflexivity|].
    cbn [List.map fold_right]. rewrite IH.
    destruct Hf as [-> | ->]; reflexivity. }
  repeat split; try reflexivity.
  - cbn. symmetry. apply (Z accounted). now left.
  - rewrite map_map. cbn. symmetry. apply (Z rejected). now right.
  - intros t e H. apply in_map_iff in H. destruct H as (t0 & [=] & _).
Qed.

(** The accounts of a pass when its promise settles. *)
Lemma execute_accounts (schedule : list nat) (tasks : list Task) (w : World) :
  let run := execute path_join options stub schedule tasks (initial w) in
  let evs := trace (snd run) in
  renderedCount (snd run) = count isRenderOk evs
  /\ skippedCount (snd run) = count isCacheHit evs
  /\ count isRenderOk evs + count isCacheHit evs
     + count isRenderFail evs + count isWriteFail evs <= List.length tasks
  /\ (fst run = Normal JsUndefined \/ exists e, fst run = Throw e)
  /\ (fst run = Normal JsUndefined ->
      count isRenderOk evs + count isCacheHit evs + count isRenderFail evs
      = List.length tasks
      /\ count isWriteFail evs = 0
      /\ exists before, evs = before ++ summaryLines options (snd run))
  /\ (forall e,
        fst run = Throw e ->
        count isWriteFail evs = 1
        /\ exists t, In t tasks
                     /\ writeFile_fault
                          stub (tempInputFileOf path_join options t)
                        = Some e).
Proof.
  cbv zeta.
  destruct (execute_settles path_join options stub
                            (counted path_join options stub) schedule tasks
                            (initial w) counted_step (counted_start tasks w))
    as (r & threads & s1 & _ & Hc & Hm & Hr).
  unfold counted in Hc. destruct Hc as (R & K & A & W & F).
  assert (Hlen : List.length threads = List.length tasks)
    by (now rewrite <- Hm, length_map).
  destruct r as [e|].
  - destruct Hr as ((pre & task & post & -> & Hn) & _ & ->).
    cbn [fst snd].
    assert (Hz : sum (List.map rejected (pre ++ post)) = 0).
    { rewrite (sum_map_const rejected 0); [lia|].
      eapply Forall_impl; [|exact Hn]. intros [t [| |]]; cbn; tauto. }
    rewrite map_app, sum_app in Hz. rewrite sum_map_app in W.
    assert (W1 : count isWriteFail (trace s1) = 1).
    { rewrite W. change (rejected (task, Rejected e)) with 1.
      change (Task * Status)%type with Thread in *. lia. }
    pose proof (sum_map_le accounted (pre ++ (task, Rejected e) :: post)) as L.
    rewrite Hlen in L.
    split; [exact R|]. split; [exact K|].
    split; [rewrite A; apply L; intros [t [[]| |]]; cbn; lia|].
    split; [right; now exists e|]. split; [discriminate|].
    intros e' H. injection H as <-. split; [exact W1|].
    exists task. split.
    + rewrite <- Hm. apply in_map_iff. exists (task, Rejected e).
      split; [reflexivity|]. apply in_elt.
    + apply F. apply in_elt.
  - destruct Hr as (Hf & _ & ->). cbn [fst snd].
    destruct (counts_hostCalls (summaryLines options s1))
      as (C1 & C2 & C3 & C4).
    change (hostCalls (summaryLines options s1)) with (@nil Event)
      in C1, C2, C3, C4.
    assert (Wz : sum (List.map rejected threads) = 0).
    { rewrite (sum_map_const rejected 0); [lia|].
      eapply Forall_impl; [|exact Hf]. intros [t st] E.
      unfold isFulfilled in E. cbn in E. now subst. }
    assert (Az : sum (List.map accounted threads) = List.length tasks).
    { rewrite (sum_map_const accounted 1); [lia|].
      eapply Forall_impl; [|exact Hf]. intros [t st] E.
      unfold isFulfilled in E. cbn in E. now subst. }
    destruct s1 as [w1 r1 k1 tr1].
    cbn [addEvents trace renderedCount skippedCount world] in *.
    rewrite !count_app, C1, C2, C3, C4. unfold count in *.
    cbn [filter List.length] in *.
    change (Task * Status)%type with Thread in *.
    split; [lia|]. split; [lia|]. split; [lia|]. split; [now left|].
    split; [|discriminate].
    intros _. split; [lia|]. split; [lia|]. eexists. reflexivity.
Qed.

End AccountingOfSchedules.

Section ReachingFacts.

Import Renderer Host Execute Interleaved.

Variable path_join : jsstring -> jsstring -> jsstring.
Variable options : Options.
Variable stub : Stub.

Lemma In_middle {A : Type} (x y : A) (pre post : list A) :
  In x (pre ++ y :: post) <-> x = y \/ In x (pre ++ post).
Proof.
  rewrite !in_app_iff. cbn [In]. intuition congruence.
Qed.

Lemma NoDup_map_middle {A B : Type} (f : A -> B) (pre post : list A) (x y : A) :
  NoDup (List.map f (pre ++ x :: post)) ->
  In y (pre ++ post) -> f y <> f x.
Proof.
  intros H Hy E. rewrite map_app in H. cbn [List.map] in H.
  apply NoDup_remove_2 in H. apply H. rewrite <- map_app, <- E.
  now apply in_map.
Qed.






End ReachingFacts.

Section TemporaryFacts.

Import Renderer Host Execute Interleaved.

Variable path_join : jsstring -> jsstring -> jsstring.
Variable options : Options.
Variable stub : Stub.
Variable tasks : list Task.

Hypothesis apart :
  forall t t', In t tasks -> In t' tasks ->
               tempInputFileOf path_join options t <> outputPath t'.
Hypothesis deletable :
  forall t, In t tasks ->
            unlink_fault stub (tempInputFileOf path_join options t) = None.

Lemma temporariesHeld_step pre task phase post s evs :
  temporariesHeld path_join options tasks
                  (pre ++ (task, Pending phase) :: post) s ->
  hostCalls evs
  = calls (effectOf path_join options stub task phase (world s)) ->
  temporariesHeld path_join options tasks
                  (pre ++ (task,
                           next (effectOf path_join options stub task phase
                                          (world s)))
                       :: post)
                  (stepped path_join options stub task phase evs s).
Proof.
  intros (Hm & Hh) _.
  assert (Hin : In task tasks).
  { rewrite <- Hm. apply in_map_iff. exists (task, Pending phase).
    split; [reflexivity|apply in_elt]. }
  unfold temporariesHeld, stepped. cbn [world].
  split; [rewrite <- Hm, !map_app; reflexivity|].
  intros t Ht Hw.
  (* the holder of a file that was there before the step and is not the
     stepping task *)
  assert (Hold : world s (tempInputFileOf path_join options t) <> None ->
                 holdsTemporary (task, Pending phase)
                 \/ exists thread,
                      In thread (pre ++ post)
                      /\ tempInputFileOf path_join options (fst thread)
                         = tempInputFileOf path_join options t
                      /\ holdsTemporary thread).
  { intros H. destruct (Hh t Ht H) as (thread & Hth & E & Hhold).
    apply In_middle in Hth. destruct Hth as [->|Hth]; [now left|].
    right. now exists thread. }
  assert (Hkeep : forall st,
             (exists thread,
                 In thread (pre ++ post)
                 /\ tempInputFileOf path_join options (fst thread)
                    = tempInputFileOf path_join options t
                 /\ holdsTemporary thread) ->
             exists thread,
               In thread (pre ++ (task, st) :: post)
               /\ tempInputFileOf path_join options (fst thread)
                  = tempInputFileOf path_join options t
               /\ holdsTemporary thread).
  { intros st (thread & Hth & E & Hhold). exists thread.
    split; [apply In_middle; now right|now split]. }
  destruct (JS.eqb (tempInputFileOf path_join options t)
                   (tempInputFileOf path_join options task)) eqn:E.
  - apply eqb_eq in E.
    assert (Hme : forall st,
               holdsTemporary (task, st) ->
               exists thread,
                 In thread (pre ++ (task, st) :: post)
                 /\ tempInputFileOf path_join options (fst thread)
                    = tempInputFileOf path_join options t
                 /\ holdsTemporary thread).
    { intros st H. eexists. split; [apply in_elt|].
      split; [now symmetry|exact H]. }
    assert (Hold' : world s (tempInputFileOf path_join options task) <> None ->
                    holdsTemporary (task, Pending phase)
                    \/ exists thread,
                         In thread (pre ++ post)
                         /\ tempInputFileOf path_join options (fst thread)
                            = tempInputFileOf path_join options t
                         /\ holdsTemporary thread)
      by (rewrite <- E; exact Hold).
    rewrite E in Hw. clear Hold.
    unfold holdsTemporary in Hold' at 1. cbn [snd] in Hold'.
    destruct phase; unfold effectOf in Hw |- *; cbv zeta in Hw |- *.
    + destruct (world s (outputPath task)); cbn [after next] in Hw |- *;
        destruct (Hold' Hw) as [[H|H]|H]; try discriminate; now apply Hkeep.
    + destruct (writeFile_fault stub _); cbn [after next] in Hw |- *.
      * destruct (Hold' Hw) as [[H|H]|H]; try discriminate; now apply Hkeep.
      * apply Hme. now left.
    + destruct (world s (tempInputFileOf path_join options task)) as [src|];
        [destruct (mmdc stub src)|]; cbn [after next] in Hw |- *;
        apply Hme; now right.
    + exfalso. rewrite (deletable task Hin) in Hw.
      destruct (world s (tempInputFileOf path_join options task)) eqn:Ew;
        cbn [after] in Hw.
      * apply Hw. apply removeFile_same.
      * now apply Hw.
  - apply eqb_neq in E.
    rewrite (effect_frame path_join options stub task phase (world s) _ E
                          (apart t task Ht Hin)) in Hw.
    destruct (Hh t Ht Hw) as (thread & Hth & E' & Hhold).
    apply In_middle in Hth. destruct Hth as [->|Hth].
    + cbn [fst] in E'. congruence.
    + apply Hkeep. now exists thread.
Qed.

Lemma temporariesHeld_start (w : World) :
  (forall t, In t tasks -> w (tempInputFileOf path_join options t) = None) ->
  temporariesHeld path_join options tasks (start tasks) (initial w).
Proof.
  intros H. split.
  - unfold start. rewrite map_map. apply map_id.
  - intros t Ht Hw. cbn [initial world] in Hw. now rewrite (H t Ht) in Hw.
Qed.

End TemporaryFacts.

Section CompletionFacts.

Import Renderer Host Execute Interleaved.


End CompletionFacts.




(** X10.  A pass accounts for its tasks under every schedule.
    [renderedCount] counts the successes of the renderer and [skippedCount]
    the outputs that were found; the tasks that ended with an output found,
    with the renderer succeeding, with the renderer failing or with their
    temporary file not written are never more than the tasks of the pass.
    The promise of the pass settles.  It is fulfilled, with [undefined] and
    after the summary, exactly when no temporary file failed to be written,
    and every task has then ended in one of the first three ways; a failure
    of the renderer or of a deletion never rejects it.  It is rejected at the
    first temporary file that cannot be written, with the error of that
    write, whatever the other tasks have done by then. *)
Theorem pass_accounts_for_every_task
    (path_join : jsstring -> jsstring -> jsstring)
    (options : Renderer.Options) (stub : Host.Stub)
    (schedule : list nat) (tasks : list Renderer.Task) (w : Host.World) :
  let run := Interleaved.execute path_join options stub schedule tasks
                                 (Execute.initial w) in
  let evs := Host.trace (snd run) in
  Host.renderedCount (snd run) = count isRenderOk evs
  /\ Host.skippedCount (snd run) = count isCacheHit evs
  /\ count isRenderOk evs + count isCacheHit evs
     + count isRenderFail evs + count isWriteFail evs <= List.length tasks
  /\ (fst run = Host.Normal Execute.JsUndefined
      \/ exists e, fst run = Host.Throw e)
  /\ (fst run = Host.Normal Execute.JsUndefined <-> count isWriteFail evs = 0)
  /\ (fst run = Host.Normal Execute.JsUndefined ->
      count isRenderOk evs + count isCacheHit evs + count isRenderFail evs
      = List.length tasks
      /\ exists before, evs = before ++ summaryLines options (snd run))
  /\ (forall e,
        fst run = Host.Throw e ->
        count isWriteFail evs = 1
        /\ exists t, In t tasks
                     /\ Host.writeFile_fault
                          stub (Execute.tempInputFileOf path_join options t)
                        = Some e).
Proof.
  cbv zeta.
  destruct (execute_accounts path_join options stub schedule tasks w)
    as (R & K & L & C & F & T).
  split; [exact R|]. split; [exact K|]. split; [exact L|].
  split; [exact C|]. split.
  { split.
    - intros H. now destruct (F H) as (_ & Z & _).
    - intros Z. destruct C as [H|(e & H)]; [exact H|].
      destruct (T e H) as (W1 & _). rewrite Z in W1. discriminate. }
  split; [|exact T].
  intros H. destruct (F H) as (A & _ & B). now split.
Qed.

(** X12.  A temporary file that exists when the promise of a pass settles
    belongs to a task that has written it and not yet deleted it, under any
    schedule, when no temporary file of the tasks exists before the pass,
    none is an output path and none resists deletion.  When the pass is
    fulfilled no task is pending, and no temporary file of the tasks exists;
    when it is rejected, the tasks that were rendering at that moment still
    hold theirs. *)
Theorem pass_leaves_no_temporary_file
    (path_join : jsstring -> jsstring -> jsstring)
    (options : Renderer.Options) (stub : Host.Stub)
    (schedule : list nat) (tasks : list Renderer.Task) (w : Host.World) :
  (forall t, In t tasks ->
             w (Execute.tempInputFileOf path_join options t) = None) ->
  (forall t t', In t tasks -> In t' tasks ->
                Execute.tempInputFileOf path_join options t
                <> Renderer.outputPath t') ->
  (forall t, In t tasks ->
             Host.unlink_fault
               stub (Execute.tempInputFileOf path_join options t) = None) ->
  exists r threads s',
    Interleaved.runPass path_join options stub schedule tasks
                        (Execute.initial w)
    = (Host.Normal (r, threads), s')
    /\ Interleaved.execute path_join options stub schedule tasks
                           (Execute.initial w)
       = (match r with
          | None => Host.Normal Execute.JsUndefined
          | Some e => Host.Throw e
          end, s')
    /\ (forall t,
          In t tasks ->
          Host.world s' (Execute.tempInputFileOf path_join options t)
          <> None ->
          exists thread,
            In thread threads
            /\ Execute.tempInputFileOf path_join options (fst thread)
               = Execute.tempInputFileOf path_join options t
            /\ holdsTemporary thread)
    /\ (r = None ->
        forall t, In t tasks ->
                  Host.world s' (Execute.tempInputFileOf path_join options t)
                  = None).
Proof.
  intros Hw Hd Hu.
  destruct (execute_settles
              path_join options stub
              (temporariesHeld path_join options tasks) schedule tasks
              (Execute.initial w)
              (temporariesHeld_step path_join options stub tasks Hd Hu)
              (temporariesHeld_start path_join options tasks w Hw))
    as (r & threads & s1 & _ & (_ & Hh) & _ & Hend).
  destruct r as [e|].
  - destruct Hend as (_ & P & E).
    exists (Some e), threads, s1.
    split; [exact P|]. split; [exact E|]. split; [exact Hh|discriminate].
  - destruct Hend as (Hf & P & E).
    exists None, threads, (addEvents (summaryLines options s1) s1).
    split; [exact P|]. split; [exact E|]. split; [exact Hh|].
    intros _ t Ht. cbn [addEvents Host.world].
    destruct (Host.world s1 (Execute.tempInputFileOf path_join options t))
      eqn:Ew; [|reflexivity].
    exfalso. destruct (Hh t Ht) as (thread & Hth & _ & Hhold);
      [congruence|].
    rewrite Forall_forall in Hf. specialize (Hf thread Hth).
    unfold isFulfilled in Hf. unfold holdsTemporary in Hhold.
    rewrite Hf in Hhold. destruct Hhold; discriminate.
Qed.

Lemma pass_leaves_no_temporary_file_example :
  exists a b,
    sampleGoodTasks = [a; b]
    /\ Host.world
         (snd (Interleaved.execute joinWithSlash sampleOptions sampleStub
                                   [0; 1; 1; 0; 1] [a; b]
                                   (Execute.initial Host.emptyWorld)))
         (Execute.tempInputFileOf joinWithSlash sampleOptions b)
       = None.
Proof.
  exists (nth 0 sampleGoodTasks (Renderer.mkTask [] [] [] [] [])),
         (nth 1 sampleGoodTasks (Renderer.mkTask [] [] [] [] [])).
  split; [vm_compute; reflexivity|].
  destruct (pass_leaves_no_temporary_file
              joinWithSlash sampleOptions sampleStub [0; 1; 1; 0; 1]
              [nth 0 sampleGoodTasks (Renderer.mkTask [] [] [] [] []);
               nth 1 sampleGoodTasks (Renderer.mkTask [] [] [] [] [])]
              Host.emptyWorld)
    as (r & threads & s' & P & E & _ & H).
  - intros t _. reflexivity.
  - intros t t' Hin Hin'.
    destruct Hin as [<-|[<-|[]]], Hin' as [<-|[<-|[]]];
      vm_compute; discriminate.
  - intros t Hin. destruct Hin as [<-|[<-|[]]]; vm_compute; reflexivity.
  - rewrite E. cbn [snd]. apply H.
    + assert (F : fst (Interleaved.execute
                         joinWithSlash sampleOptions sampleStub
                         [0; 1; 1; 0; 1]
                         [nth 0 sampleGoodTasks (Renderer.mkTask [] [] [] [] []);
                          nth 1 sampleGoodTasks (Renderer.mkTask [] [] [] [] [])]
                         (Execute.initial Host.emptyWorld))
                  = Host.Normal Execute.JsUndefined)
        by (vm_compute; reflexivity).
      rewrite E in F. cbn [fst] in F.
      destruct r; [discriminate|reflexivity].
    + right. now left.
Defined.

(* ================================================================== *)
(** * [loadContent] under every schedule *)
(* ================================================================== *)

Section KeepingFacts.

Import Renderer Host Execute Interleaved.

Variable path_join : jsstring -> jsstring -> jsstring.
Variable options : Options.
Variable stub : Stub.

Lemma keeping_step (q : jsstring) (v : option jsstring) (before : list Event)
    pre task phase post s evs :
  keeping path_join options q v before
          (pre ++ (task, Pending phase) :: post) s ->
  hostCalls evs
  = calls (effectOf path_join options stub task phase (world s)) ->
  keeping path_join options q v before
          (pre ++ (task,
                   next (effectOf path_join options stub task phase (world s)))
               :: post)
          (stepped path_join options stub task phase evs s).
Proof.
  intros (Hu & Hw & (evs0 & Ht)) _. unfold keeping, stepped.
  cbn [world trace].
  destruct (Hu (task, Pending phase) (in_elt _ _ _)) as (H1 & H2).
  cbn [fst] in H1, H2.
  split; [|split].
  - intros thread H. apply In_middle in H. destruct H as [->|H].
    + now split.
    + apply Hu. apply In_middle. now right.
  - now rewrite (effect_frame path_join options stub task phase (world s)
                              q H1 H2).
  - exists (evs0 ++ evs). now rewrite Ht, app_assoc.
Qed.

Lemma untouched_start (q : jsstring) (tasks : list Task) :
  (forall t, In t tasks ->
             q <> tempInputFileOf path_join options t /\ q <> outputPath t) ->
  untouched path_join options q (start tasks).
Proof.
  intros H thread Hin. apply in_map_iff in Hin.
  destruct Hin as (t & <- & Ht). now apply H.
Qed.

(** A pass keeps a file that is none of its tasks'. *)
Lemma runPass_keeps (q : jsstring) (v : option jsstring)
    (schedule : list nat) (tasks : list Task) (s : State) :
  (forall t, In t tasks ->
             q <> tempInputFileOf path_join options t /\ q <> outputPath t) ->
  world s q = v ->
  exists r threads s',
    runPass path_join options stub schedule tasks s
    = (Normal (r, threads), s')
    /\ untouched path_join options q threads
    /\ world s' q = v
    /\ exists evs, trace s' = trace s ++ evs.
Proof.
  intros Hq Hw.
  destruct (execute_settles
              path_join options stub
              (keeping path_join options q v (trace s)) schedule tasks s
              (keeping_step q v (trace s)))
    as (r & threads & s1 & _ & (Hu & Hw1 & (evs & Ht)) & _ & Hend).
  { split; [now apply untouched_start|].
    split; [exact Hw|]. exists []. now rewrite app_nil_r. }
  destruct r as [e|].
  - destruct Hend as (_ & P & _).
    exists (Some e), threads, s1.
    split; [exact P|]. split; [exact Hu|]. split; [exact Hw1|].
    now exists evs.
  - destruct Hend as (_ & P & _).
    exists None, threads, (addEvents (summaryLines options s1) s1).
    split; [exact P|]. split; [exact Hu|]. split; [exact Hw1|].
    exists (evs ++ summaryLines options s1).
    cbn [addEvents trace]. now rewrite Ht, app_assoc.
Qed.

(** So do the tasks that go on after a rejection. *)
Lemma background_keeps (q : jsstring) (v : option jsstring)
    (schedule : list nat) (threads : list Thread) (s : State) :
  untouched path_join options q threads ->
  world s q = v ->
  exists threads' s',
    background path_join options stub schedule threads s
    = (Normal threads', s')
    /\ untouched path_join options q threads'
    /\ world s' q = v
    /\ exists evs, trace s' = trace s ++ evs.
Proof.
  intros Hu Hw.
  destruct (background_invariant
              path_join options stub
              (keeping path_join options q v (trace s))
              (keeping_step q v (trace s)) schedule threads s)
    as (threads' & s' & R & Hu' & Hw' & Ht).
  { split; [exact Hu|]. split; [exact Hw|]. exists []. now rewrite app_nil_r. }
  now exists threads', s'.
Qed.

End KeepingFacts.

Section InterleavedLoadContentFacts.

Import Host Execute Plugin InterleavedPlugin.

Variable path_join : jsstring -> jsstring -> jsstring.
Variable stub : Stub.
Variable merged : Index.PluginOptions.
Variable ctx : Index.Context.
Variable pluginTempDir : jsstring.
Variable docFiles : list Renderer.DocFile.

Lemma renderThemes_keeps_schedules (themeConfigPath : option jsstring)
    (q : jsstring) (v : option jsstring) (themes : list Index.Theme) :
  (forall theme t,
      In theme themes ->
      In t (Renderer.plan
              path_join
              (Index.renderOptions path_join merged ctx themeConfigPath
                                   pluginTempDir theme)
              docFiles) ->
      q <> tempInputFileOf
             path_join
             (Index.renderOptions path_join merged ctx themeConfigPath
                                  pluginTempDir theme)
             t
      /\ q <> Renderer.outputPath t) ->
  forall (schedules : list (list nat)) (s : State),
    world s q = v ->
    exists outcome s',
      renderThemes path_join stub merged ctx pluginTempDir docFiles
                   themeConfigPath themes schedules s
      = (Normal outcome, s')
      /\ world s' q = v
      /\ (exists evs, trace s' = trace s ++ evs)
      /\ (forall unsettled,
            outcome = Some unsettled ->
            untouched path_join (passOptions unsettled) q
                      (threads unsettled)).
Proof.
  induction themes as [|theme rest IH]; intros Hq schedules s Hw.
  - exists None, s. split; [reflexivity|]. split; [exact Hw|].
    split; [exists []; now rewrite app_nil_r|discriminate].
  - cbn [renderThemes]. cbv zeta.
    set (options := Index.renderOptions path_join merged ctx themeConfigPath
                                        pluginTempDir theme).
    unfold bind at 1. rewrite emit_eq.
    set (s1 := addEvents _ s).
    destruct (runPass_keeps
                path_join options stub q v (hd [] schedules)
                (Renderer.plan path_join options docFiles)
                (mkSt (world s1) 0 0 (trace s1)))
      as (r & threads & s2 & R & Hu & Hw2 & (evs & Ht)).
    { intros t Ht. apply (Hq theme t); [now left|exact Ht]. }
    { exact Hw. }
    assert (P : pass path_join stub docFiles options (hd [] schedules) s1
                = (Normal (r, threads),
                   mkSt (world s2) (renderedCount s1) (skippedCount s1)
                        (trace s2))).
    { unfold pass, ownCounters. now rewrite R. }
    rewrite (bind_normal _ _ _ _ _ P). cbn [fst snd].
    cbn [trace] in Ht.
    destruct r as [e|].
    + eexists _, _. split; [reflexivity|]. cbn [world trace].
      split; [exact Hw2|]. split.
      * exists ([ConsoleLog
                   [PStr (lit "[Mermaid-Static] Rendering theme ('"
                            ++ Index.themeName theme ++ lit "')...")]]
                  ++ evs).
        rewrite Ht. unfold s1. cbn [addEvents trace].
        now rewrite <- app_assoc.
      * intros unsettled [= <-]. exact Hu.
    + destruct (IH (fun theme' t Hin => Hq theme' t (or_intror Hin))
                   (tl schedules)
                   (mkSt (world s2) (renderedCount s1) (skippedCount s1)
                         (trace s2)) Hw2)
        as (outcome & s3 & R3 & Hw3 & (evs3 & Ht3) & Hu3).
      exists outcome, s3. split; [exact R3|]. split; [exact Hw3|].
      split; [|exact Hu3].
      exists ([ConsoleLog
                 [PStr (lit "[Mermaid-Static] Rendering theme ('"
                          ++ Index.themeName theme ++ lit "')...")]]
                ++ evs ++ evs3).
      rewrite Ht3. cbn [trace]. rewrite Ht. unfold s1. cbn [addEvents trace].
      now rewrite <- !app_assoc.
Qed.

Lemma goOn_keeps (q : jsstring) (v : option jsstring) (schedule : list nat)
    (unsettled : Unsettled) (s : State) :
  untouched path_join (passOptions unsettled) q (threads unsettled) ->
  world s q = v ->
  exists unsettled' s',
    goOn path_join stub schedule unsettled s = (Normal unsettled', s')
    /\ untouched path_join (passOptions unsettled') q (threads unsettled')
    /\ world s' q = v
    /\ exists evs, trace s' = trace s ++ evs.
Proof.
  intros Hu Hw.
  destruct (background_keeps
              path_join (passOptions unsettled) stub q v schedule
              (threads unsettled) (mkSt (world s) 0 0 (trace s)) Hu Hw)
    as (threads' & s' & R & Hu' & Hw' & Ht).
  eexists _, _. split.
  - unfold goOn, ownCounters, bind. rewrite R. reflexivity.
  - cbn [passOptions threads world trace].
    split; [exact Hu'|]. split; [exact Hw'|exact Ht].
Qed.

End InterleavedLoadContentFacts.

Section UnlinkFacts.

Import Host Execute Plugin.

(** The [finally] block deletes a temporary configuration that is there. *)
Lemma removeTempConfig_deletes (stub : Stub) (tempPath data : jsstring)
    (s : State) :
  tempPath <> [] ->
  unlink_fault stub tempPath = None ->
  world s tempPath = Some data ->
  removeTempConfig stub (Some tempPath) true s
  = (Normal tt,
     addEvents [FsUnlink tempPath true]
               (withWorld (removeFile tempPath (world s)) s)).
Proof.
  intros Hne Hu Hw. unfold removeTempConfig.
  destruct tempPath as [|c tp] eqn:E; [congruence|].
  unfold try_catch. now rewrite (fs_unlink_ok stub _ _ _ Hu Hw).
Qed.

End UnlinkFacts.

(** X15.  When there is no configuration file and the site configuration
    holds a mermaid configuration, [loadContent] writes it to a temporary
    file named after the digest of its text and gives that file to every
    pass.  When the file can be written and deleted and is no temporary
    file and no output of a task, the [finally] block deletes it, with
    success, however the tasks take their turns and however the passes
    end: after a fulfilled last pass, or as soon as a pass is rejected,
    while tasks of that pass may still be pending; what these do before or
    after the deletion does not bring the file back.  [loadContent] is
    rejected with the reason of the rejected pass, and the flag is set
    exactly when every pass was fulfilled. *)
Theorem temporary_configuration_is_removed
    (path_join : jsstring -> jsstring -> jsstring) (stub : Host.Stub)
    (merged : Index.PluginOptions) (ctx : Index.Context)
    (pluginTempDir : jsstring) (docFiles : list Renderer.DocFile)
    (p : Plugin.Process) (json : jsstring)
    (schedules : list (list nat)) (during afterwards : list nat) :
  let configFile := Plugin.absoluteConfigFile path_join merged ctx in
  let tempPath := Plugin.tempConfigPath path_join pluginTempDir json in
  Plugin.MERMAID_STATIC_RENDERED p = false ->
  Host.world (Plugin.host p) configFile = None ->
  Host.writeFile_fault stub tempPath = None ->
  Host.unlink_fault stub tempPath = None ->
  tempPath <> [] ->
  (forall theme t,
      In theme (Index.themesToRender merged ctx) ->
      In t (Renderer.plan
              path_join
              (Index.renderOptions path_join merged ctx (Some tempPath)
                                   pluginTempDir theme)
              docFiles) ->
      tempPath
      <> Execute.tempInputFileOf
           path_join
           (Index.renderOptions path_join merged ctx (Some tempPath)
                                pluginTempDir theme)
           t
      /\ tempPath <> Renderer.outputPath t) ->
  let run :=
    InterleavedPlugin.loadContent
      path_join stub true merged ctx (Some (inr json)) pluginTempDir docFiles
      schedules during afterwards p in
  let passes :=
    InterleavedPlugin.renderThemes
      path_join stub merged ctx pluginTempDir docFiles (Some tempPath)
      (Index.themesToRender merged ctx) schedules
      (afterTempConfig configFile tempPath json (Plugin.host p)) in
  fst run = match fst passes with
            | Host.Normal None => Host.Normal tt
            | Host.Normal (Some unsettled) =>
                Host.Throw (InterleavedPlugin.reason unsettled)
            | Host.Throw e => Host.Throw e
            end
  /\ Host.world (Plugin.host (snd run)) tempPath = None
  /\ In (Host.FsUnlink tempPath true) (Host.trace (Plugin.host (snd run)))
  /\ (Plugin.MERMAID_STATIC_RENDERED (snd run) = true
      <-> fst run = Host.Normal tt).
Proof.
  cbv zeta. intros Hm Hc Hw Hu Hne Hq.
  set (tempPath := Plugin.tempConfigPath path_join pluginTempDir json) in *.
  set (s0 := afterTempConfig (Plugin.absoluteConfigFile path_join merged ctx)
                             tempPath json (Plugin.host p)).
  assert (H0 : Host.world s0 tempPath = Some json)
    by (apply putFile_same).
  destruct (renderThemes_keeps_schedules
              path_join stub merged ctx pluginTempDir docFiles
              (Some tempPath) tempPath (Some json)
              (Index.themesToRender merged ctx) Hq schedules s0 H0)
    as (outcome & s1 & R1 & W1 & _ & U1).
  rewrite R1. cbn [fst].
  unfold InterleavedPlugin.loadContent. cbn [negb]. rewrite Hm.
  unfold InterleavedPlugin.renderAll.
  rewrite (bind_normal _ _ _ _ _
             (resolveThemeConfig_temp path_join stub merged ctx
                                      (Some (inr json)) pluginTempDir
                                      (Plugin.host p) json Hc eq_refl Hw)).
  cbn [fst snd]. fold tempPath. fold s0.
  rewrite (bind_normal _ _ _ _ _ R1).
  destruct outcome as [unsettled|].
  - destruct tempPath as [|c tp] eqn:Et; [congruence|]. rewrite <- Et in *.
    destruct (goOn_keeps path_join stub tempPath (Some json) during
                         unsettled s1 (U1 _ eq_refl) W1)
      as (u2 & s2 & R2 & U2 & W2 & _).
    rewrite (bind_normal _ _ _ _ _ R2).
    rewrite (bind_normal _ _ _ _ _
               (removeTempConfig_deletes stub tempPath json s2 Hne Hu W2)).
    set (s3 := addEvents _ _).
    assert (W3 : Host.world s3 tempPath = None).
    { unfold s3. destruct s2. cbn. apply removeFile_same. }
    destruct (goOn_keeps path_join stub tempPath None afterwards
                         u2 s3 U2 W3)
      as (u4 & s4 & R4 & _ & W4 & (evs & T4)).
    rewrite (bind_normal _ _ _ _ _ R4).
    unfold Host.throw. cbn [fst snd Plugin.host Plugin.MERMAID_STATIC_RENDERED].
    split; [reflexivity|]. split; [exact W4|]. split.
    + rewrite T4. apply in_or_app. left. unfold s3. cbn [addEvents Host.trace].
      apply in_or_app. right. now left.
    + split; discriminate.
  - rewrite (removeTempConfig_deletes stub tempPath json s1 Hne Hu W1).
    cbn [fst snd Plugin.host Plugin.MERMAID_STATIC_RENDERED].
    split; [reflexivity|]. split.
    { destruct s1. cbn. apply removeFile_same. }
    split.
    { cbn [addEvents Host.trace]. apply in_or_app. right. now left. }
    split; reflexivity.
Qed.

(** A file with two blocks, the temporary file of the second of which
    cannot be written: the pass is rejected while the first task is
    rendering, and that task goes on around the deletion. *)
Lemma temporary_configuration_is_removed_example :
  fst (InterleavedPlugin.loadContent
         joinWithSlash sampleStub true (Index.defaults 4) sampleContext
         (Some (inr (lit "{}")))
         (lit "/tmp/docusaurus-plugin-mermaid-static")
         [Renderer.mkDocFile
            (lit "docs/intro.md")
            (sampleBlock "id: c" "  A-->B" ++ nl
               ++ sampleBlock "id: team/flow" "  A-->B")]
         [[0; 0; 1; 1]] [0] [0]
         (Plugin.mkProcess (Execute.initial Host.emptyWorld) false))
  <> Host.Normal tt
  /\ Host.world
       (Plugin.host
          (snd (InterleavedPlugin.loadContent
                  joinWithSlash sampleStub true (Index.defaults 4)
                  sampleContext (Some (inr (lit "{}")))
                  (lit "/tmp/docusaurus-plugin-mermaid-static")
                  [Renderer.mkDocFile
                     (lit "docs/intro.md")
                     (sampleBlock "id: c" "  A-->B" ++ nl
                        ++ sampleBlock "id: team/flow" "  A-->B")]
                  [[0; 0; 1; 1]] [0] [0]
                  (Plugin.mkProcess (Execute.initial Host.emptyWorld)
                                    false))))
       (Plugin.tempConfigPath joinWithSlash
                              (lit "/tmp/docusaurus-plugin-mermaid-static")
                              (lit "{}"))
     = None.
Proof.
  pose proof (temporary_configuration_is_removed
                joinWithSlash sampleStub (Index.defaults 4) sampleContext
                (lit "/tmp/docusaurus-plugin-mermaid-static")
                [Renderer.mkDocFile
                   (lit "docs/intro.md")
                   (sampleBlock "id: c" "  A-->B" ++ nl
                      ++ sampleBlock "id: team/flow" "  A-->B")]
                (Plugin.mkProcess (Execute.initial Host.emptyWorld) false)
                (lit "{}") [[0; 0; 1; 1]] [0] [0]) as H.
  cbv zeta in H.
  destruct H as (_ & H & _).
  - reflexivity.
  - reflexivity.
  - vm_compute. reflexivity.
  - vm_compute. reflexivity.
  - vm_compute. discriminate.
  - intros theme t Hth Ht.
    destruct Hth as [<-|[]].
    vm_compute in Ht. destruct Ht as [<-|[<-|[]]];
      split; vm_compute; discriminate.
  - split; [vm_compute; discriminate|exact H].
Defined.

(* ================================================================== *)
(** * The transformer and the plans of the passes *)
(* ================================================================== *)

(** X1.  A mermaid block that is written without indentation, its value
    between the two fence lines, and whose value holds no [```]: the
    transformer and the renderer read the same header, the same body and
    the same identity.  When the block stands in a scanned file that is no
    draft and the path of the site holds no [i18n/], so that the
    transformer reads from the absolute path of the file the locale that
    the renderer reads from its relative path, the images that the
    transformer references in production are, theme by theme and in the
    same order, the outputs of tasks that the passes of the renderer have
    in their plans.  A block that disables prerendering gets no image and
    no task. *)
Theorem transformer_agrees_without_inner_fence (value : jsstring) :
  includes Patterns.fence value = false ->
  Patterns.metadataContent_of (fencedBlock value)
  = Patterns.metadataContent_of value
  /\ Renderer.mermaidCodeOf (fencedBlock value) = Remark.mermaidCodeOf value
  /\ Renderer.idOf (fencedBlock value) = Remark.idOf value
  /\ (forall path_join merged ctx themeConfigPath pluginTempDir docFiles file,
        let store := Index.storeOptions path_join merged ctx in
        let filePath :=
          Index.siteDir ctx ++ lit "/" ++ Renderer.relativePath file in
        let sources :=
          imageSources (Remark.visitCode store true filePath (lit "mermaid")
                                         value) in
        In file docFiles ->
        Patterns.draftRegex_test (Renderer.content file) = false ->
        In (fencedBlock value)
           (Patterns.mermaidBlocks (Renderer.content file)) ->
        includes (lit "i18n/") (Index.siteDir ctx ++ lit "/") = false ->
        if Patterns.prerenderRegex_test (Patterns.metadataContent_of value)
        then
          sources = []
          /\ forall options locale,
               Renderer.taskOfBlock path_join options locale
                                    (fencedBlock value)
               = None
        else
          Forall2
            (fun src theme =>
               let options :=
                 Index.renderOptions path_join merged ctx themeConfigPath
                                     pluginTempDir theme in
               exists t,
                 In t (Renderer.plan path_join options docFiles)
                 /\ src = Remark.srcOf store (Renderer.filename t)
                 /\ Renderer.outputPath t
                    = path_join (Renderer.outputDir options)
                                (Renderer.filename t))
            sources (Index.themesToRender merged ctx)).
Proof.
  intros Hf.
  split; [apply metadataContent_of_fencedBlock|].
  split; [now apply mermaidCodeOf_fencedBlock|].
  split; [now apply idOf_fencedBlock|].
  intros path_join merged ctx tcp tmp docFiles file.
  cbv zeta. intros Hin Hd Hb Hs.
  unfold Remark.visitCode.
  change (JS.eqb (lit "mermaid") (lit "mermaid")) with true. cbv iota beta.
  change (negb true) with false. cbv iota.
  destruct (Patterns.prerenderRegex_test (Patterns.metadataContent_of value))
    eqn:Ep.
  - split; [reflexivity|]. intros options locale.
    unfold Renderer.taskOfBlock.
    now rewrite metadataContent_of_fencedBlock, Ep.
  - rewrite imageSources_figureNode.
    assert (Ht : forall theme suffix,
               Index.outputSuffix theme = suffix ->
               exists t,
                 In t (Renderer.plan
                         path_join
                         (Index.renderOptions path_join merged ctx tcp tmp
                                              theme)
                         docFiles)
                 /\ Remark.srcOf
                      (Index.storeOptions path_join merged ctx)
                      (Remark.filenameOf
                         (Index.storeOptions path_join merged ctx)
                         (Remark.idOf value)
                         (Remark.localeOf
                            (Index.storeOptions path_join merged ctx)
                            (Index.siteDir ctx ++ lit "/"
                               ++ Renderer.relativePath file))
                         suffix)
                    = Remark.srcOf (Index.storeOptions path_join merged ctx)
                                   (Renderer.filename t)
                 /\ Renderer.outputPath t
                    = path_join
                        (Renderer.outputDir
                           (Index.renderOptions path_join merged ctx tcp tmp
                                                theme))
                        (Renderer.filename t)).
    { intros theme suffix Hsuf.
      destruct (diagramTasks_intro
                  path_join
                  (Index.renderOptions path_join merged ctx tcp tmp theme)
                  docFiles file (fencedBlock value) Hin Hd Hb)
        as (t & Ht & Hn).
      { now rewrite metadataContent_of_fencedBlock. }
      destruct (plan_covers_filename
                  path_join
                  (Index.renderOptions path_join merged ctx tcp tmp theme)
                  docFiles t Ht) as (u & Hu & Hfn & Hout).
      exists u. split; [exact Hu|]. split; [|exact Hout].
      rewrite Hfn, Hn. rewrite (idOf_fencedBlock value Hf).
      unfold Renderer.localeOf, Remark.localeOf.
      rewrite (localeRegex_exec_prefix _ _ Hs). rewrite <- Hsuf.
      reflexivity. }
    assert (Hdual : Store.renderDualThemes
                      (Index.storeOptions path_join merged ctx)
                    = negb (Index.colorMode_disableSwitch ctx))
      by reflexivity.
    assert (Hsuf : Store.defaultThemeSuffix
                     (Index.storeOptions path_join merged ctx)
                   = Index.defaultThemeSuffix merged ctx) by reflexivity.
    assert (Ho : Store.outputSuffixes
                   (Index.storeOptions path_join merged ctx)
                 = Index.outputSuffixes merged) by reflexivity.
    rewrite Hdual, Hsuf, Ho.
    unfold Index.themesToRender, Index.defaultThemeSuffix.
    destruct (Index.colorMode_disableSwitch ctx); cbn [negb].
    + constructor; [|constructor].
      destruct (Ht (Index.mkTheme
                      (if Index.isDefaultDark ctx then Index.darkTheme ctx
                       else Index.lightTheme ctx)
                      (if Index.isDefaultDark ctx
                       then Store.dark (Index.outputSuffixes merged)
                       else Store.light (Index.outputSuffixes merged)))
                   _ eq_refl) as (t & H1 & H2 & H3).
      exists t. split; [exact H1|]. split; [|exact H3].
      rewrite <- H2. cbn [Index.outputSuffix]. reflexivity.
    + constructor; [|constructor; [|constructor]].
      * destruct (Ht (Index.mkTheme (Index.lightTheme ctx)
                                    (Store.light (Index.outputSuffixes merged)))
                     _ eq_refl) as (t & H1 & H2 & H3).
        exists t. split; [exact H1|]. split; [|exact H3].
        rewrite <- H2. reflexivity.
      * destruct (Ht (Index.mkTheme (Index.darkTheme ctx)
                                    (Store.dark (Index.outputSuffixes merged)))
                     _ eq_refl) as (t & H1 & H2 & H3).
        exists t. split; [exact H1|]. split; [|exact H3].
        rewrite <- H2. reflexivity.
Qed.

(** The agreement at the README's example block. *)
Lemma transformer_agrees_example :
  imageSources
    (Remark.visitCode
       (Index.storeOptions joinWithSlash (Index.defaults 4) sampleContext)
       true (lit "/site/docs/intro.md") (lit "mermaid")
       (unlines ["---"; "id: company-flow"; "alt: A flow"; "---";
                 "graph TD"; "  A-->B"]%string))
  = [lit "/base/img/diagrams/company-flow-en-light.svg"]
  /\ List.map Renderer.outputPath
              (Renderer.plan
                 joinWithSlash
                 (Index.renderOptions
                    joinWithSlash (Index.defaults 4) sampleContext None
                    (lit "/tmp/mermaid")
                    (Index.mkTheme (lit "neutral") (lit "-light")))
                 [Renderer.mkDocFile
                    (lit "docs/intro.md")
                    (lit "Here is our company process:" ++ nl ++ nl
                       ++ fencedBlock
                            (unlines ["---"; "id: company-flow";
                                      "alt: A flow"; "---";
                                      "graph TD"; "  A-->B"]%string)
                       ++ nl)])
     = [lit "/site/static/img/diagrams/company-flow-en-light.svg"]
  /\ Forall2
       (fun src theme =>
          exists t,
            In t (Renderer.plan
                    joinWithSlash
                    (Index.renderOptions
                       joinWithSlash (Index.defaults 4) sampleContext None
                       (lit "/tmp/mermaid") theme)
                    [Renderer.mkDocFile
                       (lit "docs/intro.md")
                       (lit "Here is our company process:" ++ nl ++ nl
                          ++ fencedBlock
                               (unlines ["---"; "id: company-flow";
                                         "alt: A flow"; "---";
                                         "graph TD"; "  A-->B"]%string)
                          ++ nl)])
            /\ src = Remark.srcOf
                       (Index.storeOptions joinWithSlash (Index.defaults 4)
                                           sampleContext)
                       (Renderer.filename t)
            /\ Renderer.outputPath t
               = joinWithSlash
                   (Renderer.outputDir
                      (Index.renderOptions
                         joinWithSlash (Index.defaults 4) sampleContext None
                         (lit "/tmp/mermaid") theme))
                   (Renderer.filename t))
       [lit "/base/img/diagrams/company-flow-en-light.svg"]
       (Index.themesToRender (Index.defaults 4) sampleContext).
Proof.
  set (value := unlines ["---"; "id: company-flow"; "alt: A flow"; "---";
                         "graph TD"; "  A-->B"]%string).
  assert (Hf : includes Patterns.fence value = false)
    by (vm_compute; reflexivity).
  destruct (transformer_agrees_without_inner_fence value Hf)
    as (_ & _ & _ & H).
  specialize (H joinWithSlash (Index.defaults 4) sampleContext None
                (lit "/tmp/mermaid")
                [Renderer.mkDocFile
                   (lit "docs/intro.md")
                   (lit "Here is our company process:" ++ nl ++ nl
                      ++ fencedBlock value ++ nl)]
                (Renderer.mkDocFile
                   (lit "docs/intro.md")
                   (lit "Here is our company process:" ++ nl ++ nl
                      ++ fencedBlock value ++ nl))).
  cbv zeta in H.
  assert (Hp : Patterns.prerenderRegex_test (Patterns.metadataContent_of value)
               = false) by (vm_compute; reflexivity).
  rewrite Hp in H.
  assert (Hs : imageSources
                 (Remark.visitCode
                    (Index.storeOptions joinWithSlash (Index.defaults 4)
                                        sampleContext)
                    true (lit "/site/docs/intro.md") (lit "mermaid") value)
               = [lit "/base/img/diagrams/company-flow-en-light.svg"])
    by (vm_compute; reflexivity).
  split; [exact Hs|]. split; [vm_compute; reflexivity|].
  rewrite <- Hs. apply H.
  - now left.
  - vm_compute. reflexivity.
  - vm_compute. left. reflexivity.
  - vm_compute. reflexivity.
Defined.

(* ================================================================== *)
(** * Existing files under every schedule *)
(* ================================================================== *)

Section CachedFacts.

Import Renderer Host Execute Interleaved.

Variable path_join : jsstring -> jsstring -> jsstring.
Variable options : Options.
Variable stub : Stub.

(** The look at an output that exists. *)
Lemma effect_found (task : Task) (w : World) :
  w (outputPath task) <> None ->
  effectOf path_join options stub task Access w
  = mkEffect Fulfilled w [FsAccess (outputPath task) true] 0 1.
Proof.
  intros H. unfold effectOf. cbv zeta.
  now destruct (w (outputPath task)).
Qed.

Lemma skipping_step (w : World) pre task phase post s evs :
  skipping w (pre ++ (task, Pending phase) :: post) s ->
  hostCalls evs
  = calls (effectOf path_join options stub task phase (world s)) ->
  skipping w
           (pre ++ (task,
                    next (effectOf path_join options stub task phase (world s)))
                :: post)
           (stepped path_join options stub task phase evs s).
Proof.
  intros (Hw & Hall & Hr & Hk & Hp) C.
  destruct (Hall (task, Pending phase) (in_elt _ _ _)) as (Hout & Hat).
  cbn [fst] in Hout.
  assert (phase = Access) as ->.
  { destruct Hat as [H|H]; cbn [snd] in H; [now injection H|discriminate]. }
  unfold stepped. rewrite Hw in C |- *.
  rewrite (effect_found task w Hout) in C |- *.
  cbn [next after calls rendered skipped] in C |- *.
  unfold skipping. cbn [world renderedCount skippedCount trace].
  split; [reflexivity|]. split.
  { intros thread H. apply In_middle in H. destruct H as [->|H].
    - split; [exact Hout|now right].
    - apply Hall. apply In_middle. now right. }
  rewrite sum_map_app in Hk |- *.
  change (accounted (task, Pending Access)) with 0 in Hk.
  change (accounted (task, Fulfilled)) with 1.
  split; [lia|]. split; [lia|].
  rewrite hostCalls_app, C.
  rewrite flat_map_app in Hp |- *. cbn [flat_map found fst snd] in Hp |- *.
  cbn [app] in Hp.
  etransitivity; [apply Permutation_app_tail; exact Hp|].
  rewrite <- app_assoc. apply Permutation_app_head.
  change (FsAccess (outputPath task) true :: flat_map found post)
    with ([FsAccess (outputPath task) true] ++ flat_map found post).
  apply Permutation_app_comm.
Qed.

Lemma preserving_step (q data : jsstring) pre task phase post s evs :
  preserving path_join options q data
             (pre ++ (task, Pending phase) :: post) s ->
  hostCalls evs
  = calls (effectOf path_join options stub task phase (world s)) ->
  preserving path_join options q data
             (pre ++ (task,
                      next (effectOf path_join options stub task phase
                                     (world s)))
                  :: post)
             (stepped path_join options stub task phase evs s).
Proof.
  intros (Hw & Hall) _.
  destruct (Hall (task, Pending phase) (in_elt _ _ _)) as (Htmp & Hat).
  cbn [fst] in Htmp, Hat.
  unfold preserving, stepped. cbn [world].
  destruct (JS.eqb (outputPath task) q) eqn:E.
  - apply eqb_eq in E.
    assert (phase = Access) as ->.
    { destruct (Hat E) as [H|H]; cbn [snd] in H;
        [now injection H|discriminate]. }
    rewrite effect_found by (rewrite E, Hw; discriminate).
    cbn [next after]. split; [exact Hw|].
    intros thread H. apply In_middle in H. destruct H as [->|H].
    + split; [exact Htmp|]. intros _. now right.
    + apply Hall. apply In_middle. now right.
  - apply eqb_neq in E.
    rewrite (effect_frame path_join options stub task phase (world s) q Htmp)
      by congruence.
    split; [exact Hw|].
    intros thread H. apply In_middle in H. destruct H as [->|H].
    + split; [exact Htmp|]. cbn [fst]. intros E'. congruence.
    + apply Hall. apply In_middle. now right.
Qed.

(** The state in which the promise of a pass settles is the one in which
    its pool and, when it is fulfilled, its summary end. *)
Lemma execute_state (schedule : list nat) (tasks : list Task) (s : State) :
  snd (execute path_join options stub schedule tasks s)
  = snd (runPass path_join options stub schedule tasks s).
Proof.
  unfold execute, bind.
  destruct (runPass path_join options stub schedule tasks s)
    as [[[[e|] threads]|e] s1]; reflexivity.
Qed.

End CachedFacts.

(** X22.  A pass over tasks whose outputs all exist, under every schedule:
    it is fulfilled, each task only looks for its output, once, and is
    counted as skipped; [renderedCount] ends at [0], [skippedCount] at the
    number of tasks, and the files are as they were. *)
Theorem cached_pass_only_looks
    (path_join : jsstring -> jsstring -> jsstring)
    (options : Renderer.Options) (stub : Host.Stub)
    (schedule : list nat) (tasks : list Renderer.Task) (w : Host.World) :
  (forall t, In t tasks -> w (Renderer.outputPath t) <> None) ->
  exists s',
    Interleaved.execute path_join options stub schedule tasks
                        (Execute.initial w)
    = (Host.Normal Execute.JsUndefined, s')
    /\ Host.renderedCount s' = 0
    /\ Host.skippedCount s' = List.length tasks
    /\ Host.world s' = w
    /\ Permutation
         (hostCalls (Host.trace s'))
         (List.map (fun t => Host.FsAccess (Renderer.outputPath t) true)
                   tasks).
Proof.
  intros Hout.
  destruct (execute_settles path_join options stub (skipping w)
                            schedule tasks (Execute.initial w)
                            (skipping_step path_join options stub w))
    as (r & threads & s1 & _ & (Hw & Hall & Hr & Hk & Hp) & Hm & Hend).
  { unfold skipping, Execute.initial, Interleaved.start.
    cbn [Host.world Host.renderedCount Host.skippedCount Host.trace].
    split; [reflexivity|]. split.
    { intros thread H. apply in_map_iff in H. destruct H as (t & <- & Ht).
      split; [now apply Hout|now left]. }
    split; [reflexivity|]. rewrite map_map. cbn.
    split.
    - clear. unfold sum. induction tasks as [|t l IH]; [reflexivity|exact IH].
    - rewrite flat_map_concat_map, map_map. cbn.
      clear. induction tasks as [|t l IH]; [constructor|exact IH]. }
  destruct r as [e|].
  - exfalso. destruct Hend as ((pre & task & post & -> & _) & _).
    destruct (Hall _ (in_elt _ _ _)) as (_ & [H|H]); discriminate H.
  - destruct Hend as (Hful & _ & E).
    pose proof (fulfilled_threads threads tasks Hm Hful) as ->.
    exists (addEvents (summaryLines options s1) s1).
    split; [exact E|].
    cbn [addEvents Host.world Host.renderedCount Host.skippedCount
         Host.trace].
    split; [exact Hr|]. split.
    { rewrite Hk, map_map. cbn. clear. unfold sum.
      induction tasks as [|t l IH]; [reflexivity|].
      cbn [List.map fold_right List.length]. now rewrite IH. }
    split; [exact Hw|].
    rewrite hostCalls_app.
    change (hostCalls (summaryLines options s1)) with (@nil Host.Event).
    rewrite app_nil_r.
    rewrite flat_map_concat_map, map_map in Hp. cbn in Hp.
    rewrite <- flat_map_concat_map in Hp.
    replace (List.map (fun t => Host.FsAccess (Renderer.outputPath t) true)
                      tasks)
      with (flat_map (fun t => [Host.FsAccess (Renderer.outputPath t) true])
                     tasks); [exact Hp|].
    clear. induction tasks as [|t l IH]; [reflexivity|].
    cbn [flat_map List.map app]. now rewrite IH.
Qed.

(** The two sample tasks after a first pass, taking turns. *)
Lemma cached_pass_only_looks_example :
  exists s',
    Interleaved.execute
      joinWithSlash sampleOptions sampleStub [1; 0] sampleGoodTasks
      (Execute.initial
         (Host.world
            (snd (Interleaved.execute
                    joinWithSlash sampleOptions sampleStub [0; 1; 1; 0]
                    sampleGoodTasks (Execute.initial Host.emptyWorld)))))
    = (Host.Normal Execute.JsUndefined, s')
    /\ Host.renderedCount s' = 0
    /\ Host.skippedCount s' = 2.
Proof.
  destruct (cached_pass_only_looks
              joinWithSlash sampleOptions sampleStub [1; 0] sampleGoodTasks
              (Host.world
                 (snd (Interleaved.execute
                         joinWithSlash sampleOptions sampleStub [0; 1; 1; 0]
                         sampleGoodTasks (Execute.initial Host.emptyWorld)))))
    as (s' & E & Hr & Hk & _).
  - intros t Hin. vm_compute in Hin.
    destruct Hin as [<-|[<-|[]]]; vm_compute; discriminate.
  - exists s'. split; [exact E|]. split; [exact Hr|]. rewrite Hk.
    vm_compute. reflexivity.
Defined.

(** X23.  A pass changes no file that exists, the temporary files of its
    tasks apart, under every schedule and whether it is fulfilled or
    rejected: when its promise settles, an image that was there has not
    been rendered again, not overwritten and not deleted, and no path but
    the temporary files and the outputs of its tasks has been touched. *)
Theorem schedules_keep_existing_files
    (path_join : jsstring -> jsstring -> jsstring)
    (options : Renderer.Options) (stub : Host.Stub)
    (schedule : list nat) (tasks : list Renderer.Task) (w : Host.World) :
  (forall q data,
      (forall t, In t tasks ->
                 q <> Execute.tempInputFileOf path_join options t) ->
      w q = Some data ->
      Host.world
        (snd (Interleaved.execute path_join options stub schedule tasks
                                  (Execute.initial w)))
        q
      = Some data)
  /\ (forall q,
        (forall t, In t tasks ->
                   q <> Execute.tempInputFileOf path_join options t
                   /\ q <> Renderer.outputPath t) ->
        Host.world
          (snd (Interleaved.execute path_join options stub schedule tasks
                                    (Execute.initial w)))
          q
        = w q).
Proof.
  split.
  - intros q data Hq Hw.
    destruct (execute_settles
                path_join options stub
                (preserving path_join options q data) schedule tasks
                (Execute.initial w)
                (preserving_step path_join options stub q data))
      as (r & threads & s1 & _ & (Hw1 & _) & _ & Hend).
    { split; [exact Hw|]. intros thread H. apply in_map_iff in H.
      destruct H as (t & <- & Ht). split; [now apply Hq|]. intros _.
      now left. }
    destruct r as [e|].
    + destruct Hend as (_ & _ & ->). exact Hw1.
    + destruct Hend as (_ & _ & ->). exact Hw1.
  - intros q Hq. rewrite execute_state.
    destruct (runPass_keeps path_join options stub q (w q) schedule tasks
                            (Execute.initial w) Hq eq_refl)
      as (r & threads & s' & R & _ & Hw & _).
    now rewrite R.
Qed.

(* ================================================================== *)
(** * From the files to the images under every schedule *)
(* ================================================================== *)

Section PopulatingFacts.

Import Patterns Renderer Host Execute Interleaved.

Variable path_join : jsstring -> jsstring -> jsstring.
Variable options : Options.
Variable stub : Stub.
Variable tasks : list Task.

Hypothesis apart :
  forall t t', In t tasks -> In t' tasks ->
               tempInputFileOf path_join options t <> outputPath t'.
Hypothesis distinct :
  NoDup (List.map (tempInputFileOf path_join options) tasks).
Hypothesis succeeding :
  forall t, In t tasks ->
            writeFile_fault stub (tempInputFileOf path_join options t) = None
            /\ rendersOk stub t = true.

(** A step of a task deletes nothing but its temporary file. *)
Lemma effect_keeps (task : Task) (phase : Phase) (w : World) (q : jsstring) :
  q <> tempInputFileOf path_join options task ->
  w q <> None ->
  after (effectOf path_join options stub task phase w) q <> None.
Proof.
  intros Ht Hq. apply eqb_neq in Ht.
  destruct phase; unfold effectOf; cbv zeta.
  - now destruct (w (outputPath task)).
  - destruct (writeFile_fault stub _); cbn [after]; [exact Hq|].
    unfold putFile. now rewrite Ht.
  - destruct (w (tempInputFileOf path_join options task)) as [src|];
      [destruct (mmdc stub src)|]; cbn [after]; try exact Hq.
    unfold putFile. now destruct (JS.eqb q (outputPath task)).
  - destruct (unlink_fault stub _);
      destruct (w (tempInputFileOf path_join options task));
      cbn [after]; try exact Hq.
    unfold removeFile. now rewrite Ht.
Qed.

Lemma populating_step pre task phase post s evs :
  populating path_join options tasks
             (pre ++ (task, Pending phase) :: post) s ->
  hostCalls evs
  = calls (effectOf path_join options stub task phase (world s)) ->
  populating path_join options tasks
             (pre ++ (task,
                      next (effectOf path_join options stub task phase
                                     (world s)))
                  :: post)
             (stepped path_join options stub task phase evs s).
Proof.
  intros (Hm & Hall) _.
  assert (Hin : In task tasks).
  { rewrite <- Hm. apply in_map_iff. exists (task, Pending phase).
    split; [reflexivity|apply in_elt]. }
  assert (Hothers : forall thread, In thread (pre ++ post) ->
                                   In (fst thread) tasks).
  { intros thread H. rewrite <- Hm. apply in_map.
    apply In_middle. now right. }
  pose proof (Hall _ (in_elt _ _ _)) as Hown.
  destruct (succeeding task Hin) as (Hw & Hok).
  pose proof (apart task task Hin Hin) as Hne.
  unfold populating, stepped. cbn [world].
  split; [rewrite <- Hm, !map_app; reflexivity|].
  intros thread H. apply In_middle in H. destruct H as [->|H].
  - (* the task itself *)
    unfold populated in Hown |- *. cbn [fst snd] in Hown |- *.
    destruct phase; unfold effectOf; cbv zeta.
    + destruct (world s (outputPath task)) eqn:E; cbn [next after];
        [congruence|exact I].
    + rewrite Hw. cbn [next after]. apply putFile_same.
    + rewrite Hown. unfold rendersOk in Hok.
      destruct (mmdc stub (mermaidCode task)); [discriminate|].
      cbn [next after]. rewrite putFile_same. discriminate.
    + apply effect_keeps with (phase := Unlink) (task := task) in Hown;
        [|congruence].
      unfold effectOf in Hown. cbv zeta in Hown.
      destruct (unlink_fault stub _);
        destruct (world s (tempInputFileOf path_join options task));
        exact Hown.
  - (* another task *)
    pose proof (Hall thread (proj2 (In_middle _ _ _ _) (or_intror H))) as Hp.
    assert (Htmp : tempInputFileOf path_join options (fst thread)
                   <> tempInputFileOf path_join options task).
    { assert (Hm' : List.map fst (pre ++ (task, Pending phase) :: post)
                    = tasks) by exact Hm.
      rewrite <- Hm', map_map in distinct.
      exact (NoDup_map_middle
               (fun x => tempInputFileOf path_join options (fst x))
               pre post (task, Pending phase) thread distinct H). }
    unfold populated in Hp |- *.
    destruct (snd thread) as [[]| |e]; try exact Hp.
    + rewrite effect_frame; [exact Hp|exact Htmp|].
      apply apart; [now apply Hothers|exact Hin].
    + apply effect_keeps; [|exact Hp].
      intros E. apply (apart task (fst thread) Hin (Hothers _ H)).
      now symmetry.
    + apply effect_keeps; [|exact Hp].
      intros E. apply (apart task (fst thread) Hin (Hothers _ H)).
      now symmetry.
Qed.

(** When nothing fails, the pass is fulfilled under every schedule and
    every task has its output. *)
Lemma execute_populates (schedule : list nat) (w : World) :
  exists s',
    execute path_join options stub schedule tasks (initial w)
    = (Normal JsUndefined, s')
    /\ forall t, In t tasks -> world s' (outputPath t) <> None.
Proof.
  destruct (execute_settles path_join options stub
                            (populating path_join options tasks)
                            schedule tasks (initial w) populating_step)
    as (r & threads & s1 & _ & (_ & Hall) & Hm & Hend).
  { split; [unfold start; rewrite map_map; apply map_id|].
    intros thread H. apply in_map_iff in H. destruct H as (t & <- & _).
    exact I. }
  destruct r as [e|].
  - exfalso. destruct Hend as ((pre & task & post & -> & _) & _).
    exact (Hall _ (in_elt _ _ _)).
  - destruct Hend as (Hful & _ & E).
    pose proof (fulfilled_threads threads tasks Hm Hful) as ->.
    eexists. split; [exact E|].
    intros t Ht. cbn [addEvents world].
    apply (Hall (t, Fulfilled)). apply in_map_iff. now exists t.
Qed.

End PopulatingFacts.

(** X24.  From the files to the images, under every schedule.  In a pass
    in which no temporary file fails to be written, the renderer accepts
    every planned diagram, the temporary files of the planned tasks are
    different files and none of them is an output, the pass is fulfilled
    however the tasks take their turns, and afterwards the image exists for
    every block of every scanned file that is not a draft, the blocks that
    disable prerendering apart. *)
Theorem schedules_give_every_block_its_image
    (path_join : jsstring -> jsstring -> jsstring)
    (options : Renderer.Options) (stub : Host.Stub)
    (schedule : list nat) (docFiles : list Renderer.DocFile)
    (w : Host.World) :
  (forall t t',
      In t (Renderer.plan path_join options docFiles) ->
      In t' (Renderer.plan path_join options docFiles) ->
      Execute.tempInputFileOf path_join options t <> Renderer.outputPath t') ->
  NoDup (List.map (Execute.tempInputFileOf path_join options)
                  (Renderer.plan path_join options docFiles)) ->
  (forall t,
      In t (Renderer.plan path_join options docFiles) ->
      Host.writeFile_fault stub (Execute.tempInputFileOf path_join options t)
      = None
      /\ rendersOk stub t = true) ->
  exists s',
    Interleaved.renderAllMermaidDiagrams path_join options stub schedule
                                         docFiles (Execute.initial w)
    = (Host.Normal Execute.JsUndefined, s')
    /\ forall file block,
         In file docFiles ->
         Patterns.draftRegex_test (Renderer.content file) = false ->
         In block (Patterns.mermaidBlocks (Renderer.content file)) ->
         Patterns.prerenderRegex_test (Patterns.metadataContent_of block)
         = false ->
         Host.world s'
                    (path_join
                       (Renderer.outputDir options)
                       (Renderer.filenameOf
                          (Renderer.idOf block)
                          (Renderer.localeOf options
                                             (Renderer.relativePath file))
                          (Renderer.outputSuffix options)
                          (Renderer.outputFormat options)))
         <> None.
Proof.
  intros Ha Hd Hok.
  destruct (execute_populates path_join options stub
                              (Renderer.plan path_join options docFiles)
                              Ha Hd Hok schedule w) as (s' & E & Hall).
  exists s'. split; [exact E|].
  intros file block Hf Hdraft Hb Hp.
  destruct (diagramTasks_intro path_join options docFiles file block
                               Hf Hdraft Hb Hp) as (t & Hin & Hn).
  destruct (plan_covers_filename path_join options docFiles t Hin)
    as (u & Hu & Hfn & Hout).
  rewrite <- Hn, <- Hfn, <- Hout. now apply Hall.
Qed.

(** A file with two blocks, the first task taking the first two turns. *)
Lemma schedules_give_every_block_its_image_example :
  exists s',
    Interleaved.renderAllMermaidDiagrams
      joinWithSlash sampleOptions sampleStub [0; 0]
      [Renderer.mkDocFile (lit "docs/intro.md")
         (sampleBlock "id: c" "  A-->B" ++ nl
            ++ sampleBlock "id: d" "  B-->C")]
      (Execute.initial Host.emptyWorld)
    = (Host.Normal Execute.JsUndefined, s')
    /\ Host.world s' (lit "/site/static/img/diagrams/c-en.svg") <> None.
Proof.
  destruct (schedules_give_every_block_its_image
              joinWithSlash sampleOptions sampleStub [0; 0]
              [Renderer.mkDocFile (lit "docs/intro.md")
                 (sampleBlock "id: c" "  A-->B" ++ nl
                    ++ sampleBlock "id: d" "  B-->C")]
              Host.emptyWorld) as (s' & E & H).
  - intros t t' Hin Hin'. vm_compute in Hin, Hin'.
    destruct Hin as [<-|[<-|[]]], Hin' as [<-|[<-|[]]];
      vm_compute; discriminate.
  - vm_compute. repeat constructor; cbn; intuition discriminate.
  - intros t Hin. vm_compute in Hin.
    destruct Hin as [<-|[<-|[]]]; split; vm_compute; reflexivity.
  - exists s'. split; [exact E|].
    apply (H (Renderer.mkDocFile (lit "docs/intro.md")
                (sampleBlock "id: c" "  A-->B" ++ nl
                   ++ sampleBlock "id: d" "  B-->C"))
             (sampleBlock "id: c" "  A-->B")).
    + now left.
    + vm_compute. reflexivity.
    + vm_compute. left. reflexivity.
    + vm_compute. reflexivity.
Defined.

(* ================================================================== *)
(** * One task after the other: a schedule of the pool *)
(* ================================================================== *)

Section SequentialSchedule.

Import Renderer Host Execute Interleaved.

Variable path_join : jsstring -> jsstring -> jsstring.
Variable options : Options.
Variable stub : Stub.

Lemma nth_error_middle (pre post : list Thread) (x : Thread) :
  nth_error (pre ++ x :: post) (List.length pre) = Some x.
Proof. induction pre as [|y pre IH]; [reflexivity|exact IH]. Qed.

Lemma replaceAt_middle (pre post : list Thread) (x y : Thread) :
  replaceAt (List.length pre) y (pre ++ x :: post) = pre ++ y :: post.
Proof.
  induction pre as [|z pre IH]; [reflexivity|].
  cbn [List.length app replaceAt]. now rewrite IH.
Qed.

Lemma interleave_step (pre post : list Thread) (task : Task) (phase : Phase)
    (status : Status) (rest : list nat) (s s1 : State) :
  stepTask path_join options stub task phase s = (Normal status, s1) ->
  notRejected (task, status) ->
  interleave path_join options stub (List.length pre :: rest)
             (pre ++ (task, Pending phase) :: post) s
  = interleave path_join options stub rest (pre ++ (task, status) :: post) s1.
Proof.
  intros R Hn. cbn [interleave]. rewrite nth_error_middle.
  rewrite (bind_normal _ _ _ _ _ R), replaceAt_middle.
  destruct status as [phase'| |e]; [reflexivity|reflexivity|destruct Hn].
Qed.

Lemma interleave_skip (pre post : list Thread) (task : Task)
    (rest : list nat) (s : State) :
  interleave path_join options stub (List.length pre :: rest)
             (pre ++ (task, Fulfilled) :: post) s
  = interleave path_join options stub rest (pre ++ (task, Fulfilled) :: post) s.
Proof. cbn [interleave]. now rewrite nth_error_middle. Qed.

(** The function given to [limit], run from its start to its end, is the
    four steps of the task one after the other, or the first of them when
    the output exists. *)
Lemma runTask_steps (task : Task) (s : State) :
  writeFile_fault stub (tempInputFileOf path_join options task) = None ->
  exists s',
    runTask path_join options stub task s = (Normal tt, s')
    /\ (stepTask path_join options stub task Access s = (Normal Fulfilled, s')
        \/ exists s1 s2 s3,
             stepTask path_join options stub task Access s
             = (Normal (Pending Write), s1)
             /\ stepTask path_join options stub task Write s1
                = (Normal (Pending Exec), s2)
             /\ stepTask path_join options stub task Exec s2
                = (Normal (Pending Unlink), s3)
             /\ stepTask path_join options stub task Unlink s3
                = (Normal Fulfilled, s')).
Proof.
  intros Hw. destruct s as [w r k tr].
  destruct (w (outputPath task)) as [d|] eqn:E.
  - (* the output exists *)
    eexists. split; [|left].
    + unfold runTask. run_monad.
      rewrite (fs_access_hit (outputPath task) d (mkSt w r k tr) E).
      unfold success, incr_skippedCount. rewrite emit_eq. run_monad.
      norm_state. rewrite <- ?app_assoc. reflexivity.
    + unfold stepTask. run_monad.
      rewrite (fs_access_hit (outputPath task) d (mkSt w r k tr) E).
      unfold success, incr_skippedCount. rewrite emit_eq. run_monad.
      norm_state. rewrite <- ?app_assoc. reflexivity.
  - assert (Ht : forall image,
               putFile (outputPath task) image
                       (putFile (tempInputFileOf path_join options task)
                                (mermaidCode task) w)
                       (tempInputFileOf path_join options task)
               <> None)
      by (intros image; apply putFile_exists; rewrite putFile_same;
          discriminate).
    destruct (mmdc stub (mermaidCode task)) as [err|image] eqn:Em;
      [|specialize (Ht image);
        destruct (putFile (outputPath task) image
                          (putFile (tempInputFileOf path_join options task)
                                   (mermaidCode task) w)
                          (tempInputFileOf path_join options task))
          as [d|] eqn:Ed; [clear Ht|congruence]];
      destruct (unlink_fault stub (tempInputFileOf path_join options task))
        as [ue|] eqn:Eu.
    all: eexists; split;
      [|right; eexists _, _, _; split; [|split; [|split]]].
    all: [> (unfold runTask, stepTask; run_monad;
          try rewrite (fs_access_miss (outputPath task) (mkSt w r k tr) E);
          unfold log; rewrite ?emit_eq; run_monad;
          try rewrite (fs_writeFile_ok stub _ _ _ Hw); rewrite ?emit_eq;
          run_monad;
          try (erewrite execAsync_fail; [|apply putFile_same|exact Em]);
          try (erewrite execAsync_ok; [|apply putFile_same|exact Em]);
          unfold error, success, incr_renderedCount;
          rewrite ?emit_eq, ?console_error_if_eq; run_monad;
          try rewrite (fs_unlink_fault stub _ _ _ Eu);
          try (erewrite fs_unlink_ok;
               [|exact Eu|first [exact Ed|apply putFile_same]]);
          rewrite ?emit_eq; run_monad;
          norm_state; rewrite <- ?app_assoc; reflexivity) .. ].
Qed.

(** A task that takes its four turns in a row has run from its start to
    its end. *)
Lemma interleave_turn (pre post : list Thread) (task : Task)
    (rest : list nat) (s : State) :
  writeFile_fault stub (tempInputFileOf path_join options task) = None ->
  exists s',
    runTask path_join options stub task s = (Normal tt, s')
    /\ interleave path_join options stub
                  (repeat (List.length pre) 4 ++ rest)
                  (pre ++ (task, Pending Access) :: post) s
       = interleave path_join options stub rest
                    (pre ++ (task, Fulfilled) :: post) s'.
Proof.
  intros Hw.
  destruct (runTask_steps task s Hw)
    as (s' & R & [A|(s1 & s2 & s3 & A & B & C & D)]);
    exists s'; (split; [exact R|]); cbn [repeat app].
  - rewrite (interleave_step pre post task Access Fulfilled _ s s' A I).
    now rewrite !interleave_skip.
  - rewrite (interleave_step pre post task Access _ _ s s1 A I).
    rewrite (interleave_step pre post task Write _ _ s1 s2 B I).
    rewrite (interleave_step pre post task Exec _ _ s2 s3 C I).
    now rewrite (interleave_step pre post task Unlink _ _ s3 s' D I).
Qed.

(** The pool in which each task runs to its end before the next one
    starts. *)
Lemma runPool_is_a_schedule (tasks : list Task) :
  (forall t, In t tasks ->
             writeFile_fault stub (tempInputFileOf path_join options t)
             = None) ->
  forall (pre : list Thread) (s : State),
  exists s',
    runPool path_join options stub tasks s
    = (Normal (List.map (fun _ => None) tasks), s')
    /\ interleave path_join options stub
                  (flat_map (fun i => [i; i; i; i])
                            (seq (List.length pre) (List.length tasks)))
                  (pre ++ start tasks) s
       = (Normal (None, pre ++ List.map (fun t => (t, Fulfilled)) tasks), s').
Proof.
  induction tasks as [|t rest IH]; intros Hw pre s.
  - exists s. split; reflexivity.
  - destruct (interleave_turn
                pre (start rest) t
                (flat_map (fun i => [i; i; i; i])
                          (seq (S (List.length pre)) (List.length rest)))
                s (Hw t (or_introl eq_refl)))
      as (s1 & R & T).
    destruct (IH (fun t' H => Hw t' (or_intror H))
                 (pre ++ [(t, Fulfilled)]) s1) as (s' & P & Q).
    exists s'. split.
    + cbn [runPool List.map].
      rewrite (bind_normal _ _ _ _ _ (settle_normal _ _ _ _ _ _ R)).
      rewrite (bind_normal _ _ _ _ _ P). reflexivity.
    + cbn [List.length seq flat_map start List.map].
      change ([List.length pre; List.length pre; List.length pre;
               List.length pre]
                ++ flat_map (fun i => [i; i; i; i])
                            (seq (S (List.length pre)) (List.length rest)))
        with (repeat (List.length pre) 4
                ++ flat_map (fun i => [i; i; i; i])
                            (seq (S (List.length pre)) (List.length rest))).
      change (List.map (fun task => (task, Pending Access)) rest)
        with (start rest).
      rewrite T.
      rewrite length_app, Nat.add_1_r, <- !app_assoc in Q. exact Q.
Qed.

End SequentialSchedule.

Section SequentialLoadContent.

Import Host Execute Plugin.

Variable path_join : jsstring -> jsstring -> jsstring.
Variable stub : Stub.
Variable merged : Index.PluginOptions.
Variable ctx : Index.Context.
Variable pluginTempDir : jsstring.
Variable docFiles : list Renderer.DocFile.

Lemma rejections_none {A : Type} (l : list A) :
  rejections (List.map (fun _ => None) l) = [].
Proof. induction l as [|x l IH]; [reflexivity|exact IH]. Qed.

(** A pass in which no temporary file fails to be written. *)
Lemma execute_is_a_schedule (options : Renderer.Options)
    (tasks : list Renderer.Task) (s : State) :
  (forall t, In t tasks ->
             writeFile_fault stub (tempInputFileOf path_join options t)
             = None) ->
  exists s',
    execute path_join options stub tasks s = (Normal JsUndefined, s')
    /\ Interleaved.runPass path_join options stub [] tasks s
       = (Normal (None,
                  List.map (fun t => (t, Interleaved.Fulfilled)) tasks),
          s').
Proof.
  intros Hw.
  destruct (runPool_is_a_schedule path_join options stub tasks Hw [] s)
    as (s1 & P & Q).
  cbn [List.length app] in Q.
  exists (addEvents (summaryLines options s1) s1). split.
  - rewrite (execute_after_pool _ _ _ _ _ _ _ P). now rewrite rejections_none.
  - unfold Interleaved.runPass. cbn [app]. unfold Interleaved.completion.
    rewrite (bind_normal _ _ _ _ _ Q). cbn [fst].
    destruct s1 as [w r k tr].
    unfold success, log, summaryLines. run_monad. rewrite ?emit_eq.
    norm_state. rewrite <- ?app_assoc. reflexivity.
Qed.

Lemma renderThemes_is_a_schedule (themeConfigPath : option jsstring)
    (themes : list Index.Theme) :
  (forall theme t,
      In theme themes ->
      In t (Renderer.plan
              path_join
              (Index.renderOptions path_join merged ctx themeConfigPath
                                   pluginTempDir theme)
              docFiles) ->
      writeFile_fault
        stub
        (tempInputFileOf
           path_join
           (Index.renderOptions path_join merged ctx themeConfigPath
                                pluginTempDir theme)
           t)
      = None) ->
  forall s,
  exists s',
    renderThemes path_join stub merged ctx pluginTempDir docFiles
                 themeConfigPath themes s
    = (Normal tt, s')
    /\ InterleavedPlugin.renderThemes
         path_join stub merged ctx pluginTempDir docFiles themeConfigPath
         themes [] s
       = (Normal None, s').
Proof.
  induction themes as [|theme rest IH]; intros Hw s.
  - exists s. split; reflexivity.
  - cbn [renderThemes InterleavedPlugin.renderThemes hd tl]. cbv zeta.
    set (options := Index.renderOptions path_join merged ctx themeConfigPath
                                        pluginTempDir theme).
    set (s1 := addEvents
                 [ConsoleLog
                    [PStr (lit "[Mermaid-Static] Rendering theme ('"
                             ++ Index.themeName theme ++ lit "')...")]] s).
    destruct (execute_is_a_schedule
                options (Renderer.plan path_join options docFiles)
                (mkSt (world s1) 0 0 (trace s1)))
      as (s2 & E & R).
    { intros t Ht. apply (Hw theme t); [now left|exact Ht]. }
    destruct (IH (fun theme' t H => Hw theme' t (or_intror H))
                 (mkSt (world s2) (renderedCount s1) (skippedCount s1)
                       (trace s2)))
      as (s' & P & Q).
    exists s'. split.
    + rewrite (bind_normal _ _ _ _ _ (emit_eq _ s)). fold s1.
      unfold bind at 1. unfold pass, renderAllMermaidDiagrams.
      rewrite E. exact P.
    + rewrite (bind_normal _ _ _ _ _ (emit_eq _ s)). fold s1.
      unfold bind at 1.
      unfold InterleavedPlugin.pass, InterleavedPlugin.ownCounters.
      rewrite R. cbn [fst]. exact Q.
Qed.

End SequentialLoadContent.

(** X20.  Running every task to its end before the next one starts is one
    of the schedules of the pool.  When no temporary file of the tasks
    fails to be written, the pass in which the tasks run one after the
    other, in admission order, completes as the interleaved pass does under
    the schedule that gives every task its turns in a row, and in the same
    state: the same files, the same counters and the same trace.  So does
    [loadContent], whose passes are all fulfilled then. *)
Theorem one_after_the_other_is_a_schedule
    (path_join : jsstring -> jsstring -> jsstring) (stub : Host.Stub) :
  (forall options tasks s,
      (forall t, In t tasks ->
                 Host.writeFile_fault
                   stub (Execute.tempInputFileOf path_join options t)
                 = None) ->
      Execute.execute path_join options stub tasks s
      = Interleaved.execute path_join options stub [] tasks s)
  /\ (forall production merged ctx mmdcConfigObject pluginTempDir docFiles
             during afterwards p,
        (forall themeConfigPath theme t,
            In theme (Index.themesToRender merged ctx) ->
            In t (Renderer.plan
                    path_join
                    (Index.renderOptions path_join merged ctx themeConfigPath
                                         pluginTempDir theme)
                    docFiles) ->
            Host.writeFile_fault
              stub
              (Execute.tempInputFileOf
                 path_join
                 (Index.renderOptions path_join merged ctx themeConfigPath
                                      pluginTempDir theme)
                 t)
            = None) ->
        Plugin.loadContent path_join stub production merged ctx
                           mmdcConfigObject pluginTempDir docFiles p
        = InterleavedPlugin.loadContent
            path_join stub production merged ctx mmdcConfigObject
            pluginTempDir docFiles [] during afterwards p).
Proof.
  split.
  - intros options tasks s Hw.
    destruct (execute_is_a_schedule path_join stub options tasks s Hw)
      as (s' & E & R).
    rewrite E. unfold Interleaved.execute.
    now rewrite (bind_normal _ _ _ _ _ R).
  - intros production merged ctx mmdcConfigObject pluginTempDir docFiles
           during afterwards p Hw.
    unfold Plugin.loadContent, InterleavedPlugin.loadContent.
    destruct (negb production); [reflexivity|].
    destruct (Plugin.MERMAID_STATIC_RENDERED p); [reflexivity|].
    assert (E : Plugin.renderAll path_join stub merged ctx mmdcConfigObject
                                 pluginTempDir docFiles (Plugin.host p)
                = InterleavedPlugin.renderAll
                    path_join stub merged ctx mmdcConfigObject pluginTempDir
                    docFiles [] during afterwards (Plugin.host p)).
    { unfold Plugin.renderAll, InterleavedPlugin.renderAll.
      unfold Host.bind at 1. unfold Host.bind at 1.
      destruct (Plugin.resolveThemeConfig path_join stub merged ctx
                                          mmdcConfigObject pluginTempDir
                                          (Plugin.host p))
        as [[resolved|e] s1]; [|reflexivity].
      destruct (renderThemes_is_a_schedule
                  path_join stub merged ctx pluginTempDir docFiles
                  (fst resolved) (Index.themesToRender merged ctx)
                  (Hw (fst resolved)) s1)
        as (s2 & P & Q).
      unfold Host.try_finally. rewrite P.
      rewrite (bind_normal _ _ _ _ _ Q).
      destruct (Plugin.removeTempConfig stub (fst resolved) (snd resolved) s2)
        as [[[]|e] s3]; reflexivity. }
    now rewrite E.
Qed.

Lemma one_after_the_other_is_a_schedule_example :
  Execute.execute joinWithSlash sampleOptions sampleStub sampleGoodTasks
                  (Execute.initial Host.emptyWorld)
  = Interleaved.execute joinWithSlash sampleOptions sampleStub []
                        sampleGoodTasks (Execute.initial Host.emptyWorld).
Proof.
  apply (proj1 (one_after_the_other_is_a_schedule joinWithSlash sampleStub)).
  intros t Hin. vm_compute in Hin.
  destruct Hin as [<-|[<-|[]]]; vm_compute; reflexivity.
Defined.

(** X21.  A rejected pass can leave a temporary file behind.  The file
    below has two blocks; the temporary file of the second cannot be
    written, its identity naming a directory that does not exist.  With
    room for two tasks in the pool, the first task has written its
    temporary file and is rendering when the write of the second fails:
    the pass is rejected there, with that error, and the temporary file of
    the first task exists at that moment. *)
Lemma rejected_pass_leaves_temporary_file :
  exists a b,
    Renderer.plan
      joinWithSlash sampleOptions
      [Renderer.mkDocFile (lit "docs/intro.md")
                          (sampleBlock "id: c" "  A-->B" ++ nl
                             ++ sampleBlock "id: team/flow" "  A-->B")]
    = [a; b]
    /\ Renderer.concurrency sampleOptions = 2
    /\ Interleaved.runPass joinWithSlash sampleOptions sampleStub
                           [0; 0; 1; 1] [a; b]
                           (Execute.initial Host.emptyWorld)
       = (Host.Normal
            (Some (Host.fsError
                     (lit "ENOENT")
                     (Execute.tempInputFileOf joinWithSlash sampleOptions b)),
             [(a, Interleaved.Pending Interleaved.Exec);
              (b, Interleaved.Rejected
                    (Host.fsError
                       (lit "ENOENT")
                       (Execute.tempInputFileOf joinWithSlash sampleOptions
                                                b)))]),
          snd (Interleaved.execute joinWithSlash sampleOptions sampleStub
                                   [0; 0; 1; 1] [a; b]
                                   (Execute.initial Host.emptyWorld)))
    /\ fst (Interleaved.execute joinWithSlash sampleOptions sampleStub
                                [0; 0; 1; 1] [a; b]
                                (Execute.initial Host.emptyWorld))
       = Host.Throw
           (Host.fsError
              (lit "ENOENT")
              (Execute.tempInputFileOf joinWithSlash sampleOptions b))
    /\ Host.world
         (snd (Interleaved.execute joinWithSlash sampleOptions sampleStub
                                   [0; 0; 1; 1] [a; b]
                                   (Execute.initial Host.emptyWorld)))
         (Execute.tempInputFileOf joinWithSlash sampleOptions a)
       = Some (Renderer.mermaidCode a)
    /\ hostCalls
         (Host.trace
            (snd (Interleaved.execute joinWithSlash sampleOptions sampleStub
                                      [0; 0; 1; 1] [a; b]
                                      (Execute.initial Host.emptyWorld))))
       = [Host.FsAccess (Renderer.outputPath a) false;
          Host.FsWriteFile
            (Execute.tempInputFileOf joinWithSlash sampleOptions a)
            (Renderer.mermaidCode a) true;
          Host.FsAccess (Renderer.outputPath b) false;
          Host.FsWriteFile
            (Execute.tempInputFileOf joinWithSlash sampleOptions b)
            (Renderer.mermaidCode b) false].
Proof.
  eexists _, _. split; [vm_compute; reflexivity|].
  repeat split; vm_compute; reflexivity.
Qed.
